(** * rxwc: a reactive base class for web components

    A shallow embedding of the TypeScript sources of the repository
    ([utils.ts], [decorators.ts], [property-effects.ts], [rx-component.ts])
    together with the properties that its specification states about them.

    JavaScript values are an inductive type, exceptions are a [result],
    the instance is a record threaded through every operation and what the
    instance does to the outside world (events dispatched on the host,
    attributes written, renderer calls, lifecycle signals) is the list of
    [event]s an operation returns. The record holds the members that
    [rx-component.ts] declares and, apart from them, the observed
    properties: the embedding is of classes whose observed properties
    have other names than these members ([isAttached], [template], ...),
    since the accessor of a property takes the place of a member of its
    name. *)

From Stdlib Require Import List String Ascii Bool Arith ZArith Lia.
Import ListNotations.
Local Open Scope string_scope.
Local Open Scope list_scope.

Set Implicit Arguments.

(* ================================================================== *)
(** * JavaScript values *)

(** A JavaScript number: [NaN], an infinity, an integer, or a finite
    number that is not an integer. A double that is not an integer is an
    odd integer over a power of two, in one way only: [Frac h k] is
    [(2h+1) / 2^k]. The code compares numbers with [===], tests them for
    truthiness and prints them; [-0] behaves as [0] in all three. *)
Inductive number : Type :=
  | NaN
  | Num (z : Z)
  | Inf (negative : bool)
  | Frac (h : Z) (k : positive).

(** What the property [toString] of an object evaluates to. *)
Inductive slot : Type :=
  | SlotFalsy                  (* absent, [undefined] or [null] *)
  | SlotFunction (ret : string)  (* a method, with the string it returns *)
  | SlotOther.                 (* a truthy value that is not callable *)

(** An object is known by its identity [ref]; the other fields are the
    properties that [serialize] reads. *)
Record object : Type := mkObject {
  ref : nat;
  toStringSlot : slot;
  href : option string
}.

Inductive value : Type :=
  | VUndefined
  | VNull
  | VBoolean (b : bool)
  | VNumber (n : number)
  | VString (s : string)
  | VObject (o : object).

Inductive error : Type :=
  | TypeError
  | EvalError
  | SyntaxError.

(** The outcome of a call that may throw. *)
Inductive result (A : Type) : Type :=
  | Ok (a : A)
  | Throw (e : error).
Arguments Ok {A} a.
Arguments Throw {A} e.

Definition number_eqb (a b : number) : bool :=
  match a, b with
  | Num x, Num y => Z.eqb x y
  | Inf x, Inf y => Bool.eqb x y
  | Frac h k, Frac h' k' => Z.eqb h h' && Pos.eqb k k'
  | _, _ => false
  end.

(** [x === y] *)
Definition strict_equal (x y : value) : bool :=
  match x, y with
  | VUndefined, VUndefined => true
  | VNull, VNull => true
  | VBoolean a, VBoolean b => Bool.eqb a b
  | VNumber a, VNumber b => number_eqb a b
  | VString a, VString b => String.eqb a b
  | VObject a, VObject b => Nat.eqb (ref a) (ref b)
  | _, _ => false
  end.

(** [!value] *)
Definition falsy (v : value) : bool :=
  match v with
  | VUndefined | VNull => true
  | VBoolean b => negb b
  | VNumber NaN => true
  | VNumber (Num z) => Z.eqb z 0
  | VNumber (Inf _) | VNumber (Frac _ _) => false
  | VString s => match s with EmptyString => true | String _ _ => false end
  | VObject _ => false
  end.

(* ------------------------------------------------------------------ *)
(** ** Decimal notation of integers *)

Definition digit_of_nat (n : nat) : ascii := ascii_of_nat (48 + n).

Fixpoint decimal_aux (fuel n : nat) (acc : string) : string :=
  match fuel with
  | O => acc
  | S fuel' =>
      let acc' := String (digit_of_nat (n mod 10)) acc in
      match n / 10 with
      | O => acc'
      | q => decimal_aux fuel' q acc'
      end
  end.

Definition string_of_nat (n : nat) : string := decimal_aux (S n) n EmptyString.

Definition string_of_Z (z : Z) : string :=
  match z with
  | Z0 => "0"
  | Zpos p => string_of_nat (Pos.to_nat p)
  | Zneg p => String.append "-" (string_of_nat (Pos.to_nat p))
  end.

(* ================================================================== *)
(** * utils.ts: names *)

Module Utils.

Definition is_upper (c : ascii) : bool :=
  let n := nat_of_ascii c in Nat.leb 65 n && Nat.leb n 90.

Definition is_lower (c : ascii) : bool :=
  let n := nat_of_ascii c in Nat.leb 97 n && Nat.leb n 122.

Definition is_digit (c : ascii) : bool :=
  let n := nat_of_ascii c in Nat.leb 48 n && Nat.leb n 57.

(** The class [\w], which [\d] is part of. *)
Definition is_word (c : ascii) : bool :=
  is_upper c || is_lower c || is_digit c || Ascii.eqb c "_".

(** The class [[-_]]. *)
Definition is_separator (c : ascii) : bool :=
  Ascii.eqb c "-" || Ascii.eqb c "_".

(** [c.toLowerCase()] and [c.toUpperCase()] on a single character. *)
Definition toLowerCase (c : ascii) : ascii :=
  if is_upper c then ascii_of_nat (nat_of_ascii c + 32) else c.

Definition toUpperCase (c : ascii) : ascii :=
  if is_lower c then ascii_of_nat (nat_of_ascii c - 32) else c.

(** [prop.replace(/([a-z0-9])([A-Z])/g, replacer)]: the matches are found
    from left to right and do not overlap. *)
Fixpoint replace_camel_humps (s : string) : string :=
  match s with
  | EmptyString => EmptyString
  | String a rest =>
      match rest with
      | EmptyString => String a EmptyString
      | String b t =>
          if (is_lower a || is_digit a) && is_upper b
          then String a (String "-" (String (toLowerCase b) (replace_camel_humps t)))
          else String a (replace_camel_humps rest)
      end
  end.

(** [.replace(/([\w])_([\w])/g, replacer)] *)
Fixpoint replace_underscores (s : string) : string :=
  match s with
  | EmptyString => EmptyString
  | String a rest =>
      match rest with
      | String u (String b t) =>
          if is_word a && Ascii.eqb u "_" && is_word b
          then String a (String "-" (String (toLowerCase b) (replace_underscores t)))
          else String a (replace_underscores rest)
      | _ => String a (replace_underscores rest)
      end
  end.

Definition toKebabCase (prop : string) : string :=
  replace_underscores (replace_camel_humps prop).

(** [attr.replace(/[-_]([\w\d])/g, (_, c) => c.toUpperCase())] *)
Fixpoint toCamelCase (attr : string) : string :=
  match attr with
  | EmptyString => EmptyString
  | String s rest =>
      match rest with
      | EmptyString => String s EmptyString
      | String c t =>
          if is_separator s && is_word c
          then String (toUpperCase c) (toCamelCase t)
          else String s (toCamelCase rest)
      end
  end.

End Utils.

(* ================================================================== *)
(** * types.d.ts: configuration objects *)

Module Types.

(** [Converter]: the three built-in converters are told apart by identity
    ([converter === JSON], ...); any other converter is an object with a
    static [parse] method, which may throw. *)
Inductive Converter : Type :=
  | JSON
  | URL
  | Boolean
  | Custom (parse : string -> result value).

(** [ConfigObject]: a key that is absent from the object is [None]. *)
Record ConfigObject : Type := mkConfig {
  converter : option Converter;
  attribute : option string;
  notify : option string;
  reflect : option bool
}.

(** The object literal [{}]. *)
Definition empty_config : ConfigObject :=
  {| converter := None; attribute := None; notify := None; reflect := None |}.

End Types.
Import Types.

(** The built-ins of the JavaScript runtime that the code calls and that
    are not part of the repository. [JSON.stringify] returns a string or
    [undefined], or throws (on an object that contains itself, for one);
    [JSON.parse] and [new URL] may throw. No operation of the instance
    decodes twice, so the identity of an object that a built-in makes is
    part of what it returns. [Number_toString] is the decimal form of a
    number that is not written as a plain integer: of one with a
    fraction, and of one from [1e21] on, which is written with an
    exponent. [Object_prototype name] is what an object of properties
    without an entry of its own for [name] has under that name all the
    same, by inheritance from [Object.prototype] ([constructor],
    [toString], ...), as a configuration object, that is with the fields
    [deserialize] can read from it; [None] when it has nothing. *)
Class Runtime : Type := {
  JSON_parse : string -> result value;
  JSON_stringify : value -> result value;
  URL_new : string -> result value;
  Number_toString : number -> string;
  Object_prototype : string -> option ConfigObject
}.

Module Codec.
Section WithRuntime.
Context {rt : Runtime}.

(** [Number.prototype.toString], which the template literal uses too:
    an integer below [1e21] is written in full. *)
Definition string_of_number (n : number) : string :=
  match n with
  | NaN => "NaN"
  | Inf false => "Infinity"
  | Inf true => "-Infinity"
  | Num z =>
      if (Z.abs z <? 10 ^ 21)%Z then string_of_Z z else Number_toString n
  | Frac _ _ => Number_toString n
  end.

(** The template literal [`${value}`] *)
Definition template_string (v : value) : result string :=
  match v with
  | VUndefined => Ok "undefined"
  | VNull => Ok "null"
  | VBoolean true => Ok "true"
  | VBoolean false => Ok "false"
  | VNumber n => Ok (string_of_number n)
  | VString s => Ok s
  | VObject o =>
      match toStringSlot o with
      | SlotFunction s => Ok s
      | _ => Throw TypeError
      end
  end.

Definition isURL (c : option Converter) : bool :=
  match c with Some URL => true | _ => false end.

Definition isBoolean (c : option Converter) : bool :=
  match c with Some Boolean => true | _ => false end.

Definition isJSON (c : option Converter) : bool :=
  match c with Some JSON => true | _ => false end.

(** [value.charAt(0)] is one of the three given characters *)
Definition starts_json (s : string) : bool :=
  match s with
  | String c _ =>
      Ascii.eqb c "[" || Ascii.eqb c "{" || Ascii.eqb c (ascii_of_nat 34)
  | EmptyString => false
  end.

(** [/\d+/.test(value)] *)
Fixpoint has_digit (s : string) : bool :=
  match s with
  | EmptyString => false
  | String c t => Utils.is_digit c || has_digit t
  end.

Definition looks_like_json (s : string) : bool :=
  (String.eqb s "null" || String.eqb s "false" || String.eqb s "true")
  || starts_json s || has_digit s.

Definition deserialize (v : string) (config : ConfigObject) : result value :=
  match converter config with
  | Some Boolean => Ok (VBoolean (negb (String.eqb v "null")))
  | Some URL => URL_new v
  | Some (Custom parse) => parse v
  | Some JSON | None =>
      if looks_like_json v then JSON_parse v else Ok (VString v)
  end.

(** [(value as URL).href] *)
Definition get_href (v : value) : result value :=
  match v with
  | VUndefined | VNull => Throw TypeError
  | VObject o =>
      match href o with
      | Some h => Ok (VString h)
      | None => Ok VUndefined
      end
  | _ => Ok VUndefined
  end.

(** What [value.toString] evaluates to on a truthy value: primitives find
    the method of their wrapper prototype. *)
Definition toString_of (v : value) : slot :=
  match v with
  | VUndefined | VNull => SlotFalsy
  | VBoolean b => SlotFunction (if b then "true" else "false")
  | VNumber n => SlotFunction (string_of_number n)
  | VString s => SlotFunction s
  | VObject o => toStringSlot o
  end.

Definition serialize (v : value) (config : ConfigObject) : result value :=
  if isJSON (converter config) then JSON_stringify v
  else if isURL (converter config) then get_href v
  else if falsy v then
    match template_string v with
    | Ok s => Ok (VString s)
    | Throw e => Throw e
    end
  else
    match toString_of v with
    | SlotFunction s => Ok (VString s)
    | SlotOther => Throw TypeError
    | SlotFalsy => Throw EvalError
    end.

End WithRuntime.
End Codec.

(** ** Association lists for objects, [Map] and [Set] *)

Section Assoc.
Variables (K V : Type) (eqb : K -> K -> bool).

Fixpoint assoc_get (k : K) (l : list (K * V)) : option V :=
  match l with
  | [] => None
  | (k', v) :: t => if eqb k k' then Some v else assoc_get k t
  end.

Definition assoc_has (k : K) (l : list (K * V)) : bool :=
  match assoc_get k l with Some _ => true | None => false end.

(** [map.set(k, v)]: a key that is present keeps its place. *)
Fixpoint assoc_set (k : K) (v : V) (l : list (K * V)) : list (K * V) :=
  match l with
  | [] => [(k, v)]
  | (k', v') :: t =>
      if eqb k k' then (k', v) :: t else (k', v') :: assoc_set k v t
  end.

Fixpoint assoc_delete (k : K) (l : list (K * V)) : list (K * V) :=
  match l with
  | [] => []
  | (k', v') :: t =>
      if eqb k k' then assoc_delete k t else (k', v') :: assoc_delete k t
  end.

Fixpoint set_has (k : K) (l : list K) : bool :=
  match l with
  | [] => false
  | k' :: t => eqb k k' || set_has k t
  end.

Definition set_add (k : K) (l : list K) : list K :=
  if set_has k l then l else l ++ [k].

Fixpoint set_delete (k : K) (l : list K) : list K :=
  match l with
  | [] => []
  | k' :: t => if eqb k k' then set_delete k t else k' :: set_delete k t
  end.

End Assoc.

(* ================================================================== *)
(** * decorators.ts: the configuration store *)

Module Decorators.

(** A property key is a string or a symbol. *)
Inductive PropertyKey : Type :=
  | KString (s : string)
  | KSymbol (id : nat).

Definition key_eqb (a b : PropertyKey) : bool :=
  match a, b with
  | KString x, KString y => String.eqb x y
  | KSymbol x, KSymbol y => Nat.eqb x y
  | _, _ => false
  end.

(** ** The keys of an object, in the order of [Object.keys] *)

Fixpoint digits (s : string) (acc : N) : option N :=
  match s with
  | EmptyString => Some acc
  | String c t =>
      if Utils.is_digit c
      then digits t (10 * acc + N.of_nat (nat_of_ascii c - 48))%N
      else None
  end.

(** The array index that a string is the canonical form of: [0], or
    digits without a leading zero, below [2^32 - 1]. *)
Definition array_index (s : string) : option N :=
  match s with
  | EmptyString => None
  | String c t =>
      if Ascii.eqb c "0"
      then match t with EmptyString => Some 0%N | String _ _ => None end
      else
        match digits s 0 with
        | Some n => if (n <? 4294967295)%N then Some n else None
        | None => None
        end
  end.

Definition index_of (k : PropertyKey) : option N :=
  match k with
  | KString s => array_index s
  | KSymbol _ => None
  end.

(** [ComponentConfig], as far as the decorators touch it: [properties] may
    still be missing. The entries are the properties that the object has
    of its own, in the order in which [Object.keys] lists them: the keys
    that are array indices first, in ascending order, then the other
    strings in the order in which they were created. *)
Record ComponentConfig : Type := mkComponentConfig {
  properties : option (list (PropertyKey * ConfigObject))
}.

(** The entry that the object has of its own for the key. *)
Fixpoint own (k : PropertyKey) (l : list (PropertyKey * ConfigObject))
  : option ConfigObject :=
  match l with
  | [] => None
  | (k', c) :: t => if key_eqb k k' then Some c else own k t
  end.

Fixpoint replace (k : PropertyKey) (c : ConfigObject)
  (l : list (PropertyKey * ConfigObject)) : list (PropertyKey * ConfigObject) :=
  match l with
  | [] => []
  | (k', c') :: t =>
      if key_eqb k k' then (k', c) :: t else (k', c') :: replace k c t
  end.

(** A new key that is the array index [n] goes before the first key that
    is a greater index or no index at all. *)
Fixpoint insert (n : N) (k : PropertyKey) (c : ConfigObject)
  (l : list (PropertyKey * ConfigObject)) : list (PropertyKey * ConfigObject) :=
  match l with
  | [] => [(k, c)]
  | (k', c') :: t =>
      match index_of k' with
      | Some m =>
          if (m <? n)%N then (k', c') :: insert n k c t
          else (k, c) :: (k', c') :: t
      | None => (k, c) :: (k', c') :: t
      end
  end.

(** [properties[k] = c]: a key that the object has keeps its place, a
    new one is put where [Object.keys] lists it. *)
Definition assign (k : PropertyKey) (c : ConfigObject)
  (l : list (PropertyKey * ConfigObject)) : list (PropertyKey * ConfigObject) :=
  match own k l with
  | Some _ => replace k c l
  | None =>
      match index_of k with
      | Some n => insert n k c l
      | None => l ++ [(k, c)]
      end
  end.

(** ** What a plain object inherits *)

(** [Object.prototype], as far as the decorators can reach it through an
    object of properties: its members by name, each with the fields of a
    configuration object that have been written to it, and the fields of
    a configuration object that have been written to [Object.prototype]
    itself, which every object inherits from then on. *)
Record Realm : Type := mkRealm {
  members : list (string * ConfigObject);
  fields : ConfigObject
}.

(** The members of [Object.prototype], all of them functions; the
    accessor [__proto__] is apart. *)
Definition Object_prototype_names : list string :=
  ["constructor"; "__defineGetter__"; "__defineSetter__"; "hasOwnProperty";
   "__lookupGetter__"; "__lookupSetter__"; "isPrototypeOf";
   "propertyIsEnumerable"; "toString"; "valueOf"; "toLocaleString"].

(** [Object.prototype] before any decorator ran. *)
Definition pristine : Realm :=
  {| members := map (fun name => (name, empty_config)) Object_prototype_names;
     fields := empty_config |}.

(** The prototype of a class, with the [Object.prototype] of the program:
    [prototype[CONFIG]] may be missing. *)
Record Prototype : Type := mkClass {
  CONFIG : option ComponentConfig;
  realm : Realm
}.

(** The prototype of a class in a program that has not written to
    [Object.prototype]. *)
Definition mkPrototype (config : option ComponentConfig) : Prototype :=
  {| CONFIG := config; realm := pristine |}.

Definition entries (prototype : Prototype) : list (PropertyKey * ConfigObject) :=
  match CONFIG prototype with
  | Some {| properties := Some l |} => l
  | _ => []
  end.

Definition is_empty (s : string) : bool :=
  match s with EmptyString => true | String _ _ => false end.

(** [!attribute] *)
Definition missing (s : option string) : bool :=
  match s with
  | None => true
  | Some x => is_empty x
  end.

(** What [properties[propertyKey]] evaluates to when it is truthy: an
    entry of the object, a member of [Object.prototype],
    [Object.prototype] itself (under the name [__proto__]), or a field
    that was written to [Object.prototype], which is a string or a
    boolean (a scalar) or else the converter. *)
Inductive reference : Type :=
  | Entry
  | Member (name : string)
  | Root
  | Scalar
  | Foreign.

(** What an object without an entry for [name] inherits under it; a
    falsy value is as good as none after [||]. *)
Definition inherited (r : Realm) (name : string) : option reference :=
  if String.eqb name "__proto__" then Some Root else
  match assoc_get String.eqb name (members r) with
  | Some _ => Some (Member name)
  | None =>
      if String.eqb name "attribute"
      then if missing (attribute (fields r)) then None else Some Scalar
      else if String.eqb name "notify"
      then if missing (notify (fields r)) then None else Some Scalar
      else if String.eqb name "reflect"
      then match reflect (fields r) with
           | Some true => Some Scalar
           | _ => None
           end
      else if String.eqb name "converter"
      then match converter (fields r) with
           | Some _ => Some Foreign
           | None => None
           end
      else None
  end.

(** [properties[propertyKey]], looked for in the object and then in
    [Object.prototype]. *)
Definition resolve (prototype : Prototype) (propertyKey : PropertyKey)
  : option reference :=
  match own propertyKey (entries prototype) with
  | Some _ => Some Entry
  | None =>
      match propertyKey with
      | KString name => inherited (realm prototype) name
      | KSymbol _ => None
      end
  end.

(** [getPropertyConfig]: what [properties[propertyKey]] evaluates to, or
    else the entry that is created for the key; the objects that hold
    the entries are created when they are missing. The reference is
    returned with the prototype in which it now exists. *)
Definition getPropertyConfig (prototype : Prototype) (propertyKey : PropertyKey)
  : Prototype * reference :=
  let props := entries prototype in
  match resolve prototype propertyKey with
  | Some r =>
      ({| CONFIG := Some {| properties := Some props |};
          realm := realm prototype |}, r)
  | None =>
      ({| CONFIG := Some {| properties :=
            Some (assign propertyKey empty_config props) |};
          realm := realm prototype |}, Entry)
  end.

(** The fields that the object behind the reference has of its own. *)
Definition read (prototype : Prototype) (propertyKey : PropertyKey)
  (r : reference) : ConfigObject :=
  match r with
  | Entry =>
      match own propertyKey (entries prototype) with
      | Some c => c
      | None => empty_config
      end
  | Member name =>
      match assoc_get String.eqb name (members (realm prototype)) with
      | Some c => c
      | None => empty_config
      end
  | Root => fields (realm prototype)
  | Scalar | Foreign => empty_config
  end.

(** [!propertyConfig.converter]: the converter is looked for in the
    object and then in [Object.prototype]; the converter that
    [Object.prototype] has inherits itself. *)
Definition lacks_converter (prototype : Prototype) (r : reference)
  (c : ConfigObject) : bool :=
  match r with
  | Foreign => false
  | _ =>
      match converter c, converter (fields (realm prototype)) with
      | None, None => true
      | _, _ => false
      end
  end.

(** The assignments of a decorator through the reference that
    [getPropertyConfig] returned, [c] being the fields of the object
    after them. The code is a module, hence strict: an assignment to a
    property of a string or a boolean throws. What is assigned to the
    converter stays with the converter. *)
Definition write (prototype : Prototype) (propertyKey : PropertyKey)
  (r : reference) (c : ConfigObject) : Prototype * option error :=
  match r with
  | Entry =>
      ({| CONFIG := Some {| properties :=
            Some (assign propertyKey c (entries prototype)) |};
          realm := realm prototype |}, None)
  | Member name =>
      ({| CONFIG := CONFIG prototype;
          realm := {| members := assoc_set String.eqb name c
                                   (members (realm prototype));
                      fields := fields (realm prototype) |} |}, None)
  | Root =>
      ({| CONFIG := CONFIG prototype;
          realm := {| members := members (realm prototype); fields := c |} |},
       None)
  | Scalar => (prototype, Some TypeError)
  | Foreign => (prototype, None)
  end.

(** A decorator applied to a prototype and a key returns the prototype
    as the call leaves it, and the exception if it threw. *)
Definition PropertyDecorator : Type :=
  Prototype -> PropertyKey -> Prototype * option error.

Definition observe (attribute : option string) : PropertyDecorator :=
  fun prototype propertyKey =>
    match propertyKey with
    | KSymbol _ => (prototype, Some TypeError)
    | KString name =>
        let (prototype1, propertyConfig) :=
          getPropertyConfig prototype propertyKey in
        let c := read prototype1 propertyKey propertyConfig in
        let attribute1 :=
          if missing attribute then Some (Utils.toKebabCase name) else attribute in
        let c1 :=
          {| converter := converter c;
             Types.attribute := attribute1;
             Types.notify := Types.notify c;
             Types.reflect := Types.reflect c |} in
        let c2 :=
          if lacks_converter prototype1 propertyConfig c1
          then {| converter := Some JSON;
                  Types.attribute := Types.attribute c1;
                  Types.notify := Types.notify c1;
                  Types.reflect := Types.reflect c1 |}
          else c1 in
        write prototype1 propertyKey propertyConfig c2
    end.

Definition withConverter (conv : Converter) : PropertyDecorator :=
  fun prototype propertyKey =>
    match propertyKey with
    | KSymbol _ => (prototype, Some TypeError)
    | KString _ =>
        let (prototype1, propertyConfig) :=
          getPropertyConfig prototype propertyKey in
        let c := read prototype1 propertyKey propertyConfig in
        write prototype1 propertyKey propertyConfig
          {| converter := Some conv;
             attribute := attribute c;
             Types.notify := Types.notify c;
             Types.reflect := Types.reflect c |}
    end.

Definition toggleAttr : PropertyDecorator :=
  fun prototype propertyKey =>
    match propertyKey with
    | KSymbol _ => (prototype, Some TypeError)
    | KString _ =>
        let (prototype1, propertyConfig) :=
          getPropertyConfig prototype propertyKey in
        let c := read prototype1 propertyKey propertyConfig in
        write prototype1 propertyKey propertyConfig
          {| converter := Some Boolean;
             attribute := attribute c;
             Types.notify := Types.notify c;
             Types.reflect := Types.reflect c |}
    end.

Definition notify (eventName : option string) : PropertyDecorator :=
  fun prototype propertyKey =>
    match propertyKey with
    | KSymbol _ => (prototype, Some TypeError)
    | KString name =>
        let (prototype1, propertyConfig) :=
          getPropertyConfig prototype propertyKey in
        let c := read prototype1 propertyKey propertyConfig in
        let eventName1 :=
          if missing eventName
          then Some (String.append (Utils.toKebabCase name) "-changed")
          else eventName in
        write prototype1 propertyKey propertyConfig
          {| converter := converter c;
             attribute := attribute c;
             Types.notify := eventName1;
             Types.reflect := Types.reflect c |}
    end.

Definition reflect : PropertyDecorator :=
  fun prototype propertyKey =>
    match propertyKey with
    | KSymbol _ => (prototype, Some TypeError)
    | KString _ =>
        let (prototype1, propertyConfig) :=
          getPropertyConfig prototype propertyKey in
        let c := read prototype1 propertyKey propertyConfig in
        write prototype1 propertyKey propertyConfig
          {| converter := converter c;
             attribute := attribute c;
             Types.notify := Types.notify c;
             Types.reflect := Some true |}
    end.

(** [Object.keys] of the properties: the string keys, in order. *)
Fixpoint string_entries (l : list (PropertyKey * ConfigObject))
  : list (string * ConfigObject) :=
  match l with
  | [] => []
  | (KString s, c) :: t => (s, c) :: string_entries t
  | (KSymbol _, _) :: t => string_entries t
  end.

End Decorators.

(* ================================================================== *)
(** * property-effects.ts and rx-component.ts: the instance *)

(** What an effect handler does to the host element. [setAttribute] is
    recorded with the value it is handed, which the host turns into a
    string. The host itself is outside the model: what it does in return,
    such as reporting the new attribute to [attributeChangedCallback], is
    an action of its own in a run. *)
Inductive host_call : Type :=
  | DispatchEvent (type : string)
  | SetAttribute (name : option string) (v : value).

(** The streams that can be in the set of registered streams: the stream
    that the constructor builds and registers itself, a stream that client
    code derives from [propertyChanged$], and any other stream of the
    client. The number tells stream objects apart. *)
Inductive stream : Type :=
  | RenderStream
  | PropertyChanged (n : nat)
  | Foreign (n : nat).

Definition stream_eqb (a b : stream) : bool :=
  match a, b with
  | RenderStream, RenderStream => true
  | PropertyChanged x, PropertyChanged y => Nat.eqb x y
  | Foreign x, Foreign y => Nat.eqb x y
  | _, _ => false
  end.

Inductive lifecycle : Type :=
  | Connected
  | Disconnected
  | AttributeChanged (name from to : string).

(** What an operation of the instance lets the outside see, in order. The
    number is the subscription in which it happened. [Assigned] is an
    assignment to a property of the element that is not one of its
    observed properties; the model does not follow what the element does
    with the property. *)
Inductive event : Type :=
  | Effect (sub : nat) (call : host_call)
  | Changed (sub : nat) (name : string) (v : value)
  | Rendered (sub : nat) (template : list (string * value))
  | Unhandled (sub : nat) (e : error)
  | Signal (s : lifecycle)
  | Thrown (e : error)
  | Assigned (name : string) (v : value).

(** What travels through [throttleTime]: a pair of the change feed, or the
    [null] of [startWith]. *)
Inductive item : Type :=
  | Startup
  | Change (name : string) (v : value).

(** One subscription, as [stream.subscribe()] returns it, with the state
    of the operators of its chain: the key of each [distinctUntilChanged]
    (one per property, missing until a value passed), the timer and the
    trailing value of [throttleTime], and whether the chain has completed
    or failed. *)
Record subscription : Type := mkSubscription {
  id : nat;
  source : stream;
  keys : list (string * value);
  throttled : bool;
  trailingValue : option item;
  closed : bool
}.

Module PropertyEffects.
Section WithRuntime.
Context {rt : Runtime}.

Definition notify (propertyConfig : ConfigObject) : list host_call :=
  match Types.notify propertyConfig with
  | Some type => [DispatchEvent type]
  | None => []
  end.

Definition reflect (propertyValue : value) (propertyConfig : ConfigObject)
  : result (list host_call) :=
  match Codec.serialize propertyValue propertyConfig with
  | Ok s => Ok [SetAttribute (attribute propertyConfig) s]
  | Throw e => Throw e
  end.

(** The body of the first [tap]: every exported handler whose name is a
    key of the configuration, in the order [notify], [reflect]. The calls
    made on the host, and the exception that ended them if there was one. *)
Definition run (propertyValue : value) (propertyConfig : ConfigObject)
  : list host_call * option error :=
  let first :=
    match Types.notify propertyConfig with
    | Some _ => notify propertyConfig
    | None => []
    end in
  match Types.reflect propertyConfig with
  | Some _ =>
      match reflect propertyValue propertyConfig with
      | Ok calls => (first ++ calls, None)
      | Throw e => (first, Some e)
      end
  | None => (first, None)
  end.

End WithRuntime.
End PropertyEffects.

(** The instance. [triggers] holds the current value of the
    [BehaviorSubject] of each observed property; [live] holds, oldest
    first, the subscriptions that were made and on which [unsubscribe] was
    not called yet, the ones that [subscriptions] lost track of included. *)
Record RxWC : Type := mkRxWC {
  triggers : list (string * value);
  isAttached : bool;
  streams : list stream;
  subscriptions : list (stream * nat);
  live : list subscription;
  next_id : nat
}.

Module Component.
Section WithClass.
Context {rt : Runtime}.

(** The class: [Object.entries] of the properties of its configuration,
    that is the entries that the object has of its own, in the order of
    [Object.keys], each with its fields as they read; and whether the
    [throttleTime] of the installed rxjs starts a new interval when it
    sends a trailing value (rxjs 7) or not (rxjs 6). *)
Variable props : list (string * ConfigObject).
Variable rearm : bool.

Definition observedAttributes : list string :=
  map Utils.toKebabCase (map fst props).

(** [trigger.getValue()] *)
Definition getValue (cells : list (string * value)) (name : string) : value :=
  match assoc_get String.eqb name cells with
  | Some v => v
  | None => VUndefined
  end.

Definition close (s : subscription) : subscription :=
  {| id := id s; source := source s; keys := keys s;
     throttled := false; trailingValue := None; closed := true |}.

(** [throttleTime(0, scheduler, { leading: true, trailing: true })]
    followed by the [tap] that calls the renderer with [this.template()],
    which can read every property. *)
Definition throttle_next (cells : list (string * value)) (x : item)
  (s : subscription) : subscription * list event :=
  if throttled s
  then ({| id := id s; source := source s; keys := keys s;
           throttled := true; trailingValue := Some x; closed := closed s |}, [])
  else ({| id := id s; source := source s; keys := keys s;
           throttled := true; trailingValue := trailingValue s;
           closed := closed s |}, [Rendered (id s) cells]).

(** [distinctUntilChanged()] on the stream of one property: does the
    value pass? *)
Definition distinct (s : subscription) (name : string) (v : value) : bool :=
  match assoc_get String.eqb name (keys s) with
  | Some key => negb (strict_equal key v)
  | None => true
  end.

Definition set_key (s : subscription) (name : string) (v : value)
  : subscription :=
  {| id := id s; source := source s;
     keys := assoc_set String.eqb name v (keys s);
     throttled := throttled s; trailingValue := trailingValue s;
     closed := closed s |}.

(** One value of the trigger of [name] going down the chain of one
    subscription: the property effects, [distinctUntilChanged], [map],
    [merge] and, in the stream of the renderer, what follows. An exception
    in an effect ends the whole chain and is reported by rxjs. *)
Definition deliver (cells : list (string * value)) (name : string) (v : value)
  (s : subscription) : subscription * list event :=
  match source s with
  | Foreign _ => (s, [])
  | _ =>
    if closed s then (s, []) else
    match assoc_get String.eqb name props with
    | None => (s, [])
    | Some propertyConfig =>
        let (calls, failure) := PropertyEffects.run v propertyConfig in
        let effects := map (Effect (id s)) calls in
        match failure with
        | Some e => (close s, effects ++ [Unhandled (id s) e])
        | None =>
            if distinct s name v then
              let s1 := set_key s name v in
              match source s with
              | RenderStream =>
                  let (s2, out) := throttle_next cells (Change name v) s1 in
                  (s2, effects ++ Changed (id s) name v :: out)
              | _ => (s1, effects ++ [Changed (id s) name v])
              end
            else (s, effects)
        end
    end
  end.

(** [merge(...)] subscribing to the stream of each property in turn: each
    [BehaviorSubject] sends its current value at once. *)
Fixpoint replay (cells : list (string * value)) (names : list string)
  (s : subscription) : subscription * list event :=
  match names with
  | [] => (s, [])
  | name :: rest =>
      let (s1, out1) := deliver cells name (getValue cells name) s in
      let (s2, out2) := replay cells rest s1 in
      (s2, out1 ++ out2)
  end.

(** [stream.subscribe()] *)
Definition subscribe_stream (cells : list (string * value)) (n : nat)
  (st : stream) : subscription * list event :=
  let fresh :=
    {| id := n; source := st; keys := []; throttled := false;
       trailingValue := None; closed := false |} in
  match st with
  | Foreign _ => (fresh, [])
  | PropertyChanged _ =>
      match props with
      | [] => (close fresh, [])
      | _ => replay cells (map fst props) fresh
      end
  | RenderStream =>
      match props with
      | [] =>
          (* [startWith(null)], then the empty [merge()] completes *)
          let (s1, out) := throttle_next cells Startup fresh in
          (close s1, out)
      | _ => replay cells (map fst props) fresh
      end
  end.

(** The scheduler runs the timer of a subscription: only the stream of
    the renderer has a [throttleTime] that sets one. *)
Definition clearThrottle (cells : list (string * value)) (s : subscription)
  : subscription * list event :=
  match source s with
  | RenderStream =>
      if closed s then (s, []) else
      if throttled s then
        match trailingValue s with
        | Some _ =>
            ({| id := id s; source := source s; keys := keys s;
                throttled := rearm; trailingValue := None; closed := closed s |},
             [Rendered (id s) cells])
        | None =>
            ({| id := id s; source := source s; keys := keys s;
                throttled := false; trailingValue := None; closed := closed s |},
             [])
        end
      else (s, [])
  | _ => (s, [])
  end.

(** Every subscription in turn, oldest first. *)
Fixpoint each (f : subscription -> subscription * list event)
  (l : list subscription) : list subscription * list event :=
  match l with
  | [] => ([], [])
  | s :: t =>
      let (s1, out1) := f s in
      let (t1, out2) := each f t in
      (s1 :: t1, out1 ++ out2)
  end.

Definition constructor : RxWC :=
  {| triggers := map (fun name => (name, VUndefined)) (map fst props);
     isAttached := false;
     streams := [RenderStream];
     subscriptions := [];
     live := [];
     next_id := 0 |}.

(** The setter of an observed property: [trigger.next(newValue)]. A name
    that is not observed has no trigger. *)
Definition set (name : string) (newValue : value) (this : RxWC)
  : RxWC * list event :=
  if assoc_has String.eqb name props then
    let cells := assoc_set String.eqb name newValue (triggers this) in
    let (subs, out) := each (deliver cells name newValue) (live this) in
    ({| triggers := cells; isAttached := isAttached this;
        streams := streams this; subscriptions := subscriptions this;
        live := subs; next_id := next_id this |}, out)
  else (this, []).

(** The scheduler runs what is due. *)
Definition tick (this : RxWC) : RxWC * list event :=
  let (subs, out) := each (clearThrottle (triggers this)) (live this) in
  ({| triggers := triggers this; isAttached := isAttached this;
      streams := streams this; subscriptions := subscriptions this;
      live := subs; next_id := next_id this |}, out).

(** [this['@subscriptions'].set(stream, stream.subscribe())] *)
Definition open_subscription (st : stream) (this : RxWC) : RxWC * list event :=
  let (s, out) := subscribe_stream (triggers this) (next_id this) st in
  ({| triggers := triggers this; isAttached := isAttached this;
      streams := streams this;
      subscriptions := assoc_set stream_eqb st (next_id this) (subscriptions this);
      live := live this ++ [s];
      next_id := S (next_id this) |}, out).

Fixpoint subscribe_each (l : list stream) (this : RxWC) : RxWC * list event :=
  match l with
  | [] => (this, [])
  | st :: rest =>
      let (this1, out1) := open_subscription st this in
      let (this2, out2) := subscribe_each rest this1 in
      (this2, out1 ++ out2)
  end.

Definition set_attached (b : bool) (this : RxWC) : RxWC :=
  {| triggers := triggers this; isAttached := b;
     streams := streams this; subscriptions := subscriptions this;
     live := live this; next_id := next_id this |}.

Definition connectedCallback (this : RxWC) : RxWC * list event :=
  let (this1, out) := subscribe_each (streams this) (set_attached true this) in
  (this1, out ++ [Signal Connected]).

(** [sub.unsubscribe()] *)
Definition drop (n : nat) (l : list subscription) : list subscription :=
  filter (fun s => negb (Nat.eqb (id s) n)) l.

Definition disconnectedCallback (this : RxWC) : RxWC * list event :=
  ({| triggers := triggers this; isAttached := false;
      streams := streams this;
      subscriptions := [];
      live := fold_left (fun l entry => drop (snd entry) l)
                (subscriptions this) (live this);
      next_id := next_id this |}, [Signal Disconnected]).

Fixpoint subscribe_missing (l : list stream) (this : RxWC) : RxWC * list event :=
  match l with
  | [] => (this, [])
  | st :: rest =>
      if assoc_has stream_eqb st (subscriptions this)
      then subscribe_missing rest this
      else
        let (this1, out1) := open_subscription st this in
        let (this2, out2) := subscribe_missing rest this1 in
        (this2, out1 ++ out2)
  end.

Definition add_streams (l : list stream) (this : RxWC) : RxWC :=
  {| triggers := triggers this; isAttached := isAttached this;
     streams := fold_left (fun acc st => set_add stream_eqb st acc) l (streams this);
     subscriptions := subscriptions this;
     live := live this; next_id := next_id this |}.

Definition subscribe (l : list stream) (this : RxWC) : RxWC * list event :=
  let this1 := add_streams l this in
  if isAttached this1 then subscribe_missing l this1 else (this1, []).

Definition close_subscription (st : stream) (this : RxWC) : RxWC :=
  match assoc_get stream_eqb st (subscriptions this) with
  | None => this
  | Some n =>
      {| triggers := triggers this; isAttached := isAttached this;
         streams := streams this;
         subscriptions := assoc_delete stream_eqb st (subscriptions this);
         live := drop n (live this);
         next_id := next_id this |}
  end.

Definition unsubscribe (l : list stream) (this : RxWC) : RxWC * list event :=
  let this1 :=
    {| triggers := triggers this; isAttached := isAttached this;
       streams := fold_left (fun acc st => set_delete stream_eqb st acc) l (streams this);
       subscriptions := subscriptions this;
       live := live this; next_id := next_id this |} in
  (fold_left (fun acc st => close_subscription st acc) l this1, []).

Definition attributeChangedCallback (attr oldValue newValue : string)
  (this : RxWC) : RxWC * list event :=
  if String.eqb oldValue newValue then (this, []) else
  let signal := Signal (AttributeChanged attr oldValue newValue) in
  let propertyName := Utils.toCamelCase attr in
  match assoc_get String.eqb propertyName props with
  | Some propertyConfig =>
      match Codec.deserialize newValue propertyConfig with
      | Throw e => (this, [signal; Thrown e])
      | Ok v =>
          let (this1, out) := set propertyName v this in
          (this1, signal :: out)
      end
  | None =>
      match Object_prototype propertyName with
      | Some member =>
          (* [properties[propertyName]] is what every object inherits
             under this name, and the element has no setter for it *)
          match Codec.deserialize newValue member with
          | Throw e => (this, [signal; Thrown e])
          | Ok v => (this, [signal; Assigned propertyName v])
          end
      | None =>
          (* [properties[propertyName]] is [undefined] and cannot be
             destructured *)
          (this, [signal; Thrown TypeError])
      end
  end.

(** ** Runs *)

Inductive action : Type :=
  | Attach
  | Detach
  | Register (l : list stream)
  | Unregister (l : list stream)
  | Write (name : string) (v : value)
  | AttributeChange (attr oldValue newValue : string)
  | Tick.

Definition step (a : action) (this : RxWC) : RxWC * list event :=
  match a with
  | Attach => connectedCallback this
  | Detach => disconnectedCallback this
  | Register l => subscribe l this
  | Unregister l => unsubscribe l this
  | Write name v => set name v this
  | AttributeChange attr o n => attributeChangedCallback attr o n this
  | Tick => tick this
  end.

Fixpoint run (l : list action) (this : RxWC) : RxWC * list event :=
  match l with
  | [] => (this, [])
  | a :: rest =>
      let (this1, out1) := step a this in
      let (this2, out2) := run rest this1 in
      (this2, out1 ++ out2)
  end.

End WithClass.
End Component.

(* ================================================================== *)
(** * Reading a run *)

(** The subscription in which an event happened. *)
Definition sub_of (e : event) : option nat :=
  match e with
  | Effect n _ | Changed n _ _ | Rendered n _ | Unhandled n _ => Some n
  | Signal _ | Thrown _ | Assigned _ _ => None
  end.

Definition from_sub (n : nat) (e : event) : bool :=
  match sub_of e with
  | Some m => Nat.eqb m n
  | None => false
  end.

(** The events of the change feed, after [distinctUntilChanged] and [map]. *)
Definition changes (out : list event) : list (string * value) :=
  flat_map (fun e => match e with Changed _ name v => [(name, v)] | _ => [] end) out.

Definition changed_in (n : nat) (out : list event) : list (string * value) :=
  changes (filter (from_sub n) out).

(** The calls of the renderer, with what [template()] could read. *)
Definition rendered (out : list event) : list (list (string * value)) :=
  flat_map (fun e => match e with Rendered _ t => [t] | _ => [] end) out.

(** The calls of the effect handlers on the host. *)
Definition effects (out : list event) : list (nat * host_call) :=
  flat_map (fun e => match e with Effect n c => [(n, c)] | _ => [] end) out.

Definition signals (out : list event) : list lifecycle :=
  flat_map (fun e => match e with Signal s => [s] | _ => [] end) out.

Definition lookup_sub (n : nat) (l : list subscription) : option subscription :=
  find (fun s => Nat.eqb (id s) n) l.

(** The subscriptions that the triggers send values to. *)
Definition receiving (s : subscription) : bool :=
  negb (closed s) &&
  match source s with Foreign _ => false | _ => true end.

(** Is some subscription of the stream live? *)
Definition has_live (this : RxWC) (st : stream) : bool :=
  existsb (fun s => stream_eqb (source s) st) (live this).

(** The number of live subscriptions of a stream. The operators of a
    stream run once in each of its subscriptions for every event, so this
    is also how often one event of the stream is executed. *)
Definition executions (this : RxWC) (st : stream) : nat :=
  List.length (filter (fun s => stream_eqb (source s) st) (live this)).

Definition render_sub (this : RxWC) : option subscription :=
  find (fun s => stream_eqb (source s) RenderStream) (live this).


(** ** Maximal runs *)

(** The maximal runs of consecutive values that are [===] to each other. *)
Fixpoint maximal_runs (l : list value) : list (list value) :=
  match l with
  | [] => []
  | x :: t =>
      match maximal_runs t with
      | (y :: r) :: rest =>
          if strict_equal x y then (x :: y :: r) :: rest
          else [x] :: (y :: r) :: rest
      | _ => [[x]]
      end
  end.

Definition first_of (r : list value) : value := hd VUndefined r.

(** [distinctUntilChanged] as a function on lists: what passes of [l]
    when [key] passed last. *)
Fixpoint distinct_after (key : value) (l : list value) : list value :=
  match l with
  | [] => []
  | x :: t =>
      if strict_equal key x then distinct_after key t
      else x :: distinct_after x t
  end.

(** ** Lawful runs and the invariant of the bookkeeping *)

(** The host attaches an element only when it is not attached. *)
Fixpoint lawful (attached : bool) (l : list Component.action) : bool :=
  match l with
  | [] => true
  | Component.Attach :: rest => negb attached && lawful true rest
  | Component.Detach :: rest => lawful false rest
  | _ :: rest => lawful attached rest
  end.

(** Writes and the passing of time. *)
Definition passive (a : Component.action) : bool :=
  match a with
  | Component.Write _ _ | Component.Tick
  | Component.AttributeChange _ _ _ => true
  | _ => false
  end.

Definition handle (s : subscription) : stream * nat := (source s, id s).

(** The map of subscriptions knows every live subscription, under its
    stream, and no stream or subscription twice. *)
Record accounted (this : RxWC) : Prop := mkAccounted {
  accounted_map : subscriptions this = map handle (live this);
  accounted_streams : NoDup (map fst (subscriptions this));
  accounted_fresh : NoDup (map snd (subscriptions this));
  accounted_ids : Forall (fun e => snd e < next_id this) (subscriptions this)
}.

(** While the instance is attached the map has the registered streams
    for keys, otherwise it is empty. *)
Record tracked (this : RxWC) : Prop := mkTracked {
  tracked_accounted : accounted this;
  tracked_set : NoDup (streams this);
  tracked_attached :
    if isAttached this
    then forall x, In x (streams this) <-> In x (map fst (subscriptions this))
    else subscriptions this = []
}.

(** No effect handler of the property throws on the value. *)
Definition safe {rt : Runtime} (c : ConfigObject) (v : value) : Prop :=
  snd (PropertyEffects.run v c) = None.

(** ** A runtime for the examples

    The theorems hold for every runtime. The examples need one: this one
    knows the JSON of [null], the booleans and the integers, takes every
    other text for malformed and every other value for one without JSON,
    and makes a URL of any text; the examples hand it nothing else, and
    no number that is not written as a plain integer. *)

Fixpoint digits_value (s : string) (acc : nat) : option nat :=
  match s with
  | EmptyString => Some acc
  | String c t =>
      if Utils.is_digit c
      then digits_value t (10 * acc + (nat_of_ascii c - 48))
      else None
  end.

Definition parse_integer (s : string) : option Z :=
  let unsigned (u : string) :=
    match u with
    | EmptyString => None
    | String c t =>
        if Ascii.eqb c "0"
        then match t with EmptyString => Some 0%Z | _ => None end
        else option_map Z.of_nat (digits_value u 0)
    end in
  match s with
  | String c t =>
      if Ascii.eqb c "-" then option_map Z.opp (unsigned t) else unsigned s
  | EmptyString => None
  end.

Definition sample_parse (s : string) : result value :=
  if String.eqb s "null" then Ok VNull
  else if String.eqb s "true" then Ok (VBoolean true)
  else if String.eqb s "false" then Ok (VBoolean false)
  else match parse_integer s with
       | Some z => Ok (VNumber (Num z))
       | None => Throw SyntaxError
       end.

Definition sample_stringify (v : value) : result value :=
  match v with
  | VNull => Ok (VString "null")
  | VBoolean true => Ok (VString "true")
  | VBoolean false => Ok (VString "false")
  | VNumber NaN | VNumber (Inf _) => Ok (VString "null")
  | VNumber (Num z) => Ok (VString (string_of_Z z))
  | _ => Ok VUndefined
  end.

(** The members that a plain object inherits when nothing was written
    to [Object.prototype], none of them with a converter. *)
Definition sample_inherited (name : string) : option ConfigObject :=
  if existsb (String.eqb name) ("__proto__" :: Decorators.Object_prototype_names)
  then Some empty_config else None.

Definition sample_runtime : Runtime :=
  {| JSON_parse := sample_parse;
     JSON_stringify := sample_stringify;
     URL_new := fun s =>
       Ok (VObject {| ref := 0; toStringSlot := SlotFunction s; href := Some s |});
     Number_toString := fun _ => "1e+21";
     Object_prototype := sample_inherited |}.

(** The configuration that [@observe()] leaves for a property [prop]. *)
Definition observed (name : string) : string * ConfigObject :=
  (name, {| converter := Some JSON; attribute := Some (Utils.toKebabCase name);
            notify := None; reflect := None |}).

(** ** Steps of one subscription *)

(** A step of a subscription keeps its identity and its stream, and what
    it lets the outside see happens in that subscription. *)
Definition local (g : subscription -> subscription * list event) : Prop :=
  forall s,
    id (fst (g s)) = id s /\
    source (fst (g s)) = source s /\
    Forall (fun e => sub_of e = Some (id s)) (snd (g s)).

(** A subscription that the trigger of [name] sends values to and whose
    [distinctUntilChanged] for [name] let [key] pass last. *)
Definition listening (s : subscription) (name : string) (key : value) : Prop :=
  receiving s = true /\ assoc_get String.eqb name (keys s) = Some key.

(** ** The examples *)

Definition one : value := VNumber (Num 1).
Definition two : value := VNumber (Num 2).

(** A class with the single property [prop], declared with [@observe()],
    and a fresh instance of it. *)
Definition sample_props : list (string * ConfigObject) := [observed "prop"].

Definition sample_instance : RxWC := Component.constructor sample_props.

Definition sample_run (l : list Component.action) (this : RxWC)
  : RxWC * list event :=
  Component.run (rt := sample_runtime) sample_props false l this.

(** The instance after the host attached it. *)
Definition sample_attached : RxWC :=
  fst (sample_run [Component.Attach] sample_instance).

(** A class whose property [prop] carries [@notify() @observe()]. *)
Definition notifying_props : list (string * ConfigObject) :=
  [("prop", {| converter := Some JSON; attribute := Some "prop";
               notify := Some "prop-changed"; reflect := None |})].

(** ** The renderer *)

Definition is_render (s : subscription) : bool :=
  stream_eqb (source s) RenderStream.

(** No effect handler throws on the value that a property holds. *)
Definition seeds_safe {rt : Runtime} (props : list (string * ConfigObject))
  (cells : list (string * value)) : Prop :=
  forall name c, In (name, c) props ->
    safe c (Component.getValue cells name).

(** A class whose property [prop] has a converter of its own, which
    takes no text at all. *)
Definition strict_props : list (string * ConfigObject) :=
  [("prop", {| converter := Some (Custom (fun _ => Throw SyntaxError));
               attribute := Some "prop"; notify := None; reflect := None |})].

(** ** Shapes of names *)

(** No hyphen and no underscore anywhere in the string. *)
Fixpoint plain (s : string) : bool :=
  match s with
  | EmptyString => true
  | String c t => negb (Utils.is_separator c) && plain t
  end.

(** Letters and digits only, as in a camel-cased name. *)
Fixpoint alphanumeric (s : string) : bool :=
  match s with
  | EmptyString => true
  | String c t =>
      (Utils.is_upper c || Utils.is_lower c || Utils.is_digit c) && alphanumeric t
  end.

Fixpoint no_underscore (s : string) : bool :=
  match s with
  | EmptyString => true
  | String c t => negb (Ascii.eqb c "_") && no_underscore t
  end.

(** ** Runs of decorators *)

Inductive decoration : Type :=
  | Observe (attribute : option string)
  | ToggleAttr
  | WithConverter (conv : Converter)
  | Notify (eventName : option string)
  | Reflect.

Definition decorator_of (d : decoration) : Decorators.PropertyDecorator :=
  match d with
  | Observe a => Decorators.observe a
  | ToggleAttr => Decorators.toggleAttr
  | WithConverter c => Decorators.withConverter c
  | Notify n => Decorators.notify n
  | Reflect => Decorators.reflect
  end.

(** The decorators of a class body applied one after the other; one that
    throws ends the definition of the class. *)
Fixpoint decorate (l : list (decoration * Decorators.PropertyKey))
  (prototype : Decorators.Prototype) : Decorators.Prototype * option error :=
  match l with
  | [] => (prototype, None)
  | (d, k) :: rest =>
      match decorator_of d prototype k with
      | (prototype1, None) => decorate rest prototype1
      | (prototype1, Some e) => (prototype1, Some e)
      end
  end.

Definition is_symbol (k : Decorators.PropertyKey) : bool :=
  match k with Decorators.KSymbol _ => true | Decorators.KString _ => false end.

(** ** Further readings of the code *)

(** No capital letter anywhere in the string. *)
Fixpoint no_upper (s : string) : bool :=
  match s with
  | EmptyString => true
  | String c t => negb (Utils.is_upper c) && no_upper t
  end.

(** The entry of a key as [getPropertyConfig] hands it out when the key
    inherits nothing: the entry that there is, or the empty object that
    it creates. *)
Definition current (prototype : Decorators.Prototype)
  (k : Decorators.PropertyKey) : ConfigObject :=
  match Decorators.own k (Decorators.entries prototype) with
  | Some c => c
  | None => empty_config
  end.

(** The assignments that a decorator makes to the configuration object
    [c] of the property [name], [base] being the fields that the object
    inherits from [Object.prototype]. *)
Definition configure (d : decoration) (name : string) (base c : ConfigObject)
  : ConfigObject :=
  match d with
  | Observe a =>
      {| converter := match converter c, converter base with
                      | None, None => Some JSON
                      | x, _ => x
                      end;
         attribute := if Decorators.missing a
                      then Some (Utils.toKebabCase name) else a;
         notify := notify c;
         reflect := reflect c |}
  | ToggleAttr =>
      {| converter := Some Boolean; attribute := attribute c;
         notify := notify c; reflect := reflect c |}
  | WithConverter conv =>
      {| converter := Some conv; attribute := attribute c;
         notify := notify c; reflect := reflect c |}
  | Notify e =>
      {| converter := converter c; attribute := attribute c;
         notify := if Decorators.missing e
                   then Some (String.append (Utils.toKebabCase name) "-changed")
                   else e;
         reflect := reflect c |}
  | Reflect =>
      {| converter := converter c; attribute := attribute c;
         notify := notify c; reflect := Some true |}
  end.

Definition is_observe (d : decoration) : bool :=
  match d with Observe _ => true | _ => false end.

(** The decorators of a class body whose properties all have string
    names. *)
Definition string_keyed (l : list (decoration * string))
  : list (decoration * Decorators.PropertyKey) :=
  map (fun e => (fst e, Decorators.KString (snd e))) l.

(** The key is an entry of the properties, or becomes one: the object
    has an entry for the name of its own, or inherits nothing under it. *)
Definition ordinary (p : Decorators.Prototype) (name : string) : bool :=
  match Decorators.resolve p (Decorators.KString name) with
  | Some Decorators.Entry | None => true
  | Some _ => false
  end.

(** A name that is no array index and under which an object inherits
    nothing as long as nothing was written to [Object.prototype]. *)
Definition regular (name : string) : bool :=
  match Decorators.array_index name,
        Decorators.inherited Decorators.pristine name with
  | None, None => true
  | _, _ => false
  end.

(** The fields that have been written to the member [name] of
    [Object.prototype]. *)
Definition member_fields (p : Decorators.Prototype) (name : string)
  : ConfigObject :=
  match assoc_get String.eqb name
          (Decorators.members (Decorators.realm p)) with
  | Some c => c
  | None => empty_config
  end.

(** The lifecycle signal that an action emits. *)
Definition signal_of (a : Component.action) : list lifecycle :=
  match a with
  | Component.Attach => [Connected]
  | Component.Detach => [Disconnected]
  | Component.AttributeChange attr o n =>
      if String.eqb o n then [] else [AttributeChanged attr o n]
  | _ => []
  end.

(** Writes, by the setter or by an attribute change. *)
Definition is_write (a : Component.action) : bool :=
  match a with
  | Component.Write _ _ | Component.AttributeChange _ _ _ => true
  | _ => false
  end.

(** The timer of the subscription runs, or its chain has ended. *)
Definition quiet (s : subscription) : bool := throttled s || closed s.

(** An object without [toString], as [Object.create(null)] makes one. *)
Definition bare : value :=
  VObject {| ref := 0; toStringSlot := SlotFalsy; href := None |}.

(** A class whose property [prop] carries [@reflect()] and a converter of
    its own, which takes every text as it is. *)
Definition reflecting_props : list (string * ConfigObject) :=
  [("prop", {| converter := Some (Custom (fun s => Ok (VString s)));
               attribute := Some "prop"; notify := None;
               reflect := Some true |})].

(** A class whose property [link] carries
    [@reflect() @withConverter(URL) @observe()]. *)
Definition link_props : list (string * ConfigObject) :=
  [("link", {| converter := Some URL; attribute := Some "link";
               notify := None; reflect := Some true |})].

(** A class with two observed properties. *)
Definition pair_props : list (string * ConfigObject) :=
  [observed "first"; observed "second"].

(* ================================================================== *)
(** * Names: from property to attribute and back *)

Module NameFacts.
Import Utils.

Lemma upper_lower (c : ascii) :
  is_upper c = true ->
  toUpperCase (toLowerCase c) = c /\ is_word (toLowerCase c) = true.
Proof.
  destruct c as [b0 b1 b2 b3 b4 b5 b6 b7].
  destruct b0, b1, b2, b3, b4, b5, b6, b7;
    intro H; try discriminate H; split; reflexivity.
Qed.

Lemma lower_digit_not_separator (c : ascii) :
  (is_lower c || is_digit c) = true -> is_separator c = false.
Proof.
  destruct c as [b0 b1 b2 b3 b4 b5 b6 b7].
  destruct b0, b1, b2, b3, b4, b5, b6, b7;
    intro H; try discriminate H; reflexivity.
Qed.

Lemma alphanumeric_not_separator (c : ascii) :
  (is_upper c || is_lower c || is_digit c) = true -> is_separator c = false.
Proof.
  destruct c as [b0 b1 b2 b3 b4 b5 b6 b7].
  destruct b0, b1, b2, b3, b4, b5, b6, b7;
    intro H; try discriminate H; reflexivity.
Qed.

Lemma alphanumeric_plain (s : string) : alphanumeric s = true -> plain s = true.
Proof.
  induction s as [|c t IH]; simpl; [reflexivity|].
  intro H. apply andb_prop in H. destruct H as [Hc Ht].
  rewrite (alphanumeric_not_separator c Hc). simpl. auto.
Qed.

Lemma separator_underscore (c : ascii) :
  is_separator c = false -> Ascii.eqb c "_" = false.
Proof.
  unfold is_separator. intro H. apply orb_false_elim in H. tauto.
Qed.

(** A hyphen is no underscore, so the second replacement of
    [toKebabCase] finds nothing in a string without underscores. *)
Lemma replace_underscores_none (s : string) :
  no_underscore s = true -> replace_underscores s = s.
Proof.
  enough (H : forall t, (no_underscore t = true -> replace_underscores t = t) /\
                        (forall a, no_underscore (String a t) = true ->
                                   replace_underscores (String a t) = String a t))
    by apply H.
  induction t as [|u t IH].
  - split; [reflexivity|]. intros a _. reflexivity.
  - destruct IH as [IH1 IH2]. split.
    + apply IH2.
    + intros a H. simpl in H.
      apply andb_prop in H. destruct H as [_ H].
      apply andb_prop in H. destruct H as [Hu Ht].
      apply negb_true_iff in Hu.
      cbn [replace_underscores].
      destruct t as [|b t'].
      * reflexivity.
      * rewrite Hu, andb_false_r. cbn [andb].
        f_equal. apply IH2. simpl. rewrite Hu. exact Ht.
Qed.

Lemma humps_cons (a b : ascii) (t : string) :
  replace_camel_humps (String a (String b t)) =
  if (is_lower a || is_digit a) && is_upper b
  then String a (String "-" (String (toLowerCase b) (replace_camel_humps t)))
  else String a (replace_camel_humps (String b t)).
Proof. reflexivity. Qed.

Lemma humps_head (b : ascii) (t : string) :
  exists r, replace_camel_humps (String b t) = String b r.
Proof.
  destruct t as [|c t]; [eexists; reflexivity|].
  rewrite humps_cons. destruct (_ && _); eexists; reflexivity.
Qed.

Lemma camel_cons (s c : ascii) (t : string) :
  toCamelCase (String s (String c t)) =
  if is_separator s && is_word c
  then String (toUpperCase c) (toCamelCase t)
  else String s (toCamelCase (String c t)).
Proof. reflexivity. Qed.

Lemma humps_no_underscore (s : string) :
  plain s = true -> no_underscore (replace_camel_humps s) = true.
Proof.
  enough (H : forall t, (plain t = true -> no_underscore (replace_camel_humps t) = true) /\
                        (forall a, plain (String a t) = true ->
                                   no_underscore (replace_camel_humps (String a t)) = true))
    by apply H.
  induction t as [|b t IH].
  - split; [reflexivity|]. intros a H. simpl in *.
    rewrite andb_true_r in *. apply negb_true_iff in H.
    rewrite (separator_underscore a H). reflexivity.
  - destruct IH as [IH1 IH2]. split; [apply IH2|].
    intros a H. cbn [plain] in H.
    apply andb_prop in H. destruct H as [Ha H].
    apply andb_prop in H. destruct H as [Hb Ht].
    apply negb_true_iff in Ha. apply negb_true_iff in Hb.
    rewrite humps_cons.
    destruct ((is_lower a || is_digit a) && is_upper b) eqn:E.
    + apply andb_prop in E. destruct E as [_ Eb].
      assert (Hl : Ascii.eqb (toLowerCase b) "_" = false).
      { destruct b as [b0 b1 b2 b3 b4 b5 b6 b7].
        destruct b0, b1, b2, b3, b4, b5, b6, b7; try discriminate Eb; reflexivity. }
      cbn [no_underscore]. rewrite (separator_underscore a Ha), Hl.
      replace (Ascii.eqb "-" "_") with false by reflexivity. cbn [negb andb].
      apply IH1. exact Ht.
    + cbn [no_underscore]. rewrite (separator_underscore a Ha). cbn [negb andb].
      apply IH2. cbn [plain]. rewrite Hb. exact Ht.
Qed.

Lemma camel_of_humps (s : string) :
  plain s = true -> toCamelCase (replace_camel_humps s) = s.
Proof.
  enough (H : forall t, (plain t = true -> toCamelCase (replace_camel_humps t) = t) /\
                        (forall a, plain (String a t) = true ->
                                   toCamelCase (replace_camel_humps (String a t)) = String a t))
    by apply H.
  induction t as [|b t IH].
  - split; [reflexivity|]. intros a _. reflexivity.
  - destruct IH as [IH1 IH2]. split; [apply IH2|].
    intros a H. cbn [plain] in H.
    apply andb_prop in H. destruct H as [Ha H].
    apply andb_prop in H. destruct H as [Hb Ht].
    apply negb_true_iff in Ha. apply negb_true_iff in Hb.
    rewrite humps_cons.
    destruct ((is_lower a || is_digit a) && is_upper b) eqn:E.
    + apply andb_prop in E. destruct E as [_ Eb].
      destruct (upper_lower b Eb) as [Hu Hw].
      rewrite camel_cons, Ha. cbn [andb].
      rewrite camel_cons, Hw.
      replace (is_separator "-") with true by reflexivity. cbn [andb].
      rewrite Hu, IH1 by exact Ht. reflexivity.
    + assert (Hrec : toCamelCase (replace_camel_humps (String b t)) = String b t).
      { apply IH2. cbn [plain]. rewrite Hb. exact Ht. }
      destruct (humps_head b t) as [r Er]. rewrite Er in *.
      rewrite camel_cons, Ha. cbn [andb]. rewrite Hrec. reflexivity.
Qed.

Lemma roundtrip_plain (s : string) :
  plain s = true -> toCamelCase (toKebabCase s) = s.
Proof.
  intro H. unfold toKebabCase.
  rewrite replace_underscores_none by (apply humps_no_underscore; exact H).
  apply camel_of_humps. exact H.
Qed.

End NameFacts.

(* ================================================================== *)
(** * The configuration store rejects symbols *)

Module DecoratorFacts.
Import Decorators.

Lemma replace_symbols (k : PropertyKey) (c : ConfigObject)
  (l : list (PropertyKey * ConfigObject)) :
  existsb (fun e => is_symbol (fst e)) (replace k c l) =
  existsb (fun e => is_symbol (fst e)) l.
Proof.
  induction l as [|[k' c'] t IH]; simpl; [reflexivity|].
  destruct (key_eqb k k'); simpl; [reflexivity|]. rewrite IH. reflexivity.
Qed.

Lemma insert_symbols (n : N) (k : PropertyKey) (c : ConfigObject)
  (l : list (PropertyKey * ConfigObject)) :
  is_symbol k = false ->
  existsb (fun e => is_symbol (fst e)) (insert n k c l) =
  existsb (fun e => is_symbol (fst e)) l.
Proof.
  intro Hk. induction l as [|[k' c'] t IH]; simpl.
  - rewrite Hk. reflexivity.
  - destruct (index_of k') as [m|]; [destruct (N.ltb m n)|]; simpl;
      rewrite ?Hk, ?IH; reflexivity.
Qed.

Lemma assign_symbols (k : PropertyKey) (c : ConfigObject)
  (l : list (PropertyKey * ConfigObject)) :
  is_symbol k = false ->
  existsb (fun e => is_symbol (fst e)) l = false ->
  existsb (fun e => is_symbol (fst e)) (assign k c l) = false.
Proof.
  intros Hk H. unfold assign. destruct (own k l).
  - rewrite replace_symbols. exact H.
  - destruct (index_of k).
    + rewrite insert_symbols by exact Hk. exact H.
    + rewrite existsb_app, H. simpl. rewrite Hk. reflexivity.
Qed.

Lemma entries_getPropertyConfig (p : Prototype) (k : PropertyKey) :
  is_symbol k = false ->
  existsb (fun e => is_symbol (fst e)) (entries p) = false ->
  existsb (fun e => is_symbol (fst e))
    (entries (fst (getPropertyConfig p k))) = false.
Proof.
  intros Hk H. unfold getPropertyConfig.
  destruct (resolve p k); simpl; [exact H|].
  apply assign_symbols; assumption.
Qed.

Lemma entries_write (p : Prototype) (k : PropertyKey) (r : reference)
  (c : ConfigObject) :
  is_symbol k = false ->
  existsb (fun e => is_symbol (fst e)) (entries p) = false ->
  existsb (fun e => is_symbol (fst e)) (entries (fst (write p k r c))) = false.
Proof.
  intros Hk H. destruct r; simpl; try exact H.
  apply assign_symbols; assumption.
Qed.

Lemma decorator_symbols (d : decoration) (p : Prototype) (k : PropertyKey) :
  existsb (fun e => is_symbol (fst e)) (entries p) = false ->
  existsb (fun e => is_symbol (fst e)) (entries (fst (decorator_of d p k))) = false.
Proof.
  intro H. destruct k as [name|n].
  - pose proof (entries_getPropertyConfig p (KString name) eq_refl H) as G.
    destruct d; simpl; unfold observe, toggleAttr, withConverter, notify, reflect;
      destruct (getPropertyConfig p (KString name)) as [p1 r]; cbn [fst] in G;
      apply entries_write; auto.
  - destruct d; exact H.
Qed.

Lemma decorate_symbols (l : list (decoration * PropertyKey)) (p : Prototype) :
  existsb (fun e => is_symbol (fst e)) (entries p) = false ->
  existsb (fun e => is_symbol (fst e)) (entries (fst (decorate l p))) = false.
Proof.
  revert p. induction l as [|[d k] rest IH]; intros p H; simpl; [exact H|].
  pose proof (decorator_symbols d p k H) as G.
  destruct (decorator_of d p k) as [p1 [e|]]; simpl in *; auto.
Qed.

(** C9: every configuration operation throws at once on a symbol and
    leaves the store exactly as it found it; and whatever decorators a
    class body runs, starting from a prototype without configuration, no
    entry with a symbol for key ever exists. *)
Theorem symbol_rejected (prototype : Prototype) (n : nat) :
  (forall d : decoration,
     decorator_of d prototype (KSymbol n) = (prototype, Some TypeError)) /\
  (forall a, observe a prototype (KSymbol n) = (prototype, Some TypeError)) /\
  toggleAttr prototype (KSymbol n) = (prototype, Some TypeError) /\
  (forall c, withConverter c prototype (KSymbol n) = (prototype, Some TypeError)) /\
  (forall e, notify e prototype (KSymbol n) = (prototype, Some TypeError)) /\
  reflect prototype (KSymbol n) = (prototype, Some TypeError) /\
  (forall l : list (decoration * PropertyKey),
     existsb (fun e => is_symbol (fst e))
       (entries (fst (decorate l (mkPrototype None)))) = false).
Proof.
  repeat split; try reflexivity.
  - intros []; reflexivity.
  - intro l. apply decorate_symbols. reflexivity.
Qed.

End DecoratorFacts.

(* ================================================================== *)
(** * The attribute codec *)

Module CodecFacts.
Import Codec.

Section WithRuntime.
Context {rt : Runtime}.




(** The string forms of the falsy values. *)
Lemma serialize_falsy_forms :
  serialize VNull empty_config = Ok (VString "null") /\
  serialize VUndefined empty_config = Ok (VString "undefined") /\
  serialize (VBoolean false) empty_config = Ok (VString "false") /\
  serialize (VNumber (Num 0)) empty_config = Ok (VString "0") /\
  serialize (VNumber NaN) empty_config = Ok (VString "NaN") /\
  serialize (VString EmptyString) empty_config = Ok (VString EmptyString).
Proof. repeat split. Qed.

End WithRuntime.



End CodecFacts.

(* ================================================================== *)
(** * The instance: subscriptions one by one *)

Module SubscriptionFacts.
Import Component.

Section WithClass.
Context {rt : Runtime}.
Variable props : list (string * ConfigObject).
Variable rearm : bool.

Lemma Forall_effects (n : nat) (calls : list host_call) :
  Forall (fun e => sub_of e = Some n) (map (Effect n) calls).
Proof. induction calls; simpl; constructor; auto. Qed.

Lemma throttle_next_local (cells : list (string * value)) (x : item) :
  local (throttle_next cells x).
Proof.
  intro s. unfold throttle_next. destruct (throttled s); simpl; repeat split; auto.
Qed.

Lemma deliver_local (cells : list (string * value)) (name : string) (v : value) :
  local (deliver props cells name v).
Proof.
  intros [n src ks th tr cl]. unfold deliver, distinct, throttle_next, set_key, close.
  cbn [id source keys throttled trailingValue closed].
  destruct src; cbn [fst snd]; auto;
    (destruct cl; cbn [fst snd]; auto;
     destruct (assoc_get String.eqb name props) as [c|]; cbn [fst snd]; auto;
     destruct (PropertyEffects.run v c) as [calls [e|]]; cbn [fst snd];
     [ repeat split; auto; apply Forall_app; split;
       [apply Forall_effects|repeat constructor]
     | destruct (match assoc_get String.eqb name ks with
                 | Some key => negb (strict_equal key v)
                 | None => true
                 end);
       [| cbn [fst snd]; repeat split; auto; apply Forall_effects] ]).
  - destruct th; cbn [fst snd id source]; repeat split; auto;
      apply Forall_app; split; try apply Forall_effects; repeat constructor.
  - cbn [fst snd id source]. repeat split; auto.
    apply Forall_app; split; [apply Forall_effects|repeat constructor].
Qed.

Lemma clearThrottle_local (cells : list (string * value)) :
  local (clearThrottle rearm cells).
Proof.
  intros [n src ks th tr cl]. unfold clearThrottle.
  cbn [id source keys throttled trailingValue closed].
  destruct src; cbn [fst snd]; auto.
  destruct cl; cbn [fst snd]; auto.
  destruct th; cbn [fst snd]; auto.
  destruct tr; cbn [fst snd id source]; repeat split; auto.
Qed.

(** ** Every subscription in turn *)

Section Each.
Variable g : subscription -> subscription * list event.
Hypothesis g_local : local g.

Lemma each_handles (l : list subscription) :
  map handle (fst (each g l)) = map handle l.
Proof.
  induction l as [|s t IH]; simpl; [reflexivity|].
  destruct (g_local s) as (H1 & H2 & _).
  destruct (g s) as [s1 out1]. destruct (each g t) as [t1 out2].
  simpl in *. unfold handle at 1 3. rewrite H1, H2. f_equal. exact IH.
Qed.

Lemma each_ids (l : list subscription) :
  map id (fst (each g l)) = map id l.
Proof.
  pose proof (each_handles l) as H.
  apply (f_equal (map snd)) in H. rewrite !map_map in H. exact H.
Qed.

Lemma each_sources (l : list subscription) :
  map source (fst (each g l)) = map source l.
Proof.
  pose proof (each_handles l) as H.
  apply (f_equal (map fst)) in H. rewrite !map_map in H. exact H.
Qed.

Lemma each_lookup (n : nat) (l : list subscription) :
  lookup_sub n (fst (each g l)) =
  option_map (fun s => fst (g s)) (lookup_sub n l).
Proof.
  induction l as [|s t IH]; simpl; [reflexivity|].
  destruct (g_local s) as (H1 & _).
  destruct (g s) as [s1 out1] eqn:E. destruct (each g t) as [t1 out2].
  simpl in *. unfold lookup_sub in *. simpl. rewrite H1.
  destruct (Nat.eqb (id s) n); simpl; [rewrite E; reflexivity|exact IH].
Qed.

Lemma filter_own (n : nat) (out : list event) :
  Forall (fun e => sub_of e = Some n) out -> filter (from_sub n) out = out.
Proof.
  induction 1 as [|e t He Ht IH]; simpl; [reflexivity|].
  unfold from_sub. rewrite He, Nat.eqb_refl. f_equal. exact IH.
Qed.

Lemma filter_foreign (n m : nat) (out : list event) :
  m <> n ->
  Forall (fun e => sub_of e = Some m) out -> filter (from_sub n) out = [].
Proof.
  intros Hne. induction 1 as [|e t He Ht IH]; simpl; [reflexivity|].
  unfold from_sub. rewrite He.
  destruct (Nat.eqb_spec m n); [contradiction|exact IH].
Qed.

Lemma each_absent (n : nat) (l : list subscription) :
  ~ In n (map id l) -> filter (from_sub n) (snd (each g l)) = [].
Proof.
  induction l as [|s t IH]; simpl; [reflexivity|].
  intro H. destruct (g_local s) as (_ & _ & H3).
  destruct (g s) as [s1 out1]. destruct (each g t) as [t1 out2].
  simpl in *. rewrite filter_app.
  rewrite (filter_foreign (n := n) (m := id s)); auto.
Qed.

(** What a subscription lets the outside see, picked out of what all of
    them do. *)
Lemma each_only (n : nat) (l : list subscription) (s : subscription) :
  NoDup (map id l) -> lookup_sub n l = Some s ->
  filter (from_sub n) (snd (each g l)) = snd (g s).
Proof.
  induction l as [|s0 t IH]; simpl; [discriminate|].
  intros Hnd Hs. inversion Hnd as [|? ? Hnot Hnd']; subst.
  pose proof (each_absent n t) as Habs.
  destruct (g_local s0) as (_ & _ & H3).
  destruct (g s0) as [s1 out1] eqn:E. destruct (each g t) as [t1 out2].
  simpl in *. rewrite filter_app.
  unfold lookup_sub in Hs. simpl in Hs.
  destruct (Nat.eqb_spec (id s0) n) as [Heq|Hne].
  - injection Hs as <-. subst n. rewrite E. simpl.
    rewrite (filter_own H3), Habs by exact Hnot. apply app_nil_r.
  - rewrite (filter_foreign Hne H3). simpl. apply IH; assumption.
Qed.

End Each.

End WithClass.
End SubscriptionFacts.

(* ================================================================== *)
(** * The change feed *)

Module FeedFacts.
Import Component SubscriptionFacts.

(** ** Strict equality and runs *)

Lemma number_eqb_congr (a b c : number) :
  number_eqb a b = true -> number_eqb a c = number_eqb b c.
Proof.
  destruct a as [|x|x|h k], b as [|y|y|h' k']; simpl; try discriminate;
    intro H.
  - apply Z.eqb_eq in H. subst. reflexivity.
  - apply Bool.eqb_prop in H. subst. reflexivity.
  - apply andb_prop in H. destruct H as [H1 H2].
    apply Z.eqb_eq in H1. apply Pos.eqb_eq in H2. subst. reflexivity.
Qed.

Lemma strict_equal_congr (a b c : value) :
  strict_equal a b = true -> strict_equal a c = strict_equal b c.
Proof.
  destruct a, b; simpl; try discriminate; intro H; destruct c; simpl; auto.
  - apply Bool.eqb_prop in H. subst. reflexivity.
  - apply number_eqb_congr. exact H.
  - apply String.eqb_eq in H. subst. reflexivity.
  - apply Nat.eqb_eq in H. rewrite H. reflexivity.
Qed.

Lemma distinct_after_congr (a b : value) (l : list value) :
  strict_equal a b = true -> distinct_after a l = distinct_after b l.
Proof.
  intro H. destruct l as [|x t]; simpl; [reflexivity|].
  rewrite (strict_equal_congr a b x H).
  destruct (strict_equal b x); [|reflexivity].
  revert a b H. induction t as [|y t IH]; intros a b H; simpl; [reflexivity|].
  rewrite (strict_equal_congr a b y H).
  destruct (strict_equal b y); [apply IH; exact H|reflexivity].
Qed.

Lemma maximal_runs_head (x : value) (t : list value) :
  exists r rest, maximal_runs (x :: t) = (x :: r) :: rest.
Proof.
  simpl. destruct (maximal_runs t) as [|[|y r] rest]; eauto.
  destruct (strict_equal x y); eauto.
Qed.

(** The runs cut the sequence into pieces. *)
Lemma maximal_runs_concat (l : list value) : List.concat (maximal_runs l) = l.
Proof.
  induction l as [|x t IH]; [reflexivity|].
  destruct t as [|y t']; [reflexivity|].
  destruct (maximal_runs_head y t') as (r & rest & E).
  change (maximal_runs (x :: y :: t')) with
    (match maximal_runs (y :: t') with
     | (z :: r) :: rest =>
         if strict_equal x z then (x :: z :: r) :: rest
         else [x] :: (z :: r) :: rest
     | _ => [[x]]
     end).
  rewrite E in *. destruct (strict_equal x y); simpl in *; f_equal; exact IH.
Qed.

(** [distinctUntilChanged] lets the first value of every run pass. *)
Lemma distinct_after_runs (key : value) (l : list value) :
  key :: distinct_after key l = map first_of (maximal_runs (key :: l)).
Proof.
  revert key. induction l as [|x t IH]; intro key; [reflexivity|].
  specialize (IH x).
  destruct (maximal_runs_head x t) as (r & rest & E).
  change (maximal_runs (key :: x :: t)) with
    (match maximal_runs (x :: t) with
     | (y :: r) :: rest =>
         if strict_equal key y then (key :: y :: r) :: rest
         else [key] :: (y :: r) :: rest
     | _ => [[key]]
     end).
  rewrite E in *. cbn [distinct_after]. cbn [map first_of hd] in IH.
  injection IH as IH.
  destruct (strict_equal key x) eqn:Ek; cbn [map first_of hd].
  - f_equal. rewrite (distinct_after_congr key x t Ek). exact IH.
  - f_equal. f_equal. exact IH.
Qed.

Section WithClass.
Context {rt : Runtime}.
Variable props : list (string * ConfigObject).
Variable rearm : bool.

Lemma assoc_get_set (A : Type) (name : string) (v : A) (l : list (string * A)) :
  assoc_get String.eqb name (assoc_set String.eqb name v l) = Some v.
Proof.
  induction l as [|[k w] t IH]; simpl.
  - rewrite String.eqb_refl. reflexivity.
  - destruct (String.eqb name k) eqn:E; simpl; rewrite E; auto.
Qed.

Lemma changes_app (a b : list event) : changes (a ++ b) = changes a ++ changes b.
Proof. unfold changes. apply flat_map_app. Qed.

Lemma changes_effects (n : nat) (calls : list host_call) :
  changes (map (Effect n) calls) = [].
Proof. induction calls; simpl; auto. Qed.

Lemma changes_throttle (cells : list (string * value)) (x : item) (s : subscription) :
  changes (snd (throttle_next cells x s)) = [].
Proof. unfold throttle_next. destruct (throttled s); reflexivity. Qed.

Lemma receiving_throttle (cells : list (string * value)) (x : item) (s : subscription) :
  receiving (fst (throttle_next cells x s)) = receiving s /\
  keys (fst (throttle_next cells x s)) = keys s.
Proof. unfold throttle_next. destruct (throttled s); split; reflexivity. Qed.

(** One value going down the chain of a subscription that listens. *)
Lemma deliver_listening (cells : list (string * value)) (name : string)
  (c : ConfigObject) (key v : value) (s : subscription) :
  listening s name key ->
  assoc_get String.eqb name props = Some c ->
  safe c v ->
  changes (snd (deliver props cells name v s)) =
    map (pair name) (distinct_after key [v]) /\
  listening (fst (deliver props cells name v s)) name
    (if strict_equal key v then key else v).
Proof.
  intros [Hr Hk] Hc Hsafe. unfold safe in Hsafe.
  unfold receiving in Hr. apply andb_prop in Hr. destruct Hr as [Hcl Hsrc].
  apply negb_true_iff in Hcl.
  unfold deliver. rewrite Hcl, Hc.
  destruct (PropertyEffects.run v c) as [calls failure]. simpl in Hsafe. subst failure.
  unfold distinct. rewrite Hk. cbn [distinct_after].
  destruct (source s) eqn:Es; try discriminate Hsrc;
    destruct (strict_equal key v) eqn:Ek; cbn [negb fst snd map].
  - rewrite changes_effects. split; [reflexivity|].
    split; [|exact Hk]. unfold receiving. rewrite Hcl, Es. reflexivity.
  - pose proof (changes_throttle cells (Change name v) (set_key s name v)) as Ht.
    pose proof (receiving_throttle cells (Change name v) (set_key s name v)) as [Hr2 Hk2].
    destruct (throttle_next cells (Change name v) (set_key s name v)) as [s2 out].
    cbn [fst snd] in *. rewrite changes_app, changes_effects. cbn [app].
    change (changes (Changed (id s) name v :: out)) with ((name, v) :: changes out).
    rewrite Ht. split; [reflexivity|]. split.
    + rewrite Hr2. unfold receiving, set_key. simpl. rewrite Hcl, Es. reflexivity.
    + rewrite Hk2. unfold set_key. simpl. apply assoc_get_set.
  - rewrite changes_effects. split; [reflexivity|].
    split; [|exact Hk]. unfold receiving. rewrite Hcl, Es. reflexivity.
  - rewrite changes_app, changes_effects. split; [reflexivity|]. split.
    + unfold receiving, set_key. simpl. rewrite Hcl, Es. reflexivity.
    + unfold set_key. simpl. apply assoc_get_set.
Qed.

(** The setter, seen from one subscription. *)
Lemma set_only (name : string) (v : value) (this : RxWC) (n : nat)
  (s : subscription) :
  assoc_has String.eqb name props = true ->
  NoDup (map id (live this)) ->
  lookup_sub n (live this) = Some s ->
  let cells := assoc_set String.eqb name v (triggers this) in
  filter (from_sub n) (snd (set props name v this)) =
    snd (deliver props cells name v s) /\
  lookup_sub n (live (fst (set props name v this))) =
    Some (fst (deliver props cells name v s)) /\
  map id (live (fst (set props name v this))) = map id (live this).
Proof.
  intros Hhas Hnd Hs cells. unfold set. rewrite Hhas. fold cells.
  pose proof (each_only (deliver_local props cells name v) n (live this) Hnd Hs) as H1.
  pose proof (each_lookup (deliver_local props cells name v) n (live this)) as H2.
  pose proof (each_ids (deliver_local props cells name v) (live this)) as H3.
  destruct (each (deliver props cells name v) (live this)) as [subs out].
  cbn [fst snd live] in *. rewrite Hs in H2. auto.
Qed.

Lemma assoc_has_get (A : Type) (name : string) (l : list (string * A)) (c : A) :
  assoc_get String.eqb name l = Some c -> assoc_has String.eqb name l = true.
Proof. unfold assoc_has. intros ->. reflexivity. Qed.

Lemma writes_changed (name : string) (c : ConfigObject) (n : nat)
  (writes : list value) :
  assoc_get String.eqb name props = Some c ->
  (forall v, In v writes -> safe c v) ->
  forall (this : RxWC) (s : subscription) (key : value),
    NoDup (map id (live this)) ->
    lookup_sub n (live this) = Some s ->
    listening s name key ->
    changed_in n (snd (run props rearm (map (Write name) writes) this)) =
      map (pair name) (distinct_after key writes).
Proof.
  intros Hc. induction writes as [|v t IH]; intros Hsafe this s key Hnd Hs Hl.
  - reflexivity.
  - cbn [map run step].
    destruct (set_only name v this n (assoc_has_get _ _ Hc) Hnd Hs) as (H1 & H2 & H3).
    destruct (deliver_listening (assoc_set String.eqb name v (triggers this))
                Hl Hc (Hsafe v (or_introl eq_refl))) as [D1 D2].
    destruct (set props name v this) as [this1 out1]. cbn [fst snd] in *.
    assert (Hnd1 : NoDup (map id (live this1))) by (rewrite H3; exact Hnd).
    specialize (IH (fun w Hw => Hsafe w (or_intror Hw)) this1 _ _ Hnd1 H2 D2).
    destruct (run props rearm (map (Write name) t) this1) as [this2 out2].
    cbn [fst snd] in *.
    unfold changed_in in *. rewrite filter_app, changes_app, H1, D1, IH.
    cbn [distinct_after].
    destruct (strict_equal key v); reflexivity.
Qed.

(** ** What a new subscription starts from *)

Lemma assoc_get_set_other (A : Type) (name other : string) (v : A)
  (l : list (string * A)) :
  String.eqb other name = false ->
  assoc_get String.eqb other (assoc_set String.eqb name v l) =
  assoc_get String.eqb other l.
Proof.
  intro H. induction l as [|[k w] t IH]; simpl.
  - rewrite H. reflexivity.
  - destruct (String.eqb name k) eqn:E; simpl.
    + apply String.eqb_eq in E. subst k. rewrite H. reflexivity.
    + destruct (String.eqb other k); auto.
Qed.

(** The first value of a property in a subscription always passes. *)
Lemma deliver_first (cells : list (string * value)) (name : string)
  (c : ConfigObject) (v : value) (s : subscription) :
  receiving s = true ->
  assoc_get String.eqb name (keys s) = None ->
  assoc_get String.eqb name props = Some c ->
  safe c v ->
  receiving (fst (deliver props cells name v s)) = true /\
  keys (fst (deliver props cells name v s)) =
    assoc_set String.eqb name v (keys s) /\
  changes (snd (deliver props cells name v s)) = [(name, v)].
Proof.
  destruct s as [n src ks th tr cl]. unfold safe.
  unfold receiving, deliver, distinct, throttle_next, set_key, close.
  cbn [id source keys throttled trailingValue closed].
  intros Hr Hk Hc Hsafe. rewrite Hc, Hk.
  destruct (PropertyEffects.run v c) as [calls failure]. simpl in Hsafe. subst.
  destruct cl; [discriminate Hr|].
  destruct src; try discriminate Hr;
    [destruct th|]; cbn [fst snd id source keys throttled trailingValue closed];
    rewrite changes_app, changes_effects; repeat split.
Qed.

Lemma replay_listening (cells : list (string * value)) (names : list string) :
  NoDup names ->
  forall s,
    receiving s = true ->
    (forall x, In x names -> assoc_get String.eqb x (keys s) = None) ->
    (forall x, In x names ->
       exists c, assoc_get String.eqb x props = Some c /\ safe c (getValue cells x)) ->
    receiving (fst (replay props cells names s)) = true /\
    (forall x, In x names ->
       assoc_get String.eqb x (keys (fst (replay props cells names s))) =
       Some (getValue cells x)) /\
    (forall y, ~ In y names ->
       assoc_get String.eqb y (keys (fst (replay props cells names s))) =
       assoc_get String.eqb y (keys s)) /\
    changes (snd (replay props cells names s)) =
      map (fun x => (x, getValue cells x)) names.
Proof.
  induction 1 as [|name rest Hname Hrest IH]; intros s Hr Hnone Hsafe.
  - simpl. repeat split; auto. intros x [].
  - cbn [replay].
    destruct (Hsafe name (or_introl eq_refl)) as [c [Hc Hs]].
    destruct (deliver_first cells name s Hr (Hnone name (or_introl eq_refl)) Hc Hs)
      as (D1 & D2 & D3).
    destruct (deliver props cells name (getValue cells name) s) as [s1 out1].
    cbn [fst snd] in *.
    assert (Hother : forall y, y <> name ->
              assoc_get String.eqb y (keys s1) = assoc_get String.eqb y (keys s)).
    { intros y Hy. rewrite D2. apply assoc_get_set_other.
      apply String.eqb_neq. exact Hy. }
    assert (Hnone1 : forall x, In x rest -> assoc_get String.eqb x (keys s1) = None).
    { intros x Hx. rewrite Hother; [apply Hnone; right; exact Hx|].
      intros ->. contradiction. }
    destruct (IH s1 D1 Hnone1 (fun x Hx => Hsafe x (or_intror Hx)))
      as (I1 & I2 & I3 & I4).
    destruct (replay props cells rest s1) as [s2 out2]. cbn [fst snd] in *.
    split; [exact I1|]. split; [|split].
    + intros x [<-|Hx]; [|apply I2; exact Hx].
      rewrite I3 by exact Hname. rewrite D2. apply assoc_get_set.
    + intros y Hy. simpl in Hy. rewrite I3 by tauto. apply Hother.
      intros ->. tauto.
    + rewrite changes_app, D3, I4. reflexivity.
Qed.

Lemma assoc_get_in (A : Type) (name : string) (c : A) (l : list (string * A)) :
  NoDup (map fst l) -> In (name, c) l -> assoc_get String.eqb name l = Some c.
Proof.
  induction l as [|[k w] t IH]; simpl; [tauto|].
  intros Hnd Hin. inversion Hnd as [|? ? H1 H2]. subst.
  destruct Hin as [E|Hin].
  - injection E as -> ->. rewrite String.eqb_refl. reflexivity.
  - destruct (String.eqb_spec name k) as [->|_]; [|apply IH; assumption].
    destruct H1. apply (in_map fst) in Hin. exact Hin.
Qed.

(** A new subscription of the change feed emits the current value of
    every property, in the order of declaration, and starts from these
    values. *)
Lemma subscribed_listening (cells : list (string * value)) (n : nat)
  (st : stream) :
  NoDup (map fst props) -> seeds_safe props cells ->
  props <> [] -> (forall m, st <> Foreign m) ->
  changes (snd (subscribe_stream props cells n st)) =
    map (fun x => (x, getValue cells x)) (map fst props) /\
  forall name, In name (map fst props) ->
    listening (fst (subscribe_stream props cells n st)) name (getValue cells name).
Proof.
  intros Hnd Hsafe Hne Hst.
  set (fresh := {| id := n; source := st; keys := []; throttled := false;
                   trailingValue := None; closed := false |}).
  assert (Hr : receiving fresh = true).
  { unfold receiving. simpl. destruct st; auto. destruct (Hst n0). reflexivity. }
  assert (Hs : forall x, In x (map fst props) ->
             exists c, assoc_get String.eqb x props = Some c /\
                       safe c (getValue cells x)).
  { intros x Hx. apply in_map_iff in Hx. destruct Hx as [[k c] [<- Hin]].
    exists c. split; [apply assoc_get_in; assumption|].
    apply (Hsafe k c Hin). }
  destruct (replay_listening cells Hnd fresh Hr (fun x _ => eq_refl) Hs)
    as (R1 & R2 & _ & R4).
  assert (E : subscribe_stream props cells n st =
              replay props cells (map fst props) fresh).
  { unfold subscribe_stream. fold fresh.
    destruct st; [| |destruct (Hst n0); reflexivity];
      destruct props; [contradiction|reflexivity|contradiction|reflexivity]. }
  rewrite E. split; [exact R4|].
  intros name Hin. split; [exact R1|apply R2; exact Hin].
Qed.

(** C1, as the code has it: take a live subscription of the change feed
    (that of the renderer, or of a stream derived from
    [propertyChanged$]) in which [key] is the value of the property that
    passed [distinctUntilChanged] last, which at first is the value the
    property held when the subscription was made. Then for every sequence
    of writes to the property on which no effect handler throws, the
    event that carried [key] followed by the events that the writes make
    the stage emit are, in order, one event per maximal run of
    consecutive [===] values of [key] followed by the written values. *)
Theorem dedup_one_event_per_run (this : RxWC) (n : nat) (s : subscription)
  (name : string) (c : ConfigObject) (key : value) (writes : list value) :
  assoc_get String.eqb name props = Some c ->
  (forall v, In v writes -> safe c v) ->
  NoDup (map id (live this)) ->
  lookup_sub n (live this) = Some s ->
  listening s name key ->
  (name, key) ::
    changed_in n (snd (run props rearm (map (Write name) writes) this)) =
  map (fun r => (name, first_of r)) (maximal_runs (key :: writes))
  /\ List.concat (maximal_runs (key :: writes)) = key :: writes.
Proof.
  intros Hc Hsafe Hnd Hs Hl. split; [|apply maximal_runs_concat].
  rewrite (writes_changed n writes Hc Hsafe this Hnd Hs Hl).
  change ((name, key) :: map (pair name) (distinct_after key writes))
    with (map (pair name) (key :: distinct_after key writes)).
  rewrite distinct_after_runs, map_map. reflexivity.
Qed.

End WithClass.

Lemma dedup_one_event_per_run_witness :
  ("prop", VUndefined) ::
    changed_in 0 (snd (sample_run
      (map (Write "prop") [one; one; two; two; one]) sample_attached)) =
  map (fun r => ("prop", first_of r))
    (maximal_runs (VUndefined :: [one; one; two; two; one]))
  /\ List.concat (maximal_runs (VUndefined :: [one; one; two; two; one])) =
     VUndefined :: [one; one; two; two; one].
Proof.
  apply (@dedup_one_event_per_run sample_runtime sample_props false
           sample_attached 0
           {| id := 0; source := RenderStream;
              keys := [("prop", VUndefined)]; throttled := true;
              trailingValue := None; closed := false |}
           "prop" (snd (observed "prop")) VUndefined
           [one; one; two; two; one]).
  - reflexivity.
  - intros v _. reflexivity.
  - vm_compute. repeat constructor; simpl; tauto.
  - reflexivity.
  - split; reflexivity.
Defined.

(** C1 as the specification words it fails in three ways. On an attached
    instance the stage has emitted the seed [undefined] of the property
    before any write, so one write of [1] leaves two events for one run;
    a first write of [undefined] is a run of its own and emits nothing;
    and writes to an instance that is not attached emit nothing at all. *)
Lemma dedup_seed_counterexample :
  changes (snd (sample_run [Attach; Write "prop" one] sample_instance)) <>
    map (fun r => ("prop", first_of r)) (maximal_runs [one])
  /\ changes (snd (sample_run [Write "prop" VUndefined] sample_attached)) <>
    map (fun r => ("prop", first_of r)) (maximal_runs [VUndefined])
  /\ changes (snd (sample_run [Write "prop" one; Write "prop" two] sample_instance)) <>
    map (fun r => ("prop", first_of r)) (maximal_runs [one; two]).
Proof. repeat split; vm_compute; discriminate. Qed.

End FeedFacts.

(* ================================================================== *)
(** * Property effects *)

Module EffectFacts.
Import Component SubscriptionFacts FeedFacts.

Section WithClass.
Context {rt : Runtime}.
Variable props : list (string * ConfigObject).
Variable rearm : bool.

Lemma effects_app (a b : list event) : effects (a ++ b) = effects a ++ effects b.
Proof. unfold effects. apply flat_map_app. Qed.

Lemma effects_effects (n : nat) (calls : list host_call) :
  effects (map (Effect n) calls) = map (pair n) calls.
Proof. induction calls; simpl; f_equal; auto. Qed.

Lemma rendered_app (a b : list event) : rendered (a ++ b) = rendered a ++ rendered b.
Proof. unfold rendered. apply flat_map_app. Qed.

Lemma rendered_effects (n : nat) (calls : list host_call) :
  rendered (map (Effect n) calls) = [].
Proof. induction calls; simpl; auto. Qed.

Lemma effects_each (g : subscription -> subscription * list event)
  (l : list subscription) :
  effects (snd (each g l)) = flat_map (fun s => effects (snd (g s))) l.
Proof.
  induction l as [|s t IH]; simpl; [reflexivity|].
  destruct (g s) as [s1 out1]. destruct (each g t) as [t1 out2].
  simpl in *. rewrite effects_app, IH. reflexivity.
Qed.

Lemma changes_each (g : subscription -> subscription * list event)
  (l : list subscription) :
  changes (snd (each g l)) = flat_map (fun s => changes (snd (g s))) l.
Proof.
  induction l as [|s t IH]; simpl; [reflexivity|].
  destruct (g s) as [s1 out1]. destruct (each g t) as [t1 out2].
  simpl in *. rewrite changes_app, IH. reflexivity.
Qed.

Lemma rendered_each (g : subscription -> subscription * list event)
  (l : list subscription) :
  rendered (snd (each g l)) = flat_map (fun s => rendered (snd (g s))) l.
Proof.
  induction l as [|s t IH]; simpl; [reflexivity|].
  destruct (g s) as [s1 out1]. destruct (each g t) as [t1 out2].
  simpl in *. rewrite rendered_app, IH. reflexivity.
Qed.

Lemma flat_map_nil (A B : Type) (f : A -> list B) (l : list A) :
  (forall x, In x l -> f x = []) -> flat_map f l = [].
Proof.
  induction l as [|x t IH]; simpl; intro H; [reflexivity|].
  rewrite (H x (or_introl eq_refl)), IH; auto.
Qed.

Lemma flat_map_filter (A B : Type) (p : A -> bool) (f h : A -> list B)
  (l : list A) :
  (forall x, f x = if p x then h x else []) ->
  flat_map f l = flat_map h (filter p l).
Proof.
  intro H. induction l as [|x t IH]; simpl; [reflexivity|].
  rewrite H, IH. destruct (p x); reflexivity.
Qed.

(** The handlers run before [distinctUntilChanged] is asked. *)
Lemma deliver_effects (cells : list (string * value)) (name : string)
  (c : ConfigObject) (v : value) (s : subscription) :
  assoc_get String.eqb name props = Some c ->
  effects (snd (deliver props cells name v s)) =
  if receiving s then map (pair (id s)) (fst (PropertyEffects.run v c)) else [].
Proof.
  intro Hc. destruct s as [n src ks th tr cl].
  unfold deliver, receiving, distinct, throttle_next, set_key, close.
  cbn [id source keys throttled trailingValue closed]. rewrite Hc.
  destruct src; destruct cl; cbn [negb andb fst snd]; try reflexivity;
    destruct (PropertyEffects.run v c) as [calls [e|]]; cbn [fst snd];
    try (rewrite effects_app, effects_effects; apply app_nil_r);
    (destruct (match assoc_get String.eqb name ks with
               | Some key => negb (strict_equal key v)
               | None => true
               end); cbn [fst snd];
     [|apply effects_effects]).
  - destruct th; cbn [fst snd]; rewrite effects_app, effects_effects;
      apply app_nil_r.
  - rewrite effects_app, effects_effects. apply app_nil_r.
Qed.

(** A value that [distinctUntilChanged] holds back reaches nobody. *)
Lemma deliver_held_back (cells : list (string * value)) (name : string)
  (v : value) (s : subscription) :
  (receiving s = true -> distinct s name v = false) ->
  changes (snd (deliver props cells name v s)) = [] /\
  rendered (snd (deliver props cells name v s)) = [].
Proof.
  destruct s as [n src ks th tr cl].
  unfold deliver, receiving, distinct, throttle_next, set_key, close.
  cbn [id source keys throttled trailingValue closed].
  destruct src; destruct cl; cbn [negb andb fst snd]; auto; intro H;
    (destruct (assoc_get String.eqb name props) as [c|]; cbn [fst snd]; auto;
     destruct (PropertyEffects.run v c) as [calls [e|]]; cbn [fst snd];
     [ rewrite changes_app, rendered_app, changes_effects, rendered_effects; auto
     | rewrite (H eq_refl); cbn [fst snd];
       rewrite changes_effects, rendered_effects; auto ]).
Qed.

(** C6, as the code has it: a write runs the effect handlers once in
    every subscription that the trigger of the property sends values to,
    whatever the value and whatever the property held before; the calls
    are those of [notify] and of [reflect] as the configuration has them.
    Without such a subscription, as on an instance that is not attached,
    no handler runs. A value that [distinctUntilChanged] holds back
    everywhere, such as the one just written, leaves the change feed and
    the renderer alone. *)
Theorem effects_on_every_write (this : RxWC) (name : string)
  (c : ConfigObject) (v : value) :
  assoc_get String.eqb name props = Some c ->
  effects (snd (set props name v this)) =
    flat_map (fun s => map (pair (id s)) (fst (PropertyEffects.run v c)))
      (filter receiving (live this))
  /\ (forall type, notify c = Some type ->
        In (DispatchEvent type) (fst (PropertyEffects.run v c)))
  /\ (forall b text, reflect c = Some b -> Codec.serialize v c = Ok text ->
        In (SetAttribute (attribute c) text) (fst (PropertyEffects.run v c)))
  /\ (Forall (fun s => receiving s = true -> distinct s name v = false)
        (live this) ->
      changes (snd (set props name v this)) = [] /\
      rendered (snd (set props name v this)) = []).
Proof.
  intro Hc. repeat split.
  - unfold set. rewrite (assoc_has_get _ _ Hc).
    pose proof (effects_each
      (deliver props (assoc_set String.eqb name v (triggers this)) name v)
      (live this)) as H.
    destruct (each _ (live this)) as [subs out]. cbn [fst snd] in *.
    rewrite H. apply flat_map_filter. intro s. apply deliver_effects. exact Hc.
  - intros type Hn. unfold PropertyEffects.run, PropertyEffects.notify.
    rewrite Hn. destruct (reflect c); [destruct (PropertyEffects.reflect v c)|];
      cbn [fst]; try apply in_or_app; simpl; auto.
  - intros b text Hr Hs. unfold PropertyEffects.run, PropertyEffects.reflect.
    rewrite Hr, Hs. cbn [fst]. apply in_or_app. right. left. reflexivity.
  - unfold set. rewrite (assoc_has_get _ _ Hc).
    pose proof (changes_each
      (deliver props (assoc_set String.eqb name v (triggers this)) name v)
      (live this)) as E.
    destruct (each _ (live this)) as [subs out]. cbn [fst snd] in *.
    rewrite E. apply flat_map_nil. intros s Hs.
    apply deliver_held_back. rewrite Forall_forall in H. apply H. exact Hs.
  - unfold set. rewrite (assoc_has_get _ _ Hc).
    pose proof (rendered_each
      (deliver props (assoc_set String.eqb name v (triggers this)) name v)
      (live this)) as E.
    destruct (each _ (live this)) as [subs out]. cbn [fst snd] in *.
    rewrite E. apply flat_map_nil. intros s Hs.
    apply deliver_held_back. rewrite Forall_forall in H. apply H. exact Hs.
Qed.

End WithClass.

(** The instance of the examples with [@notify()] on its property,
    attached and written twice with the same value: the event is
    dispatched both times, the change feed hears of the first only. *)
Lemma effects_on_every_write_witness :
  let this := fst (run (rt := sample_runtime) notifying_props false
                     [Attach; Write "prop" one] (constructor notifying_props)) in
  effects (snd (set (rt := sample_runtime) notifying_props "prop" one this)) =
    [(0, DispatchEvent "prop-changed")]
  /\ changes (snd (set (rt := sample_runtime) notifying_props "prop" one this)) = []
  /\ rendered (snd (set (rt := sample_runtime) notifying_props "prop" one this)) = [].
Proof.
  intro this.
  destruct (@effects_on_every_write sample_runtime notifying_props this
              "prop" (snd (hd (observed "prop") notifying_props)) one eq_refl)
    as (H1 & _ & _ & H4).
  split; [exact H1|]. apply H4.
  constructor; [intros _; reflexivity|constructor].
Defined.

(** C6 as the specification words it fails before the instance is
    attached: the property notifies, it is written, and no event is
    dispatched. *)
Lemma effects_detached_counterexample :
  notify (snd (hd (observed "prop") notifying_props)) = Some "prop-changed" /\
  effects (snd (run (rt := sample_runtime) notifying_props false
                  [Write "prop" one] (constructor notifying_props))) = [].
Proof. split; reflexivity. Qed.

End EffectFacts.

(* ================================================================== *)
(** * Lifecycle: the bookkeeping of subscriptions *)

Module LifecycleFacts.
Import Component SubscriptionFacts.

Lemma stream_eqb_eq (a b : stream) : stream_eqb a b = true <-> a = b.
Proof.
  destruct a, b; simpl; split; intro H; try discriminate; try reflexivity;
    try (apply Nat.eqb_eq in H; subst; reflexivity);
    try (injection H as ->; apply Nat.eqb_refl).
Qed.

Lemma stream_eqb_refl (a : stream) : stream_eqb a a = true.
Proof. apply stream_eqb_eq. reflexivity. Qed.

Lemma stream_eqb_neq (a b : stream) : stream_eqb a b = false <-> a <> b.
Proof.
  split.
  - intros H E. apply stream_eqb_eq in E. congruence.
  - intro H. destruct (stream_eqb a b) eqn:E; [|reflexivity].
    apply stream_eqb_eq in E. contradiction.
Qed.

(** ** The map *)

Section Map.
Variable V : Type.
Implicit Types (l : list (stream * V)).

Lemma get_none l k : assoc_get stream_eqb k l = None <-> ~ In k (map fst l).
Proof.
  induction l as [|[k' v] t IH]; simpl; [tauto|].
  destruct (stream_eqb k k') eqn:E.
  - apply stream_eqb_eq in E. subst. split; [discriminate|tauto].
  - apply stream_eqb_neq in E. rewrite IH. split; [intros H [A|B]; auto|tauto].
Qed.

Lemma get_some l k v : assoc_get stream_eqb k l = Some v -> In (k, v) l.
Proof.
  induction l as [|[k' v'] t IH]; simpl; [discriminate|].
  destruct (stream_eqb k k') eqn:E.
  - apply stream_eqb_eq in E. subst. intro H. injection H as ->. auto.
  - auto.
Qed.

Lemma has_in l k : assoc_has stream_eqb k l = true <-> In k (map fst l).
Proof.
  unfold assoc_has. destruct (assoc_get stream_eqb k l) eqn:E.
  - split; [intros _|reflexivity]. apply get_some in E.
    apply (in_map fst) in E. exact E.
  - apply get_none in E. split; [discriminate|contradiction].
Qed.

Lemma set_fresh l k v :
  ~ In k (map fst l) -> assoc_set stream_eqb k v l = l ++ [(k, v)].
Proof.
  induction l as [|[k' v'] t IH]; simpl; [reflexivity|].
  intro H. destruct (stream_eqb k k') eqn:E.
  - apply stream_eqb_eq in E. subst. tauto.
  - f_equal. apply IH. tauto.
Qed.

Lemma delete_absent l k :
  ~ In k (map fst l) -> assoc_delete stream_eqb k l = l.
Proof.
  induction l as [|[k' v'] t IH]; simpl; [reflexivity|].
  intro H. destruct (stream_eqb k k') eqn:E.
  - apply stream_eqb_eq in E. subst. tauto.
  - f_equal. apply IH. tauto.
Qed.

End Map.

(** ** The set *)

Lemma set_has_in (l : list stream) (k : stream) :
  set_has stream_eqb k l = true <-> In k l.
Proof.
  induction l as [|k' t IH]; simpl; [split; [discriminate|tauto]|].
  rewrite orb_true_iff, IH, stream_eqb_eq. split; intros [H|H]; auto.
Qed.

Lemma set_add_in (k x : stream) (l : list stream) :
  In x (set_add stream_eqb k l) <-> x = k \/ In x l.
Proof.
  unfold set_add. destruct (set_has stream_eqb k l) eqn:E.
  - apply set_has_in in E. split; [auto|]. intros [->|H]; auto.
  - rewrite in_app_iff. simpl. split; intros [H|H]; auto.
    + destruct H as [H|[]]; auto.
Qed.

Lemma set_add_nodup (k : stream) (l : list stream) :
  NoDup l -> NoDup (set_add stream_eqb k l).
Proof.
  intro H. unfold set_add. destruct (set_has stream_eqb k l) eqn:E; [exact H|].
  assert (Hn : ~ In k l).
  { intro Hin. apply set_has_in in Hin. congruence. }
  apply NoDup_app; [exact H|repeat constructor; simpl; tauto|].
  intros x Hx [<-|[]]. contradiction.
Qed.

Lemma add_all_in (ks l : list stream) (x : stream) :
  In x (fold_left (fun acc st => set_add stream_eqb st acc) ks l) <->
  In x l \/ In x ks.
Proof.
  revert l. induction ks as [|k t IH]; intro l; simpl; [tauto|].
  rewrite IH, set_add_in. split; intros H; intuition auto.
Qed.

Lemma add_all_nodup (ks l : list stream) :
  NoDup l -> NoDup (fold_left (fun acc st => set_add stream_eqb st acc) ks l).
Proof.
  revert l. induction ks as [|k t IH]; intros l H; simpl; [exact H|].
  apply IH. apply set_add_nodup. exact H.
Qed.

Lemma set_delete_in (k x : stream) (l : list stream) :
  In x (set_delete stream_eqb k l) <-> In x l /\ x <> k.
Proof.
  induction l as [|k' t IH]; simpl; [tauto|].
  destruct (stream_eqb k k') eqn:E.
  - apply stream_eqb_eq in E. subst. rewrite IH. split; intros H.
    + tauto.
    + destruct H as [[H|H] Hn]; [congruence|tauto].
  - apply stream_eqb_neq in E. simpl. rewrite IH. split; intros H.
    + destruct H as [H|H]; [subst; split; auto|tauto].
    + tauto.
Qed.

Lemma set_delete_nodup (k : stream) (l : list stream) :
  NoDup l -> NoDup (set_delete stream_eqb k l).
Proof.
  induction 1 as [|x t Hx Ht IH]; simpl; [constructor|].
  destruct (stream_eqb k x); [exact IH|].
  constructor; [|exact IH]. rewrite set_delete_in. tauto.
Qed.

Lemma delete_all_in (ks l : list stream) (x : stream) :
  In x (fold_left (fun acc st => set_delete stream_eqb st acc) ks l) <->
  In x l /\ ~ In x ks.
Proof.
  revert l. induction ks as [|k t IH]; intro l; simpl; [tauto|].
  rewrite IH, set_delete_in. split; intros H; intuition auto.
Qed.

Lemma delete_all_nodup (ks l : list stream) :
  NoDup l -> NoDup (fold_left (fun acc st => set_delete stream_eqb st acc) ks l).
Proof.
  revert l. induction ks as [|k t IH]; intros l H; simpl; [exact H|].
  apply IH. apply set_delete_nodup. exact H.
Qed.

Section WithClass.
Context {rt : Runtime}.
Variable props : list (string * ConfigObject).
Variable rearm : bool.

(** ** Making a subscription *)

Lemma replay_local (cells : list (string * value)) (names : list string) :
  local (replay props cells names).
Proof.
  induction names as [|name rest IH]; intro s; simpl; [auto|].
  destruct (deliver_local props cells name (getValue cells name) s)
    as (H1 & H2 & H3).
  destruct (deliver props cells name (getValue cells name) s) as [s1 out1].
  destruct (IH s1) as (G1 & G2 & G3).
  destruct (replay props cells rest s1) as [s2 out2].
  simpl in *. repeat split; try congruence.
  apply Forall_app. split; [exact H3|]. rewrite <- H1. exact G3.
Qed.

Lemma subscribe_stream_handle (cells : list (string * value)) (n : nat)
  (st : stream) :
  handle (fst (subscribe_stream props cells n st)) = (st, n).
Proof.
  unfold subscribe_stream, handle.
  set (fresh := {| id := n; source := st; keys := []; throttled := false;
                   trailingValue := None; closed := false |}).
  destruct st; try reflexivity; destruct props as [|p ps] eqn:E; try reflexivity;
    rewrite <- E;
    destruct (replay_local cells (map fst props) fresh) as (H1 & H2 & _);
    rewrite H1, H2; reflexivity.
Qed.

Lemma open_subscription_frame (st : stream) (this : RxWC) :
  let this1 := fst (open_subscription props st this) in
  isAttached this1 = isAttached this /\ streams this1 = streams this /\
  triggers this1 = triggers this /\
  subscriptions this1 =
    assoc_set stream_eqb st (next_id this) (subscriptions this) /\
  map handle (live this1) = map handle (live this) ++ [(st, next_id this)] /\
  next_id this1 = S (next_id this).
Proof.
  unfold open_subscription.
  pose proof (subscribe_stream_handle (triggers this) (next_id this) st) as H.
  destruct (subscribe_stream props (triggers this) (next_id this) st) as [s out].
  simpl in *. rewrite map_app. simpl. rewrite H. repeat split; reflexivity.
Qed.

Lemma accounted_open (st : stream) (this : RxWC) :
  accounted this ->
  ~ In st (map fst (subscriptions this)) ->
  accounted (fst (open_subscription props st this)) /\
  subscriptions (fst (open_subscription props st this)) =
    subscriptions this ++ [(st, next_id this)].
Proof.
  intros [Hm Hs Hf Hi] Hnew.
  destruct (open_subscription_frame st this) as (_ & _ & _ & E1 & E2 & E3).
  rewrite set_fresh in E1 by exact Hnew.
  split; [|exact E1]. constructor.
  - rewrite E1, E2, Hm. reflexivity.
  - rewrite E1, map_app. simpl. apply NoDup_app; [exact Hs|repeat constructor; simpl; tauto|].
    intros x Hx [<-|[]]. contradiction.
  - rewrite E1, map_app. simpl. apply NoDup_app; [exact Hf|repeat constructor; simpl; tauto|].
    intros x Hx [<-|[]]. apply in_map_iff in Hx. destruct Hx as [e [He Hin]].
    rewrite Forall_forall in Hi. specialize (Hi e Hin). lia.
  - rewrite E1, E3. apply Forall_app. split.
    + eapply Forall_impl; [|exact Hi]. simpl. intros. lia.
    + repeat constructor.
Qed.

(** [connectedCallback] on an instance without subscriptions. *)
Lemma subscribe_each_accounted (l : list stream) :
  NoDup l ->
  forall this,
    accounted this ->
    (forall x, In x l -> ~ In x (map fst (subscriptions this))) ->
    let this1 := fst (subscribe_each props l this) in
    accounted this1 /\
    map fst (subscriptions this1) = map fst (subscriptions this) ++ l /\
    isAttached this1 = isAttached this /\ streams this1 = streams this.
Proof.
  induction 1 as [|st rest Hst Hrest IH]; intros this Hacc Hnew; simpl.
  - rewrite app_nil_r. auto.
  - destruct (accounted_open st Hacc (Hnew st (or_introl eq_refl))) as [A1 A2].
    destruct (open_subscription_frame st this) as (F1 & F2 & _).
    destruct (open_subscription props st this) as [this1 out1]. simpl in *.
    assert (Hnew1 : forall x, In x rest -> ~ In x (map fst (subscriptions this1))).
    { intros x Hx. rewrite A2, map_app, in_app_iff. simpl.
      intros [H|[H|[]]]; [apply (Hnew x); auto|subst; contradiction]. }
    destruct (IH this1 A1 Hnew1) as (B1 & B2 & B3 & B4).
    destruct (subscribe_each props rest this1) as [this2 out2]. simpl in *.
    split; [exact B1|]. split.
    + rewrite B2, A2, map_app. simpl. rewrite <- app_assoc. reflexivity.
    + split; congruence.
Qed.

(** [subscribe] on an attached instance. *)
Lemma subscribe_missing_accounted (l : list stream) :
  forall this,
    accounted this ->
    let this1 := fst (subscribe_missing props l this) in
    accounted this1 /\
    (forall x, In x (map fst (subscriptions this1)) <->
               In x (map fst (subscriptions this)) \/ In x l) /\
    isAttached this1 = isAttached this /\ streams this1 = streams this.
Proof.
  induction l as [|st rest IH]; intros this Hacc; simpl.
  - split; [exact Hacc|]. split; [|auto]. intro x. simpl. tauto.
  - destruct (assoc_has stream_eqb st (subscriptions this)) eqn:E.
    + apply has_in in E. destruct (IH this Hacc) as (B1 & B2 & B3 & B4).
      split; [exact B1|]. split; [|auto].
      intro x. rewrite B2. split; intros [H|H]; auto.
      destruct H as [<-|H]; auto.
    + assert (Hnew : ~ In st (map fst (subscriptions this))).
      { intro H. apply has_in in H. congruence. }
      destruct (accounted_open st Hacc Hnew) as [A1 A2].
      destruct (open_subscription_frame st this) as (F1 & F2 & _).
      destruct (open_subscription props st this) as [this1 out1]. simpl in *.
      destruct (IH this1 A1) as (B1 & B2 & B3 & B4).
      destruct (subscribe_missing props rest this1) as [this2 out2]. simpl in *.
      split; [exact B1|]. split; [|split; congruence].
      intro x. rewrite B2, A2, map_app, in_app_iff. simpl. tauto.
Qed.

(** ** Ending a subscription *)

Lemma drop_absent (n : nat) (l : list subscription) :
  ~ In n (map id l) -> drop n l = l.
Proof.
  induction l as [|s t IH]; simpl; [reflexivity|].
  intro H. destruct (Nat.eqb_spec (id s) n); [tauto|].
  simpl. f_equal. apply IH. tauto.
Qed.

Lemma handle_ids (l : list subscription) : map snd (map handle l) = map id l.
Proof. rewrite map_map. reflexivity. Qed.

Lemma handle_sources (l : list subscription) :
  map fst (map handle l) = map source l.
Proof. rewrite map_map. reflexivity. Qed.

Lemma drop_handles (st : stream) (n : nat) (l : list subscription) :
  NoDup (map source l) -> NoDup (map id l) ->
  assoc_get stream_eqb st (map handle l) = Some n ->
  map handle (drop n l) = assoc_delete stream_eqb st (map handle l).
Proof.
  induction l as [|s t IH]; simpl; [discriminate|].
  intros Hs Hi. inversion Hs as [|? ? Hs1 Hs2]. inversion Hi as [|? ? Hi1 Hi2].
  subst. destruct (stream_eqb st (source s)) eqn:E.
  - intro H. injection H as <-. rewrite Nat.eqb_refl. simpl.
    apply stream_eqb_eq in E. subst st.
    rewrite drop_absent by exact Hi1.
    rewrite delete_absent; [reflexivity|]. rewrite handle_sources. exact Hs1.
  - intro H. assert (Hn : In n (map id t)).
    { apply get_some in H. apply (in_map snd) in H.
      rewrite handle_ids in H. exact H. }
    destruct (Nat.eqb_spec (id s) n) as [Heq|Hne]; [subst; contradiction|].
    simpl. f_equal. apply IH; assumption.
Qed.

Lemma delete_keys (V : Type) (st : stream) (l : list (stream * V)) (x : stream) :
  In x (map fst (assoc_delete stream_eqb st l)) <-> In x (map fst l) /\ x <> st.
Proof.
  induction l as [|[k v] t IH]; simpl; [tauto|].
  destruct (stream_eqb st k) eqn:E.
  - apply stream_eqb_eq in E. subst. rewrite IH. split; intros H.
    + tauto.
    + destruct H as [[H|H] Hn]; [congruence|tauto].
  - apply stream_eqb_neq in E. simpl. rewrite IH. split; intros H.
    + destruct H as [H|H]; [subst; split; auto|tauto].
    + tauto.
Qed.

Lemma delete_sublist (V : Type) (st : stream) (l : list (stream * V)) :
  forall e, In e (assoc_delete stream_eqb st l) -> In e l.
Proof.
  induction l as [|[k v] t IH]; simpl; [tauto|].
  intros e. destruct (stream_eqb st k); simpl; intuition auto.
Qed.

Lemma delete_nodup (V W : Type) (f : stream * V -> W) (st : stream)
  (l : list (stream * V)) :
  NoDup (map f l) -> NoDup (map f (assoc_delete stream_eqb st l)).
Proof.
  induction l as [|[k v] t IH]; simpl; [auto|].
  intro H. inversion H as [|? ? H1 H2]. subst.
  destruct (stream_eqb st k); [auto|]. simpl. constructor; [|auto].
  intro Hin. apply H1. apply in_map_iff in Hin. destruct Hin as [e [He Hin]].
  apply in_map_iff. exists e. split; [exact He|].
  eapply delete_sublist. exact Hin.
Qed.

Lemma accounted_close (st : stream) (this : RxWC) :
  accounted this ->
  let this1 := close_subscription st this in
  accounted this1 /\
  (forall x, In x (map fst (subscriptions this1)) <->
             In x (map fst (subscriptions this)) /\ x <> st) /\
  isAttached this1 = isAttached this /\ streams this1 = streams this.
Proof.
  intros [Hm Hs Hf Hi]. unfold close_subscription.
  destruct (assoc_get stream_eqb st (subscriptions this)) as [n|] eqn:E; simpl.
  - split; [|split; [|auto]].
    + constructor; simpl.
      * rewrite Hm in E |- *. symmetry. apply drop_handles; auto.
        -- rewrite <- handle_sources, <- Hm. exact Hs.
        -- rewrite <- handle_ids, <- Hm. exact Hf.
      * apply delete_nodup. exact Hs.
      * apply delete_nodup. exact Hf.
      * rewrite Forall_forall in *. intros e He. apply Hi.
        eapply delete_sublist. exact He.
    + intro x. apply delete_keys.
  - split; [constructor; auto|]. split; [|auto].
    apply get_none in E. intro x. split; [|tauto].
    intro H. split; [exact H|]. intros ->. contradiction.
Qed.

Lemma close_all_accounted (l : list stream) :
  forall this,
    accounted this ->
    let this1 := fold_left (fun acc st => close_subscription st acc) l this in
    accounted this1 /\
    (forall x, In x (map fst (subscriptions this1)) <->
               In x (map fst (subscriptions this)) /\ ~ In x l) /\
    isAttached this1 = isAttached this /\ streams this1 = streams this.
Proof.
  induction l as [|st rest IH]; intros this Hacc; simpl.
  - split; [exact Hacc|]. split; [|auto]. intro x. simpl. tauto.
  - destruct (accounted_close st Hacc) as (A1 & A2 & A3 & A4).
    destruct (IH (close_subscription st this) A1) as (B1 & B2 & B3 & B4).
    split; [exact B1|]. split; [|split; congruence].
    intro x. rewrite B2, A2. split; intros H; intuition auto.
Qed.

Lemma drop_all (xs : list subscription) :
  forall ys,
    (forall s, In s ys -> In (id s) (map id xs)) ->
    fold_left (fun l entry => drop (snd entry) l) (map handle xs) ys = [].
Proof.
  induction xs as [|x xs IH]; intros ys H; simpl.
  - destruct ys as [|y ys]; [reflexivity|]. destruct (H y (or_introl eq_refl)).
  - apply IH. intros s Hs. unfold drop in Hs. apply filter_In in Hs.
    destruct Hs as [Hin Hne]. apply negb_true_iff in Hne.
    destruct (H s Hin) as [Heq|Hin']; [|exact Hin'].
    simpl in Heq. rewrite Heq, Nat.eqb_refl in Hne. discriminate.
Qed.

(** ** Steps keep the books *)

Lemma each_frame (g : subscription -> subscription * list event)
  (this : RxWC) (subs : list subscription) :
  local g -> subs = fst (each g (live this)) ->
  forall this1,
    subscriptions this1 = subscriptions this ->
    streams this1 = streams this ->
    isAttached this1 = isAttached this ->
    next_id this1 = next_id this ->
    live this1 = subs ->
    tracked this -> tracked this1.
Proof.
  intros Hg -> this1 E1 E2 E3 E4 E5 [[Hm Hs Hf Hi] Hset Hatt].
  constructor; [constructor|..]; rewrite ?E1, ?E2, ?E3, ?E4, ?E5; auto.
  rewrite each_handles by exact Hg. exact Hm.
Qed.

Lemma tracked_set_value (name : string) (v : value) (this : RxWC) :
  tracked this ->
  tracked (fst (set props name v this)) /\
  isAttached (fst (set props name v this)) = isAttached this /\
  streams (fst (set props name v this)) = streams this.
Proof.
  intro H. unfold set. destruct (assoc_has String.eqb name props); [|auto].
  pose proof (each_frame (this := this)
    (deliver_local props (assoc_set String.eqb name v (triggers this)) name v)
    eq_refl) as F.
  destruct (each _ (live this)) as [subs out]. simpl in *.
  split; [|auto]. apply F; auto.
Qed.

Lemma tracked_tick (this : RxWC) :
  tracked this ->
  tracked (fst (tick rearm this)) /\
  isAttached (fst (tick rearm this)) = isAttached this /\
  streams (fst (tick rearm this)) = streams this.
Proof.
  intro H. unfold tick.
  pose proof (each_frame (this := this)
    (clearThrottle_local rearm (triggers this)) eq_refl) as F.
  destruct (each _ (live this)) as [subs out]. simpl in *.
  split; [|auto]. apply F; auto.
Qed.

Lemma tracked_attribute (attr o n : string) (this : RxWC) :
  tracked this ->
  tracked (fst (attributeChangedCallback props attr o n this)) /\
  isAttached (fst (attributeChangedCallback props attr o n this)) = isAttached this /\
  streams (fst (attributeChangedCallback props attr o n this)) = streams this.
Proof.
  intro H. unfold attributeChangedCallback.
  destruct (String.eqb o n); [auto|].
  destruct (assoc_get String.eqb (Utils.toCamelCase attr) props) as [c|]; [|destruct (Object_prototype _) as [m|];
       [destruct (Codec.deserialize _ m)|]; auto].
  destruct (Codec.deserialize n c) as [v|e]; [|auto].
  pose proof (tracked_set_value (Utils.toCamelCase attr) v H) as G.
  destruct (set props (Utils.toCamelCase attr) v this) as [this1 out].
  exact G.
Qed.

Lemma tracked_connected (this : RxWC) :
  tracked this -> isAttached this = false ->
  tracked (fst (connectedCallback props this)) /\
  isAttached (fst (connectedCallback props this)) = true /\
  streams (fst (connectedCallback props this)) = streams this.
Proof.
  intros [Hacc Hset Hatt] Hdet. rewrite Hdet in Hatt.
  unfold connectedCallback.
  assert (Hacc0 : accounted (set_attached true this)).
  { destruct Hacc. constructor; assumption. }
  assert (Hnew : forall x, In x (streams this) ->
                 ~ In x (map fst (subscriptions (set_attached true this)))).
  { intros x _. simpl. rewrite Hatt. simpl. tauto. }
  destruct (subscribe_each_accounted Hset Hacc0 Hnew)
    as (B1 & B2 & B3 & B4).
  change (streams (set_attached true this)) with (streams this) in *.
  destruct (subscribe_each props (streams this) (set_attached true this))
    as [this1 out]. simpl in *.
  rewrite Hatt in B2. simpl in B2.
  split; [|auto]. constructor; [exact B1|congruence|].
  rewrite B3, B4, B2. tauto.
Qed.

Lemma tracked_disconnected (this : RxWC) :
  tracked this ->
  tracked (fst (disconnectedCallback this)) /\
  isAttached (fst (disconnectedCallback this)) = false /\
  streams (fst (disconnectedCallback this)) = streams this /\
  live (fst (disconnectedCallback this)) = [].
Proof.
  intros [[Hm Hs Hf Hi] Hset Hatt]. unfold disconnectedCallback. simpl.
  assert (Hl : fold_left (fun l entry => drop (snd entry) l)
                 (subscriptions this) (live this) = []).
  { rewrite Hm. apply drop_all. intros s Hin. apply in_map. exact Hin. }
  rewrite Hl. repeat split; simpl; auto; constructor.
Qed.

Lemma tracked_subscribe (l : list stream) (this : RxWC) :
  tracked this ->
  tracked (fst (subscribe props l this)) /\
  isAttached (fst (subscribe props l this)) = isAttached this /\
  (forall x, In x (streams (fst (subscribe props l this))) <->
             In x (streams this) \/ In x l).
Proof.
  intros [Hacc Hset Hatt]. unfold subscribe.
  assert (Hacc0 : accounted (add_streams l this)).
  { destruct Hacc. constructor; assumption. }
  change (isAttached (add_streams l this)) with (isAttached this).
  destruct (isAttached this) eqn:Ea.
  - destruct (subscribe_missing_accounted l Hacc0)
      as (B1 & B2 & B3 & B4).
    destruct (subscribe_missing props l (add_streams l this)) as [this1 out].
    simpl in *. split; [|split].
    + constructor; [exact B1| |].
      * rewrite B4. apply add_all_nodup. exact Hset.
      * rewrite B3, Ea, B4. intro x. rewrite B2, add_all_in, Hatt. tauto.
    + congruence.
    + intro x. rewrite B4. apply add_all_in.
  - simpl. split; [|split].
    + constructor; [exact Hacc0| |].
      * simpl. apply add_all_nodup. exact Hset.
      * simpl. rewrite Ea. exact Hatt.
    + exact Ea.
    + intro x. apply add_all_in.
Qed.

Lemma keys_nil (V : Type) (l : list (stream * V)) :
  (forall x, ~ In x (map fst l)) -> l = [].
Proof.
  destruct l as [|[k v] t]; [reflexivity|]. intro H.
  destruct (H k). simpl. auto.
Qed.

Lemma tracked_unsubscribe (l : list stream) (this : RxWC) :
  tracked this ->
  tracked (fst (unsubscribe l this)) /\
  isAttached (fst (unsubscribe l this)) = isAttached this.
Proof.
  intros [Hacc Hset Hatt]. unfold unsubscribe. cbn [fst].
  set (this0 := {| triggers := triggers this; isAttached := isAttached this;
                   streams := fold_left (fun acc st => set_delete stream_eqb st acc)
                                l (streams this);
                   subscriptions := subscriptions this; live := live this;
                   next_id := next_id this |}).
  assert (Hacc0 : accounted this0).
  { destruct Hacc. constructor; assumption. }
  destruct (close_all_accounted l Hacc0) as (B1 & B2 & B3 & B4).
  split; [|exact B3]. constructor; [exact B1| |].
  - rewrite B4. simpl. apply delete_all_nodup. exact Hset.
  - rewrite B3, B4. simpl. destruct (isAttached this).
    + intro x. rewrite B2, delete_all_in. simpl. rewrite Hatt. tauto.
    + apply keys_nil. intros x Hx. apply B2 in Hx. simpl in Hx.
      rewrite Hatt in Hx. simpl in Hx. tauto.
Qed.

Lemma tracked_constructor : tracked (constructor props).
Proof.
  constructor; [constructor|..]; simpl; try constructor; auto.
  constructor.
Qed.

Lemma tracked_step (a : action) (this : RxWC) :
  tracked this ->
  lawful (isAttached this) [a] = true ->
  tracked (fst (step props rearm a this)) /\
  lawful (isAttached (fst (step props rearm a this))) [] = true /\
  forall rest, lawful (isAttached this) (a :: rest) = true ->
               lawful (isAttached (fst (step props rearm a this))) rest = true.
Proof.
  intros H Hl. split; [|split; [reflexivity|]]; destruct a;
    cbn [step lawful] in *.
  - apply tracked_connected; [exact H|].
    destruct (isAttached this); [discriminate|reflexivity].
  - apply tracked_disconnected. exact H.
  - apply tracked_subscribe. exact H.
  - apply tracked_unsubscribe. exact H.
  - apply tracked_set_value. exact H.
  - apply tracked_attribute. exact H.
  - apply tracked_tick. exact H.
  - intros rest Hr. apply andb_prop in Hr. destruct Hr as [Hd Hr].
    apply negb_true_iff in Hd.
    destruct (tracked_connected H Hd) as (_ & E & _). rewrite E. exact Hr.
  - intros rest Hr. destruct (tracked_disconnected H) as (_ & E & _).
    rewrite E. exact Hr.
  - intros rest Hr. destruct (tracked_subscribe l H) as (_ & E & _).
    rewrite E. exact Hr.
  - intros rest Hr. destruct (tracked_unsubscribe l H) as (_ & E).
    rewrite E. exact Hr.
  - intros rest Hr. destruct (tracked_set_value name v H) as (_ & E & _).
    rewrite E. exact Hr.
  - intros rest Hr.
    destruct (tracked_attribute attr oldValue newValue H) as (_ & E & _).
    rewrite E. exact Hr.
  - intros rest Hr. destruct (tracked_tick H) as (_ & E & _).
    rewrite E. exact Hr.
Qed.

Lemma lawful_head (b : bool) (a : action) (rest : list action) :
  lawful b (a :: rest) = true -> lawful b [a] = true.
Proof.
  destruct a; simpl; auto. intro H. apply andb_prop in H.
  destruct H as [-> _]. reflexivity.
Qed.

(** A lawful run keeps the books. *)
Lemma tracked_run (l : list action) :
  forall this,
    tracked this -> lawful (isAttached this) l = true ->
    tracked (fst (run props rearm l this)).
Proof.
  induction l as [|a rest IH]; intros this H Hl; simpl; [exact H|].
  destruct (tracked_step a H (lawful_head _ _ _ Hl)) as (T1 & _ & T3).
  specialize (T3 rest Hl).
  destruct (step props rearm a this) as [this1 out1]. simpl in *.
  specialize (IH this1 T1 T3).
  destruct (run props rearm rest this1) as [this2 out2]. exact IH.
Qed.

Lemma has_live_in (this : RxWC) (x : stream) :
  has_live this x = true <-> In x (map source (live this)).
Proof.
  unfold has_live. rewrite existsb_exists, in_map_iff.
  split; intros [s [H1 H2]]; exists s.
  - apply stream_eqb_eq in H2. auto.
  - split; [exact H2|]. apply stream_eqb_eq. exact H1.
Qed.

Lemma tracked_live (this : RxWC) (x : stream) :
  tracked this -> In x (streams this) ->
  (has_live this x = true <-> isAttached this = true).
Proof.
  intros [[Hm Hs Hf Hi] Hset Hatt] Hx.
  rewrite has_live_in, <- handle_sources, <- Hm.
  destruct (isAttached this).
  - rewrite <- Hatt. tauto.
  - rewrite Hatt. simpl. split; [tauto|discriminate].
Qed.

(** C3, as the code has it: in every state that a lawful run reaches from
    a new instance, that is a run in which the host attaches only what is
    not attached, a registered stream has a live subscription exactly when
    the instance is attached. *)
Theorem registered_live_iff_attached (l : list action) (x : stream) :
  lawful false l = true ->
  In x (streams (fst (run props rearm l (constructor props)))) ->
  (has_live (fst (run props rearm l (constructor props))) x = true <->
   isAttached (fst (run props rearm l (constructor props))) = true).
Proof.
  intros Hl Hx. apply tracked_live; [|exact Hx].
  apply tracked_run; [apply tracked_constructor|exact Hl].
Qed.

(** ** Registering a stream again *)

Lemma count_one (l : list subscription) (x : stream) :
  NoDup (map source l) -> In x (map source l) ->
  List.length (filter (fun s => stream_eqb (source s) x) l) = 1.
Proof.
  induction l as [|s t IH]; simpl; [tauto|].
  intros Hnd Hin. inversion Hnd as [|? ? H1 H2]. subst.
  destruct (stream_eqb (source s) x) eqn:E.
  - apply stream_eqb_eq in E. subst x. simpl. f_equal.
    assert (Hnone : forall s', In s' t -> stream_eqb (source s') (source s) = false).
    { intros s' Hs'. apply stream_eqb_neq. intro Heq. apply H1.
      rewrite <- Heq. apply in_map. exact Hs'. }
    clear -Hnone. induction t as [|s' t IH]; [reflexivity|].
    simpl. rewrite (Hnone s' (or_introl eq_refl)). apply IH.
    intros s'' Hs''. apply Hnone. right. exact Hs''.
  - apply stream_eqb_neq in E. destruct Hin as [Hin|Hin]; [contradiction|].
    apply IH; assumption.
Qed.



End WithClass.

Lemma registered_live_iff_attached_witness :
  has_live (fst (sample_run
    [Attach; Register [Foreign 1]; Detach; Write "prop" one; Attach]
    sample_instance)) (Foreign 1) = true <->
  isAttached (fst (sample_run
    [Attach; Register [Foreign 1]; Detach; Write "prop" one; Attach]
    sample_instance)) = true.
Proof.
  apply (@registered_live_iff_attached sample_runtime sample_props false
           [Attach; Register [Foreign 1]; Detach; Write "prop" one; Attach]
           (Foreign 1)).
  - reflexivity.
  - vm_compute. tauto.
Defined.

(** C3 as the specification words it, for any sequence of operations,
    fails when the instance is attached twice in a row:
    [connectedCallback] subscribes every stream again and the map forgets
    the first subscription, which the next [disconnectedCallback] cannot
    end. The stream of the renderer is then registered and subscribed on
    an instance that is not attached, and a write is rendered when the
    scheduler runs next. *)
Lemma double_attach_counterexample :
  let this := fst (sample_run [Attach; Attach; Detach] sample_instance) in
  In RenderStream (streams this) /\
  isAttached this = false /\
  has_live this RenderStream = true /\
  rendered (snd (sample_run [Write "prop" one; Tick] this)) = [[("prop", one)]].
Proof. vm_compute. repeat split; auto. Qed.


End LifecycleFacts.

(* ================================================================== *)
(** * The render scheduler *)

Module RenderFacts.
Import Component SubscriptionFacts FeedFacts EffectFacts LifecycleFacts.

Section WithClass.
Context {rt : Runtime}.
Variable props : list (string * ConfigObject).
Variable rearm : bool.

(** ** One subscription of the stream of the renderer *)

Lemma deliver_not_render (cells : list (string * value)) (name : string)
  (v : value) (s : subscription) :
  source s <> RenderStream ->
  rendered (snd (deliver props cells name v s)) = [].
Proof.
  destruct s as [n src ks th tr cl]. unfold deliver, distinct, set_key, close.
  cbn [id source keys throttled trailingValue closed].
  intro H. destruct src; [contradiction| |reflexivity].
  destruct cl; [reflexivity|].
  destruct (assoc_get String.eqb name props) as [c|]; [|reflexivity].
  destruct (PropertyEffects.run v c) as [calls [e|]]; cbn [fst snd].
  - rewrite rendered_app, rendered_effects. reflexivity.
  - destruct (match assoc_get String.eqb name ks with
              | Some key => negb (strict_equal key v)
              | None => true
              end); cbn [fst snd];
      rewrite ?rendered_app, rendered_effects; reflexivity.
Qed.

Lemma clearThrottle_not_render (cells : list (string * value)) (s : subscription) :
  source s <> RenderStream ->
  rendered (snd (clearThrottle rearm cells s)) = [].
Proof.
  unfold clearThrottle. destruct (source s); [contradiction|reflexivity..].
Qed.

(** While the timer runs, or once the chain has ended, nothing is
    rendered at once. *)
Lemma deliver_quiet (cells : list (string * value)) (name : string)
  (v : value) (s : subscription) :
  throttled s || closed s = true ->
  rendered (snd (deliver props cells name v s)) = [] /\
  throttled (fst (deliver props cells name v s)) ||
  closed (fst (deliver props cells name v s)) = true.
Proof.
  destruct s as [n src ks th tr cl].
  unfold deliver, distinct, throttle_next, set_key, close.
  cbn [id source keys throttled trailingValue closed].
  intro H. destruct src; cbn [fst snd throttled closed]; auto;
    (destruct cl; cbn [fst snd throttled closed]; auto;
     destruct (assoc_get String.eqb name props) as [c|];
     cbn [fst snd throttled closed]; auto;
     destruct (PropertyEffects.run v c) as [calls [e|]];
     cbn [fst snd throttled closed];
     [ rewrite rendered_app, rendered_effects; split; [reflexivity|apply orb_true_r]
     | destruct (match assoc_get String.eqb name ks with
                 | Some key => negb (strict_equal key v)
                 | None => true
                 end); cbn [fst snd throttled closed];
       [|rewrite rendered_effects; auto] ]).
  - rewrite orb_false_r in H. subst th. cbn [fst snd throttled closed].
    rewrite rendered_app, rendered_effects. auto.
  - rewrite rendered_app, rendered_effects. auto.
Qed.





(** ** The subscription of the renderer among the others *)

Lemma find_render_none (l : list subscription) :
  ~ In RenderStream (map source l) ->
  find (fun s => stream_eqb (source s) RenderStream) l = None.
Proof.
  induction l as [|s t IH]; simpl; [reflexivity|].
  intro H. destruct (stream_eqb (source s) RenderStream) eqn:E.
  - apply stream_eqb_eq in E. tauto.
  - apply IH. tauto.
Qed.

Lemma each_render (g : subscription -> subscription * list event) :
  local g ->
  (forall s, source s <> RenderStream -> rendered (snd (g s)) = []) ->
  forall l, NoDup (map source l) ->
    rendered (snd (each g l)) =
      match find (fun s => stream_eqb (source s) RenderStream) l with
      | Some s => rendered (snd (g s))
      | None => []
      end /\
    find (fun s => stream_eqb (source s) RenderStream) (fst (each g l)) =
      option_map (fun s => fst (g s))
        (find (fun s => stream_eqb (source s) RenderStream) l).
Proof.
  intros Hg Hother. induction l as [|s t IH]; intro Hnd; [split; reflexivity|].
  simpl in Hnd. inversion Hnd as [|? ? H1 H2]. subst.
  destruct (IH H2) as [IH1 IH2]. clear IH. simpl.
  destruct (Hg s) as (_ & G2 & _). specialize (Hother s).
  destruct (g s) as [s1 out1] eqn:E. destruct (each g t) as [t1 out2].
  cbn [fst snd] in *. rewrite rendered_app. simpl. rewrite G2.
  destruct (stream_eqb (source s) RenderStream) eqn:Es.
  - apply stream_eqb_eq in Es. rewrite Es in H1.
    rewrite (find_render_none _ H1) in IH1. rewrite IH1, app_nil_r.
    cbn [option_map]. rewrite E. split; reflexivity.
  - apply stream_eqb_neq in Es. rewrite (Hother Es). simpl. split; assumption.
Qed.

Lemma set_render (name : string) (v : value) (this : RxWC) :
  assoc_has String.eqb name props = true ->
  NoDup (map source (live this)) ->
  let cells := assoc_set String.eqb name v (triggers this) in
  rendered (snd (set props name v this)) =
    match render_sub this with
    | Some s => rendered (snd (deliver props cells name v s))
    | None => []
    end /\
  render_sub (fst (set props name v this)) =
    option_map (fun s => fst (deliver props cells name v s)) (render_sub this) /\
  map source (live (fst (set props name v this))) = map source (live this) /\
  triggers (fst (set props name v this)) = cells.
Proof.
  intros Hhas Hnd cells. unfold set, render_sub. rewrite Hhas. fold cells.
  destruct (each_render (deliver_local props cells name v)
              (deliver_not_render cells name v) (live this) Hnd) as [H1 H2].
  pose proof (each_sources (deliver_local props cells name v) (live this)) as H3.
  destruct (each (deliver props cells name v) (live this)) as [subs out].
  cbn [fst snd live triggers] in *. auto.
Qed.

Lemma tick_render (this : RxWC) :
  NoDup (map source (live this)) ->
  rendered (snd (tick rearm this)) =
    match render_sub this with
    | Some s => rendered (snd (clearThrottle rearm (triggers this) s))
    | None => []
    end /\
  render_sub (fst (tick rearm this)) =
    option_map (fun s => fst (clearThrottle rearm (triggers this) s))
      (render_sub this) /\
  map source (live (fst (tick rearm this))) = map source (live this) /\
  triggers (fst (tick rearm this)) = triggers this.
Proof.
  intros Hnd. unfold tick, render_sub.
  destruct (each_render (clearThrottle_local rearm (triggers this))
              (clearThrottle_not_render (triggers this)) (live this) Hnd)
    as [H1 H2].
  pose proof (each_sources (clearThrottle_local rearm (triggers this))
                (live this)) as H3.
  destruct (each (clearThrottle rearm (triggers this)) (live this)) as [subs out].
  cbn [fst snd live triggers] in *. auto.
Qed.


Lemma tracked_sources (this : RxWC) :
  tracked this -> NoDup (map source (live this)).
Proof.
  intros [[Hm Hs _ _] _ _]. rewrite <- handle_sources, <- Hm. exact Hs.
Qed.

Lemma getValue_set (name : string) (v : value) (cells : list (string * value)) :
  getValue (assoc_set String.eqb name v cells) name = v.
Proof. unfold getValue. rewrite assoc_get_set. reflexivity. Qed.


(** ** Detached and attached again *)

Lemma passive_lawful (b : bool) (acts : list action) :
  forallb passive acts = true -> lawful b acts = true.
Proof.
  induction acts as [|a rest IH]; simpl; [reflexivity|].
  intro H. apply andb_prop in H. destruct H as [Ha Hr].
  destruct a; try discriminate Ha; auto.
Qed.






Lemma replay_not_render (cells : list (string * value)) (names : list string) :
  forall s,
    source s <> RenderStream ->
    rendered (snd (replay props cells names s)) = [].
Proof.
  induction names as [|name rest IH]; intros s H; simpl; [reflexivity|].
  pose proof (deliver_not_render cells name (getValue cells name) s H) as Q1.
  destruct (deliver_local props cells name (getValue cells name) s) as (_ & Q2 & _).
  destruct (deliver props cells name (getValue cells name) s) as [s1 out1].
  simpl in *. rewrite <- Q2 in H. specialize (IH s1 H).
  destruct (replay props cells rest s1) as [s2 out2]. simpl in *.
  rewrite rendered_app, Q1, IH. reflexivity.
Qed.


Lemma subscribe_stream_other (cells : list (string * value)) (n : nat)
  (st : stream) :
  st <> RenderStream ->
  rendered (snd (subscribe_stream props cells n st)) = [].
Proof.
  intro H. unfold subscribe_stream. destruct st; [contradiction| |reflexivity].
  destruct props as [|p ps] eqn:E; [reflexivity|].
  cbv beta iota zeta. rewrite <- E.
  apply replay_not_render. exact H.
Qed.



End WithClass.





End RenderFacts.

(* ================================================================== *)
(** * Attribute changes *)

Module AttributeFacts.
Import Component SubscriptionFacts FeedFacts.

Section WithClass.
Context {rt : Runtime}.
Variable props : list (string * ConfigObject).
Variable rearm : bool.

Lemma signals_app (a b : list event) : signals (a ++ b) = signals a ++ signals b.
Proof. unfold signals. apply flat_map_app. Qed.

Lemma signals_own (n : nat) (out : list event) :
  Forall (fun e => sub_of e = Some n) out -> signals out = [].
Proof.
  induction 1 as [|e t He Ht IH]; [reflexivity|].
  destruct e; try discriminate He; exact IH.
Qed.

Lemma signals_each (g : subscription -> subscription * list event)
  (l : list subscription) :
  local g -> signals (snd (each g l)) = [].
Proof.
  intro Hg. induction l as [|s t IH]; simpl; [reflexivity|].
  destruct (Hg s) as (_ & _ & H3).
  destruct (g s) as [s1 out1]. destruct (each g t) as [t1 out2].
  simpl in *. rewrite signals_app, (signals_own H3), IH. reflexivity.
Qed.

(** A write emits no lifecycle signal. *)
Lemma signals_set (name : string) (v : value) (this : RxWC) :
  signals (snd (set props name v this)) = [].
Proof.
  unfold set. destruct (assoc_has String.eqb name props); [|reflexivity].
  pose proof (signals_each (live this)
    (deliver_local props (assoc_set String.eqb name v (triggers this)) name v))
    as H.
  destruct (each _ (live this)) as [subs out]. exact H.
Qed.

(** A change to another value, under a name with a configuration, of a
    text that decodes: the signal, then one write. *)
Lemma callback_writes (attr oldValue newValue : string) (this : RxWC)
  (c : ConfigObject) (v : value) :
  String.eqb oldValue newValue = false ->
  assoc_get String.eqb (Utils.toCamelCase attr) props = Some c ->
  Codec.deserialize newValue c = Ok v ->
  attributeChangedCallback props attr oldValue newValue this =
    (fst (set props (Utils.toCamelCase attr) v this),
     Signal (AttributeChanged attr oldValue newValue)
       :: snd (set props (Utils.toCamelCase attr) v this)).
Proof.
  intros Hne Hc Hd. unfold attributeChangedCallback. rewrite Hne, Hc, Hd.
  destruct (set props (Utils.toCamelCase attr) v this); reflexivity.
Qed.

(** C8, as the code has it: a change to the same value does nothing. A
    change to another value emits the signal, once, with the name and the
    two values. When the camel-cased name is an observed property and the
    new value decodes, the callback then is exactly one write of the
    decoded value to that property. When the name is no observed property
    but one that every object inherits from [Object.prototype]
    ([constructor], [toString], ...), the value is decoded with what is
    inherited for configuration and assigned to the element under that
    name: no property is written. When decoding throws, or the name is
    neither observed nor inherited, the exception leaves the callback and
    nothing is written. *)
Theorem attribute_change (attr oldValue newValue : string) (this : RxWC) :
  attributeChangedCallback props attr oldValue oldValue this = (this, []) /\
  (String.eqb oldValue newValue = false ->
   let signal := Signal (AttributeChanged attr oldValue newValue) in
   let name := Utils.toCamelCase attr in
   signals (snd (attributeChangedCallback props attr oldValue newValue this))
     = [AttributeChanged attr oldValue newValue] /\
   (forall c v,
      assoc_get String.eqb name props = Some c ->
      Codec.deserialize newValue c = Ok v ->
      attributeChangedCallback props attr oldValue newValue this =
        (fst (set props name v this), signal :: snd (set props name v this))) /\
   (forall c e,
      assoc_get String.eqb name props = Some c ->
      Codec.deserialize newValue c = Throw e ->
      attributeChangedCallback props attr oldValue newValue this =
        (this, [signal; Thrown e])) /\
   (forall m v,
      assoc_get String.eqb name props = None ->
      Object_prototype name = Some m ->
      Codec.deserialize newValue m = Ok v ->
      attributeChangedCallback props attr oldValue newValue this =
        (this, [signal; Assigned name v])) /\
   (forall m e,
      assoc_get String.eqb name props = None ->
      Object_prototype name = Some m ->
      Codec.deserialize newValue m = Throw e ->
      attributeChangedCallback props attr oldValue newValue this =
        (this, [signal; Thrown e])) /\
   (assoc_get String.eqb name props = None ->
    Object_prototype name = None ->
      attributeChangedCallback props attr oldValue newValue this =
        (this, [signal; Thrown TypeError]))).
Proof.
  split.
  - unfold attributeChangedCallback. rewrite String.eqb_refl. reflexivity.
  - intros Hne signal name. split; [|split; [|split; [|split; [|split]]]].
    + unfold attributeChangedCallback. rewrite Hne. fold name.
      destruct (assoc_get String.eqb name props) as [c|].
      * destruct (Codec.deserialize newValue c) as [v|e]; [|reflexivity].
        pose proof (signals_set name v this) as H.
        destruct (set props name v this) as [this1 out]. simpl in *.
        rewrite H. reflexivity.
      * destruct (Object_prototype name) as [m|]; [|reflexivity].
        destruct (Codec.deserialize newValue m); reflexivity.
    + intros c v Hc Hd.
      apply (@callback_writes attr oldValue newValue this c v Hne Hc Hd).
    + intros c e Hc Hd. unfold attributeChangedCallback. fold name.
      rewrite Hne, Hc, Hd. reflexivity.
    + intros m v Hc Hm Hd. unfold attributeChangedCallback. fold name.
      rewrite Hne, Hc, Hm, Hd. reflexivity.
    + intros m e Hc Hm Hd. unfold attributeChangedCallback. fold name.
      rewrite Hne, Hc, Hm, Hd. reflexivity.
    + intros Hc Hm. unfold attributeChangedCallback. fold name.
      rewrite Hne, Hc, Hm. reflexivity.
Qed.

(** C10: a name made of letters and digits comes back from its kebab
    case; the attribute that [observedAttributes] lists for a declared
    property of such a name is the kebab case, and a change that the host
    reports under it is written to the property of that name. *)
Theorem kebab_camel_roundtrip (name : string) :
  alphanumeric name = true ->
  Utils.toCamelCase (Utils.toKebabCase name) = name /\
  (forall c, In (name, c) props ->
     In (Utils.toKebabCase name) (observedAttributes props)) /\
  (forall this oldValue newValue c v,
     String.eqb oldValue newValue = false ->
     assoc_get String.eqb name props = Some c ->
     Codec.deserialize newValue c = Ok v ->
     attributeChangedCallback props (Utils.toKebabCase name)
       oldValue newValue this =
     (fst (set props name v this),
      Signal (AttributeChanged (Utils.toKebabCase name) oldValue newValue)
        :: snd (set props name v this))).
Proof.
  intro H.
  pose proof (NameFacts.roundtrip_plain name (NameFacts.alphanumeric_plain name H))
    as R.
  split; [exact R|]. split.
  - intros c Hin. unfold observedAttributes.
    apply in_map. apply (in_map fst) in Hin. exact Hin.
  - intros this o n c v Hne Hc Hd.
    rewrite <- R in Hc.
    rewrite (@callback_writes (Utils.toKebabCase name) o n this c v Hne Hc Hd), R.
    reflexivity.
Qed.

End WithClass.

Lemma attribute_change_witness :
  signals (snd (attributeChangedCallback (rt := sample_runtime) sample_props
                  "prop" "1" "3" sample_attached))
    = [AttributeChanged "prop" "1" "3"] /\
  attributeChangedCallback (rt := sample_runtime) sample_props
    "prop" "1" "3" sample_attached =
  (fst (set (rt := sample_runtime) sample_props "prop" (VNumber (Num 3))
          sample_attached),
   Signal (AttributeChanged "prop" "1" "3")
     :: snd (set (rt := sample_runtime) sample_props "prop" (VNumber (Num 3))
               sample_attached)).
Proof.
  destruct (@attribute_change sample_runtime sample_props
              "prop" "1" "3" sample_attached) as [_ H].
  destruct (H eq_refl) as (H1 & H2 & _).
  split; [exact H1|].
  apply (H2 (snd (observed "prop")) (VNumber (Num 3))); reflexivity.
Defined.

(** C8 as the specification words it fails when the new value does not
    decode: the signal is emitted, the converter throws, and the property
    is not written. It fails for names without a property too: under
    [to-string] the value is assigned to the member [toString] of the
    element, and under a name that is nothing at all the callback
    throws. *)
Lemma attribute_decode_counterexample :
  String.eqb "a" "b" = false /\
  attributeChangedCallback (rt := sample_runtime) strict_props
    "prop" "a" "b" (constructor strict_props) =
  (constructor strict_props,
   [Signal (AttributeChanged "prop" "a" "b"); Thrown SyntaxError]) /\
  attributeChangedCallback (rt := sample_runtime) sample_props
    "to-string" "a" "b" sample_attached =
  (sample_attached,
   [Signal (AttributeChanged "to-string" "a" "b");
    Assigned "toString" (VString "b")]) /\
  attributeChangedCallback (rt := sample_runtime) sample_props
    "other" "a" "b" sample_attached =
  (sample_attached,
   [Signal (AttributeChanged "other" "a" "b"); Thrown TypeError]).
Proof. repeat split. Qed.

Lemma kebab_camel_roundtrip_witness :
  Utils.toCamelCase (Utils.toKebabCase "myProp2Name") = "myProp2Name" /\
  In (Utils.toKebabCase "myProp2Name")
    (observedAttributes [observed "myProp2Name"]).
Proof.
  destruct (@kebab_camel_roundtrip sample_runtime [observed "myProp2Name"]
              "myProp2Name" eq_refl) as (H1 & H2 & _).
  split; [exact H1|]. apply (H2 (snd (observed "myProp2Name"))).
  left. reflexivity.
Defined.

End AttributeFacts.

(* ================================================================== *)
(** * The tests of the repository, replayed

    The scenarios of [rx-component.test.ts] on the instance of the
    examples; a [pause] of the test is a run of the scheduler. The
    initialiser of a class field is a write before the host attaches the
    element. *)

Module RepositoryTests.
Import Component.

(** "should render changes throttled by provided scheduler": four calls
    of the renderer, which read 0, 1, 2 and 10. *)
Example render_changes_throttled :
  rendered (snd (sample_run
    [Write "prop" (VNumber (Num 0)); Attach;
     Write "prop" one; Tick; Tick;
     Write "prop" two; Write "prop" (VNumber (Num 3));
     Write "prop" (VNumber (Num 4)); Write "prop" (VNumber (Num 10)); Tick;
     Detach] sample_instance)) =
  [[("prop", VNumber (Num 0))]; [("prop", one)]; [("prop", two)];
   [("prop", VNumber (Num 10))]].
Proof. reflexivity. Qed.

(** "should skip duplicate property changes": after the first render,
    one more for six writes of the same value. *)
Example skip_duplicate_changes :
  rendered (snd (sample_run
    [Write "prop" one; Tick; Write "prop" one; Tick; Write "prop" one; Tick;
     Write "prop" one; Tick; Write "prop" one; Tick; Write "prop" one; Tick;
     Detach]
    (fst (sample_run [Write "prop" (VNumber (Num 0)); Attach] sample_instance))))
  = [[("prop", one)]].
Proof. reflexivity. Qed.

(** "should stop repaining when the element is unattached, and resume
    when it is reattached": the counts 1, 2, 2, 3 and 4 of the test. *)
Example stop_and_resume :
  let count l := List.length (rendered (snd (sample_run l sample_instance))) in
  let start := [Write "prop" (VNumber (Num 0)); Attach] in
  let change := start ++ [Tick; Write "prop" one; Tick] in
  let away := change ++ [Detach; Write "prop" two; Tick] in
  let back := away ++ [Attach] in
  let again := back ++ [Write "prop" (VNumber (Num 3)); Tick] in
  (count start, count change, count away, count back, count again) =
  (1, 2, 2, 3, 4).
Proof. reflexivity. Qed.

(** "should only subscribe the same observables once" *)
Example subscribe_once :
  executions (fst (sample_run
    [Attach; Register [Foreign 0; Foreign 0]; Register [Foreign 0]]
    sample_instance)) (Foreign 0) = 1.
Proof. reflexivity. Qed.

(** "should emit each property change in an observable stream": a stream
    derived from [propertyChanged$] and registered on the attached
    instance hears of each write once. *)
Example each_change_emitted :
  changed_in 1 (snd (sample_run
    [Write "prop" two]
    (fst (sample_run [Write "prop" one; Attach; Register [PropertyChanged 0]]
            sample_instance)))) = [("prop", two)].
Proof. reflexivity. Qed.

End RepositoryTests.

(* ================================================================== *)
(** * More about names and the codec *)

Module UtilsExtra.
Import Utils.

Lemma humps_fixed (s : string) :
  no_upper s = true -> replace_camel_humps s = s.
Proof.
  enough (H : forall t, (no_upper t = true -> replace_camel_humps t = t) /\
                        (forall a, no_upper (String a t) = true ->
                                   replace_camel_humps (String a t) = String a t))
    by apply H.
  induction t as [|b t IH].
  - split; [reflexivity|]. intros a _. reflexivity.
  - destruct IH as [IH1 IH2]. split; [apply IH2|].
    intros a H. cbn [no_upper] in H.
    apply andb_prop in H. destruct H as [_ H].
    pose proof H as Hbt.
    apply andb_prop in H. destruct H as [Hb _].
    apply negb_true_iff in Hb.
    rewrite NameFacts.humps_cons, Hb, andb_false_r.
    f_equal. apply IH2. exact Hbt.
Qed.

Lemma camel_fixed (s : string) : plain s = true -> toCamelCase s = s.
Proof.
  enough (H : forall t, (plain t = true -> toCamelCase t = t) /\
                        (forall a, plain (String a t) = true ->
                                   toCamelCase (String a t) = String a t))
    by apply H.
  induction t as [|b t IH].
  - split; [reflexivity|]. intros a _. reflexivity.
  - destruct IH as [IH1 IH2]. split; [apply IH2|].
    intros a H. cbn [plain] in H.
    apply andb_prop in H. destruct H as [Ha Hbt].
    apply negb_true_iff in Ha.
    rewrite NameFacts.camel_cons, Ha. cbn [andb].
    f_equal. apply IH2. exact Hbt.
Qed.

(** X1: a name without capital letters and underscores is its own kebab
    case, and a name without hyphens and underscores is its own camel
    case: a property with an all-lowercase name is observed under its own
    name. *)
Theorem lowercase_names_fixed (s : string) :
  (no_upper s = true -> no_underscore s = true -> toKebabCase s = s) /\
  (plain s = true -> toCamelCase s = s).
Proof.
  split.
  - intros Hu Hn. unfold toKebabCase. rewrite humps_fixed by exact Hu.
    apply NameFacts.replace_underscores_none. exact Hn.
  - apply camel_fixed.
Qed.

Lemma lowercase_names_fixed_witness :
  toKebabCase "my-prop1" = "my-prop1" /\ toCamelCase "prop1" = "prop1".
Proof.
  split.
  - destruct (lowercase_names_fixed "my-prop1") as [H _].
    apply H; reflexivity.
  - destruct (lowercase_names_fixed "prop1") as [_ H].
    apply H. reflexivity.
Defined.

End UtilsExtra.

Module CodecExtra.
Import Codec.

Section WithRuntime.
Context {rt : Runtime}.

(** X2: with the [Boolean] converter, what [serialize] makes of a boolean
    is decoded as [true], for [false] too: [false] is written as the
    text "false", and only the text "null" is read as [false]. *)
Theorem boolean_not_recovered (b : bool) (c : ConfigObject) :
  converter c = Some Boolean ->
  exists text,
    serialize (VBoolean b) c = Ok (VString text) /\
    deserialize text c = Ok (VBoolean true) /\
    deserialize "null" c = Ok (VBoolean false).
Proof.
  intro H. unfold serialize, deserialize. rewrite H. simpl.
  destruct b; simpl; eexists; repeat split.
Qed.

(** X3: without a converter, a string that does not look like JSON (it
    is none of [null], [true], [false], does not begin with a bracket, a
    brace or a quote and has no digit) is written as it is and read back
    as it is, and [JSON.parse] is not asked. *)
Theorem plain_text_roundtrip (s : string) (c : ConfigObject) :
  converter c = None ->
  looks_like_json s = false ->
  serialize (VString s) c = Ok (VString s) /\
  deserialize s c = Ok (VString s).
Proof.
  intros Hc Hl. unfold serialize, deserialize. rewrite Hc, Hl. simpl.
  destruct s; split; reflexivity.
Qed.

End WithRuntime.

Lemma boolean_not_recovered_witness :
  exists text,
    serialize (rt := sample_runtime) (VBoolean false)
      (mkConfig (Some Boolean) None None None) = Ok (VString text) /\
    deserialize (rt := sample_runtime) text
      (mkConfig (Some Boolean) None None None) = Ok (VBoolean true) /\
    deserialize (rt := sample_runtime) "null"
      (mkConfig (Some Boolean) None None None) = Ok (VBoolean false).
Proof.
  apply (@boolean_not_recovered sample_runtime false
           (mkConfig (Some Boolean) None None None)).
  reflexivity.
Defined.

Lemma plain_text_roundtrip_witness :
  serialize (rt := sample_runtime) (VString "test") empty_config
    = Ok (VString "test") /\
  deserialize (rt := sample_runtime) "test" empty_config = Ok (VString "test").
Proof.
  apply (@plain_text_roundtrip sample_runtime "test" empty_config); reflexivity.
Defined.

End CodecExtra.

(* ================================================================== *)
(** * More about the configuration store *)

Module DecoratorExtra.
Import Decorators.

Lemma key_eqb_eq (a b : PropertyKey) : key_eqb a b = true <-> a = b.
Proof.
  destruct a, b; simpl; split; intro H; try discriminate.
  - apply String.eqb_eq in H. subst. reflexivity.
  - injection H as ->. apply String.eqb_refl.
  - apply Nat.eqb_eq in H. subst. reflexivity.
  - injection H as ->. apply Nat.eqb_refl.
Qed.

Lemma key_eqb_refl (a : PropertyKey) : key_eqb a a = true.
Proof. apply key_eqb_eq. reflexivity. Qed.

(** ** The entries of an object *)

Lemma own_replace_same (k : PropertyKey) (c c0 : ConfigObject)
  (l : list (PropertyKey * ConfigObject)) :
  own k l = Some c0 -> own k (replace k c l) = Some c.
Proof.
  induction l as [|[k' c'] t IH]; simpl; [discriminate|].
  destruct (key_eqb k k') eqn:E; simpl; rewrite E; auto.
Qed.

Lemma own_replace_other (k k' : PropertyKey) (c : ConfigObject)
  (l : list (PropertyKey * ConfigObject)) :
  key_eqb k' k = false -> own k' (replace k c l) = own k' l.
Proof.
  intro H. induction l as [|[k0 c0] t IH]; simpl; [reflexivity|].
  destruct (key_eqb k k0) eqn:E; simpl.
  - apply key_eqb_eq in E. subst k0. rewrite H. reflexivity.
  - destruct (key_eqb k' k0); auto.
Qed.

Lemma own_insert_same (n : N) (k : PropertyKey) (c : ConfigObject)
  (l : list (PropertyKey * ConfigObject)) :
  own k l = None -> own k (insert n k c l) = Some c.
Proof.
  induction l as [|[k' c'] t IH]; simpl.
  - rewrite key_eqb_refl. reflexivity.
  - destruct (key_eqb k k') eqn:E; [discriminate|]. intro H.
    destruct (index_of k') as [m|]; [destruct (N.ltb m n)|]; simpl;
      rewrite ?E, ?key_eqb_refl; auto.
Qed.

Lemma own_insert_other (n : N) (k k' : PropertyKey) (c : ConfigObject)
  (l : list (PropertyKey * ConfigObject)) :
  key_eqb k' k = false -> own k' (insert n k c l) = own k' l.
Proof.
  intro H. induction l as [|[k0 c0] t IH]; simpl.
  - rewrite H. reflexivity.
  - destruct (index_of k0) as [m|]; [destruct (N.ltb m n)|]; simpl;
      rewrite ?H, ?IH; reflexivity.
Qed.

Lemma own_app (k : PropertyKey) (a b : list (PropertyKey * ConfigObject)) :
  own k (a ++ b) = match own k a with Some c => Some c | None => own k b end.
Proof.
  induction a as [|[k' c'] t IH]; simpl; [reflexivity|].
  destruct (key_eqb k k'); auto.
Qed.

Lemma own_assign_same (k : PropertyKey) (c : ConfigObject)
  (l : list (PropertyKey * ConfigObject)) :
  own k (assign k c l) = Some c.
Proof.
  unfold assign. destruct (own k l) as [c0|] eqn:E.
  - eapply own_replace_same. exact E.
  - destruct (index_of k) as [n|].
    + apply own_insert_same. exact E.
    + rewrite own_app, E. simpl. rewrite key_eqb_refl. reflexivity.
Qed.

Lemma own_assign_other (k k' : PropertyKey) (c : ConfigObject)
  (l : list (PropertyKey * ConfigObject)) :
  key_eqb k' k = false -> own k' (assign k c l) = own k' l.
Proof.
  intro H. unfold assign. destruct (own k l) as [c0|].
  - apply own_replace_other. exact H.
  - destruct (index_of k) as [n|].
    + apply own_insert_other. exact H.
    + rewrite own_app. simpl. rewrite H. destruct (own k' l); reflexivity.
Qed.

Lemma replace_replace (k : PropertyKey) (c1 c2 : ConfigObject)
  (l : list (PropertyKey * ConfigObject)) :
  replace k c2 (replace k c1 l) = replace k c2 l.
Proof.
  induction l as [|[k' c'] t IH]; simpl; [reflexivity|].
  destruct (key_eqb k k') eqn:E; simpl; rewrite E; [reflexivity|].
  f_equal. exact IH.
Qed.

Lemma replace_insert (n : N) (k : PropertyKey) (c1 c2 : ConfigObject)
  (l : list (PropertyKey * ConfigObject)) :
  own k l = None -> replace k c2 (insert n k c1 l) = insert n k c2 l.
Proof.
  induction l as [|[k' c'] t IH]; simpl.
  - rewrite key_eqb_refl. reflexivity.
  - destruct (key_eqb k k') eqn:E; [discriminate|]. intro H.
    destruct (index_of k') as [m|]; [destruct (N.ltb m n)|]; simpl;
      rewrite ?E, ?key_eqb_refl; try reflexivity.
    f_equal. apply IH. exact H.
Qed.

Lemma replace_app (k : PropertyKey) (c1 c2 : ConfigObject)
  (l : list (PropertyKey * ConfigObject)) :
  own k l = None -> replace k c2 (l ++ [(k, c1)]) = l ++ [(k, c2)].
Proof.
  induction l as [|[k' c'] t IH]; simpl.
  - rewrite key_eqb_refl. reflexivity.
  - destruct (key_eqb k k') eqn:E; [discriminate|]. intro H.
    f_equal. apply IH. exact H.
Qed.

Lemma assign_assign (k : PropertyKey) (c1 c2 : ConfigObject)
  (l : list (PropertyKey * ConfigObject)) :
  assign k c2 (assign k c1 l) = assign k c2 l.
Proof.
  unfold assign at 1. rewrite own_assign_same. unfold assign.
  destruct (own k l) as [c0|] eqn:E.
  - apply replace_replace.
  - destruct (index_of k) as [n|].
    + apply replace_insert. exact E.
    + apply replace_app. exact E.
Qed.

Lemma names_has (n : string) (l : list (PropertyKey * ConfigObject)) :
  set_has String.eqb n (map fst (string_entries l)) =
  match own (KString n) l with Some _ => true | None => false end.
Proof.
  induction l as [|[[s|m] c'] t IH]; simpl; [reflexivity| |exact IH].
  destruct (String.eqb n s); simpl; [reflexivity|exact IH].
Qed.

Lemma names_replace (k : PropertyKey) (c : ConfigObject)
  (l : list (PropertyKey * ConfigObject)) :
  map fst (string_entries (replace k c l)) = map fst (string_entries l).
Proof.
  induction l as [|[k' c'] t IH]; simpl; [reflexivity|].
  destruct (key_eqb k k'); simpl; [destruct k'; reflexivity|].
  destruct k'; simpl; rewrite IH; reflexivity.
Qed.

Lemma string_entries_app (a b : list (PropertyKey * ConfigObject)) :
  string_entries (a ++ b) = string_entries a ++ string_entries b.
Proof.
  induction a as [|[[s|m] c'] t IH]; simpl; rewrite ?IH; reflexivity.
Qed.

(** A name that is no array index goes to the end of the keys. *)
Lemma names_assign (n : string) (c : ConfigObject)
  (l : list (PropertyKey * ConfigObject)) :
  array_index n = None ->
  map fst (string_entries (assign (KString n) c l)) =
  set_add String.eqb n (map fst (string_entries l)).
Proof.
  intro Hn. unfold set_add, assign. rewrite names_has.
  destruct (own (KString n) l).
  - apply names_replace.
  - simpl. rewrite Hn, string_entries_app, map_app. reflexivity.
Qed.

Lemma assoc_set_set (name : string) (c1 c2 : ConfigObject)
  (l : list (string * ConfigObject)) :
  assoc_set String.eqb name c2 (assoc_set String.eqb name c1 l) =
  assoc_set String.eqb name c2 l.
Proof.
  induction l as [|[k c] t IH]; simpl.
  - rewrite String.eqb_refl. reflexivity.
  - destruct (String.eqb name k) eqn:E; simpl; rewrite E; [reflexivity|].
    f_equal. exact IH.
Qed.

Lemma assoc_set_get (name : string) (c : ConfigObject)
  (l : list (string * ConfigObject)) :
  assoc_get String.eqb name (assoc_set String.eqb name c l) = Some c.
Proof.
  induction l as [|[k w] t IH]; simpl.
  - rewrite String.eqb_refl. reflexivity.
  - destruct (String.eqb name k) eqn:E; simpl; rewrite E; auto.
Qed.

(** ** What a decorator leaves, by what the key evaluates to *)

(** The prototype once the objects that hold the entries exist. *)
Lemma getPropertyConfig_found (p : Prototype) (k : PropertyKey) (r : reference) :
  resolve p k = Some r ->
  getPropertyConfig p k =
  ({| CONFIG := Some {| properties := Some (entries p) |}; realm := realm p |}, r).
Proof. intro H. unfold getPropertyConfig. rewrite H. reflexivity. Qed.

Lemma getPropertyConfig_created (p : Prototype) (k : PropertyKey) :
  resolve p k = None ->
  getPropertyConfig p k =
  ({| CONFIG := Some {| properties := Some (assign k empty_config (entries p)) |};
      realm := realm p |}, Entry).
Proof. intro H. unfold getPropertyConfig. rewrite H. reflexivity. Qed.

Lemma resolve_own (p : Prototype) (k : PropertyKey) :
  resolve p k = Some Entry <-> own k (entries p) <> None.
Proof.
  unfold resolve. destruct (own k (entries p)) as [c|]; split; intro H;
    try congruence.
  destruct k as [name|n]; [|discriminate H].
    unfold inherited in H. destruct (String.eqb name "__proto__"); [discriminate|].
    destruct (assoc_get String.eqb name (members (realm p))); [discriminate|].
    destruct (String.eqb name "attribute");
      [destruct (missing (attribute (fields (realm p)))); discriminate|].
    destruct (String.eqb name "notify");
      [destruct (missing (Types.notify (fields (realm p)))); discriminate|].
    destruct (String.eqb name "reflect");
      [destruct (Types.reflect (fields (realm p))) as [[]|]; discriminate|].
    destruct (String.eqb name "converter");
      [destruct (converter (fields (realm p))); discriminate|discriminate].
Qed.

(** What every decorator does, whatever the key evaluates to. *)
Lemma decorator_updates (d : decoration) (p : Prototype) (name : string) :
  decorator_of d p (KString name) =
  write (fst (getPropertyConfig p (KString name))) (KString name)
    (snd (getPropertyConfig p (KString name)))
    (configure d name (fields (realm p))
       (read (fst (getPropertyConfig p (KString name))) (KString name)
          (snd (getPropertyConfig p (KString name))))).
Proof.
  assert (R : realm (fst (getPropertyConfig p (KString name))) = realm p).
  { unfold getPropertyConfig. destruct (resolve p (KString name)); reflexivity. }
  destruct d; simpl;
    unfold observe, toggleAttr, withConverter, Decorators.notify,
      Decorators.reflect;
    destruct (getPropertyConfig p (KString name)) as [p1 r];
    cbn [fst snd] in *; try reflexivity.
  unfold lacks_converter. rewrite R.
  destruct r; cbn [write converter]; try reflexivity;
    destruct (converter (read p1 (KString name) _)),
             (converter (fields (realm p))); reflexivity.
Qed.

(** On a key that is or becomes an entry. *)
Lemma decorator_entry (d : decoration) (p : Prototype) (name : string) :
  ordinary p name = true ->
  decorator_of d p (KString name) =
  ({| CONFIG := Some {| properties :=
        Some (assign (KString name)
                (configure d name (fields (realm p)) (current p (KString name)))
                (entries p)) |};
      realm := realm p |}, None).
Proof.
  intro H. rewrite decorator_updates. unfold ordinary in H. unfold current.
  destruct (resolve p (KString name)) as [r|] eqn:E.
  - destruct r; try discriminate H.
    rewrite (@getPropertyConfig_found _ _ _ E). cbn [fst snd write read].
    cbn [entries CONFIG properties realm]. reflexivity.
  - rewrite (@getPropertyConfig_created _ _ E). cbn [fst snd write read].
    cbn [entries CONFIG properties realm].
    rewrite own_assign_same, assign_assign.
    assert (O : own (KString name) (entries p) = None).
    { unfold resolve in E. destruct (own (KString name) (entries p));
        [discriminate|reflexivity]. }
    rewrite O. reflexivity.
Qed.

Lemma resolve_member (p : Prototype) (name m : string) :
  resolve p (KString name) = Some (Member m) ->
  m = name /\ own (KString name) (entries p) = None /\
  String.eqb name "__proto__" = false /\
  assoc_get String.eqb name (members (realm p)) <> None.
Proof.
  unfold resolve, inherited.
  destruct (own (KString name) (entries p)); [discriminate|].
  destruct (String.eqb name "__proto__"); [discriminate|].
  destruct (assoc_get String.eqb name (members (realm p))).
  - intro H. injection H as <-. repeat split. discriminate.
  - destruct (String.eqb name "attribute");
      [destruct (missing (attribute (fields (realm p)))); discriminate|].
    destruct (String.eqb name "notify");
      [destruct (missing (Types.notify (fields (realm p)))); discriminate|].
    destruct (String.eqb name "reflect");
      [destruct (Types.reflect (fields (realm p))) as [[]|]; discriminate|].
    destruct (String.eqb name "converter");
      [destruct (converter (fields (realm p))); discriminate|discriminate].
Qed.

(** On a key that is a member of [Object.prototype]. *)
Lemma decorator_member (d : decoration) (p : Prototype) (name m : string) :
  resolve p (KString name) = Some (Member m) ->
  decorator_of d p (KString name) =
  ({| CONFIG := Some {| properties := Some (entries p) |};
      realm := {| members :=
                    assoc_set String.eqb name
                      (configure d name (fields (realm p)) (member_fields p name))
                      (members (realm p));
                  fields := fields (realm p) |} |}, None).
Proof.
  intro E. destruct (@resolve_member _ _ _ E) as (-> & _).
  rewrite decorator_updates, (@getPropertyConfig_found _ _ _ E).
  reflexivity.
Qed.

Lemma resolve_root (p : Prototype) (name : string) :
  resolve p (KString name) = Some Root ->
  own (KString name) (entries p) = None /\ String.eqb name "__proto__" = true.
Proof.
  unfold resolve, inherited.
  destruct (own (KString name) (entries p)); [discriminate|].
  destruct (String.eqb name "__proto__"); [auto|].
  destruct (assoc_get String.eqb name (members (realm p))); [discriminate|].
  destruct (String.eqb name "attribute");
    [destruct (missing (attribute (fields (realm p)))); discriminate|].
  destruct (String.eqb name "notify");
    [destruct (missing (Types.notify (fields (realm p)))); discriminate|].
  destruct (String.eqb name "reflect");
    [destruct (Types.reflect (fields (realm p))) as [[]|]; discriminate|].
  destruct (String.eqb name "converter");
    [destruct (converter (fields (realm p))); discriminate|discriminate].
Qed.

(** On the key [__proto__]. *)
Lemma decorator_root (d : decoration) (p : Prototype) (name : string) :
  resolve p (KString name) = Some Root ->
  decorator_of d p (KString name) =
  ({| CONFIG := Some {| properties := Some (entries p) |};
      realm := {| members := members (realm p);
                  fields := configure d name (fields (realm p))
                              (fields (realm p)) |} |}, None).
Proof.
  intro E. rewrite decorator_updates, (@getPropertyConfig_found _ _ _ E).
  reflexivity.
Qed.

(** On a key under which a string or a boolean is inherited, and on the
    key under which the converter is. *)
Lemma decorator_scalar (d : decoration) (p : Prototype) (name : string) :
  resolve p (KString name) = Some Scalar ->
  decorator_of d p (KString name) =
  ({| CONFIG := Some {| properties := Some (entries p) |}; realm := realm p |},
   Some TypeError).
Proof.
  intro E. rewrite decorator_updates, (@getPropertyConfig_found _ _ _ E).
  reflexivity.
Qed.

Lemma decorator_foreign (d : decoration) (p : Prototype) (name : string) :
  resolve p (KString name) = Some Foreign ->
  decorator_of d p (KString name) =
  ({| CONFIG := Some {| properties := Some (entries p) |}; realm := realm p |},
   None).
Proof.
  intro E. rewrite decorator_updates, (@getPropertyConfig_found _ _ _ E).
  reflexivity.
Qed.

(** Once the objects that hold the entries exist the key evaluates to
    what it evaluated to before. *)
Lemma resolve_prepared (p : Prototype) (k : PropertyKey) :
  resolve {| CONFIG := Some {| properties := Some (entries p) |};
             realm := realm p |} k = resolve p k.
Proof. reflexivity. Qed.

Lemma resolve_after_entry (p : Prototype) (k : PropertyKey) (c : ConfigObject) :
  resolve {| CONFIG := Some {| properties := Some (assign k c (entries p)) |};
             realm := realm p |} k = Some Entry.
Proof.
  unfold resolve. cbn [entries CONFIG properties].
  rewrite own_assign_same. reflexivity.
Qed.

Lemma resolve_after_member (p : Prototype) (name m : string) (c : ConfigObject) :
  resolve p (KString name) = Some (Member m) ->
  resolve {| CONFIG := Some {| properties := Some (entries p) |};
             realm := {| members := assoc_set String.eqb name c (members (realm p));
                         fields := fields (realm p) |} |} (KString name)
  = Some (Member name).
Proof.
  intro E. destruct (@resolve_member _ _ _ E) as (_ & O & N & _).
  unfold resolve, inherited. cbn [entries CONFIG properties realm members].
  rewrite O, N, assoc_set_get. reflexivity.
Qed.

Lemma resolve_after_root (p : Prototype) (name : string) (c : ConfigObject) :
  resolve p (KString name) = Some Root ->
  resolve {| CONFIG := Some {| properties := Some (entries p) |};
             realm := {| members := members (realm p); fields := c |} |}
    (KString name) = Some Root.
Proof.
  intro E. destruct (@resolve_root _ _ E) as (O & N).
  unfold resolve, inherited. cbn [entries CONFIG properties realm].
  rewrite O, N. reflexivity.
Qed.

(** What two decorators in a row leave of the prototype. *)
Lemma decorator_twice (d1 d2 : decoration) (p : Prototype) (name : string) :
  fst (decorator_of d2 (fst (decorator_of d1 p (KString name))) (KString name)) =
  match resolve p (KString name) with
  | Some Entry | None =>
      {| CONFIG := Some {| properties :=
           Some (assign (KString name)
                   (configure d2 name (fields (realm p))
                      (configure d1 name (fields (realm p))
                         (current p (KString name))))
                   (entries p)) |};
         realm := realm p |}
  | Some (Member _) =>
      {| CONFIG := Some {| properties := Some (entries p) |};
         realm := {| members :=
                       assoc_set String.eqb name
                         (configure d2 name (fields (realm p))
                            (configure d1 name (fields (realm p))
                               (member_fields p name)))
                         (members (realm p));
                     fields := fields (realm p) |} |}
  | Some Root =>
      {| CONFIG := Some {| properties := Some (entries p) |};
         realm := {| members := members (realm p);
                     fields :=
                       configure d2 name
                         (configure d1 name (fields (realm p)) (fields (realm p)))
                         (configure d1 name (fields (realm p)) (fields (realm p)))
                   |} |}
  | Some Scalar | Some Foreign =>
      {| CONFIG := Some {| properties := Some (entries p) |}; realm := realm p |}
  end.
Proof.
  destruct (resolve p (KString name)) as [[]|] eqn:E.
  - assert (H : ordinary p name = true) by (unfold ordinary; rewrite E; reflexivity).
    rewrite (@decorator_entry d1 _ _ H). cbn [fst].
    rewrite decorator_entry
      by (unfold ordinary; rewrite resolve_after_entry; reflexivity).
    cbn [fst entries CONFIG properties realm]. unfold current at 1.
    cbn [entries CONFIG properties]. rewrite own_assign_same, assign_assign.
    reflexivity.
  - rewrite (@decorator_member d1 _ _ _ E). cbn [fst].
    rewrite (@decorator_member d2 _ _ _ (@resolve_after_member _ _ _ _ E)).
    cbn [fst entries CONFIG properties realm members fields].
    unfold member_fields at 1. cbn [realm members].
    rewrite assoc_set_get, assoc_set_set. reflexivity.
  - rewrite (@decorator_root d1 _ _ E). cbn [fst].
    rewrite (@decorator_root d2 _ _ (@resolve_after_root _ _ _ E)).
    reflexivity.
  - rewrite (@decorator_scalar d1 _ _ E). cbn [fst].
    rewrite decorator_scalar by (rewrite resolve_prepared; exact E).
    reflexivity.
  - rewrite (@decorator_foreign d1 _ _ E). cbn [fst].
    rewrite decorator_foreign by (rewrite resolve_prepared; exact E).
    reflexivity.
  - assert (H : ordinary p name = true) by (unfold ordinary; rewrite E; reflexivity).
    rewrite (@decorator_entry d1 _ _ H). cbn [fst].
    rewrite decorator_entry
      by (unfold ordinary; rewrite resolve_after_entry; reflexivity).
    cbn [fst entries CONFIG properties realm]. unfold current at 1.
    cbn [entries CONFIG properties]. rewrite own_assign_same, assign_assign.
    reflexivity.
Qed.

(** X4: on a string key under which the object of properties inherits
    nothing, no decorator throws. It leaves an entry for the key, made
    when there was none, in which it has written its own fields and no
    other, and it leaves every other entry, and [Object.prototype], as
    they were. On a key that is a member of [Object.prototype], as
    [toString] and [constructor] are, no entry is made: the decorator
    writes its fields to the member, which every object of the program
    shares, and leaves the entries as they were. *)
Theorem string_key_configured (d : decoration) (p : Prototype)
  (name : string) (other : PropertyKey) :
  key_eqb other (KString name) = false ->
  (ordinary p name = true ->
   snd (decorator_of d p (KString name)) = None /\
   own (KString name) (entries (fst (decorator_of d p (KString name)))) =
     Some (configure d name (fields (realm p)) (current p (KString name))) /\
   own other (entries (fst (decorator_of d p (KString name)))) =
     own other (entries p) /\
   realm (fst (decorator_of d p (KString name))) = realm p) /\
  (forall m, resolve p (KString name) = Some (Member m) ->
   snd (decorator_of d p (KString name)) = None /\
   entries (fst (decorator_of d p (KString name))) = entries p /\
   assoc_get String.eqb name
     (members (realm (fst (decorator_of d p (KString name))))) =
     Some (configure d name (fields (realm p)) (member_fields p name)) /\
   fields (realm (fst (decorator_of d p (KString name)))) = fields (realm p)).
Proof.
  intro H. split.
  - intro Ho. rewrite (@decorator_entry d _ _ Ho).
    cbn [fst snd entries CONFIG properties realm].
    split; [reflexivity|]. split; [apply own_assign_same|].
    split; [apply own_assign_other; exact H|reflexivity].
  - intros m E. rewrite (@decorator_member d _ _ _ E).
    cbn [fst snd entries CONFIG properties realm members fields].
    split; [reflexivity|]. split; [reflexivity|].
    split; [apply assoc_set_get|reflexivity].
Qed.

Lemma string_key_configured_witness :
  (snd (observe None (mkPrototype None) (KString "myProperty")) = None /\
   own (KString "myProperty")
     (entries (fst (observe None (mkPrototype None) (KString "myProperty")))) =
     Some (mkConfig (Some JSON) (Some "my-property") None None)) /\
  (entries (fst (observe None (mkPrototype None) (KString "toString"))) = [] /\
   assoc_get String.eqb "toString"
     (members (realm (fst (observe None (mkPrototype None) (KString "toString")))))
     = Some (mkConfig (Some JSON) (Some "to-string") None None)).
Proof.
  split.
  - destruct (@string_key_configured (Observe None) (mkPrototype None)
                "myProperty" (KSymbol 0) eq_refl) as [H _].
    destruct (H eq_refl) as (H1 & H2 & _). split; [exact H1|exact H2].
  - destruct (@string_key_configured (Observe None) (mkPrototype None)
                "toString" (KSymbol 0) eq_refl) as [_ H].
    destruct (H "toString" eq_refl) as (_ & H1 & H2 & _).
    split; [exact H1|exact H2].
Defined.

Lemma regular_ordinary (p : Prototype) (name : string) :
  realm p = pristine -> regular name = true -> ordinary p name = true.
Proof.
  intros R H. unfold ordinary, resolve. rewrite R.
  destruct (own (KString name) (entries p)); [reflexivity|].
  unfold regular in H. destruct (array_index name); [discriminate|].
  destruct (inherited pristine name); [discriminate|reflexivity].
Qed.

Lemma decorate_string_keyed (l : list (decoration * string)) :
  forallb regular (map snd l) = true ->
  forall p,
    realm p = pristine ->
    snd (decorate (string_keyed l) p) = None /\
    map fst (string_entries (entries (fst (decorate (string_keyed l) p)))) =
    fold_left (fun acc n => set_add String.eqb n acc) (map snd l)
      (map fst (string_entries (entries p))) /\
    realm (fst (decorate (string_keyed l) p)) = pristine.
Proof.
  induction l as [|[d n] rest IH]; intros Hl p R; [repeat split; exact R|].
  cbn [map snd forallb] in Hl. apply andb_prop in Hl. destruct Hl as [Hn Hr].
  cbn [string_keyed map decorate fst snd fold_left].
  rewrite (@decorator_entry d _ _ (@regular_ordinary _ _ R Hn)).
  fold (string_keyed rest).
  destruct (IH Hr {| CONFIG := Some {| properties :=
                       Some (assign (KString n)
                               (configure d n (fields (realm p))
                                  (current p (KString n)))
                               (entries p)) |};
                     realm := realm p |} R) as (I1 & I2 & I3).
  split; [exact I1|]. split; [|exact I3].
  rewrite I2. cbn [entries CONFIG properties].
  rewrite names_assign; [reflexivity|].
  unfold regular in Hn. destruct (array_index n); [discriminate|reflexivity].
Qed.

(** X5: the decorators of a class body on properties whose names are
    no array indices and no members of [Object.prototype] never throw
    and leave [Object.prototype] as it was, and [observedAttributes]
    then lists the kebab case of each decorated property once, in the
    order in which the properties were first decorated. *)
Theorem observed_in_declaration_order (l : list (decoration * string)) :
  forallb regular (map snd l) = true ->
  snd (decorate (string_keyed l) (mkPrototype None)) = None /\
  Component.observedAttributes
    (string_entries
       (entries (fst (decorate (string_keyed l) (mkPrototype None))))) =
  map Utils.toKebabCase
    (fold_left (fun acc n => set_add String.eqb n acc) (map snd l) []) /\
  realm (fst (decorate (string_keyed l) (mkPrototype None))) = pristine.
Proof.
  intro Hl.
  destruct (@decorate_string_keyed l Hl (mkPrototype None) eq_refl)
    as (H1 & H2 & H3).
  split; [exact H1|]. split; [|exact H3].
  unfold Component.observedAttributes. rewrite H2. reflexivity.
Qed.

Lemma observed_in_declaration_order_witness :
  Component.observedAttributes
    (string_entries
       (entries (fst (decorate
          (string_keyed [(Observe None, "second"); (Notify None, "first");
                         (Reflect, "second")])
          (mkPrototype None))))) = ["second"; "first"].
Proof.
  destruct (@observed_in_declaration_order
              [(Observe None, "second"); (Notify None, "first");
               (Reflect, "second")] eq_refl) as (_ & H & _).
  exact H.
Defined.

(** Keys that are array indices come first in [Object.keys], in
    ascending order, whenever they were decorated, and a key that is a
    member of [Object.prototype] is no key of the properties at all. *)
Example index_keys_first :
  Component.observedAttributes
    (string_entries
       (entries (fst (decorate
          (string_keyed [(Observe None, "b"); (Observe None, "10");
                         (Observe None, "toString"); (Observe None, "2")])
          (mkPrototype None))))) = ["2"; "10"; "b"].
Proof. reflexivity. Qed.

Lemma configure_observe_commutes (a : option string) (d : decoration)
  (name : string) (base c : ConfigObject) :
  is_observe d = false ->
  configure d name base (configure (Observe a) name base c) =
  configure (Observe a) name base (configure d name base c).
Proof.
  destruct d; intro H; try discriminate H; simpl;
    destruct (converter c), (converter base); reflexivity.
Qed.

Lemma configure_root_commutes (a : option string) (d : decoration)
  (name : string) (c : ConfigObject) :
  is_observe d = false ->
  configure d name (configure (Observe a) name c c)
    (configure (Observe a) name c c) =
  configure (Observe a) name (configure d name c c) (configure d name c c).
Proof.
  destruct d; intro H; try discriminate H; simpl;
    destruct (converter c); reflexivity.
Qed.

(** X6: [@observe] and any other decorator on the same property leave
    the same configuration in either order: a converter set before or
    after [@observe] stays, and [@observe] only fills in [JSON] when
    there is none. *)
Theorem observe_commutes (a : option string) (d : decoration)
  (p : Prototype) (name : string) :
  is_observe d = false ->
  fst (decorator_of d (fst (observe a p (KString name))) (KString name)) =
  fst (observe a (fst (decorator_of d p (KString name))) (KString name)).
Proof.
  intro H.
  change (observe a) with (decorator_of (Observe a)).
  rewrite !decorator_twice.
  destruct (resolve p (KString name)) as [[]|];
    rewrite ?configure_observe_commutes, ?configure_root_commutes by exact H;
    reflexivity.
Qed.

Lemma observe_commutes_witness :
  fst (withConverter URL
         (fst (observe None (mkPrototype None) (KString "prop1")))
         (KString "prop1")) =
  fst (observe None
         (fst (withConverter URL (mkPrototype None) (KString "prop1")))
         (KString "prop1")).
Proof.
  apply (@observe_commutes None (WithConverter URL) (mkPrototype None) "prop1").
  reflexivity.
Defined.

Lemma configure_idempotent (d : decoration) (name : string)
  (base c : ConfigObject) :
  configure d name base (configure d name base c) = configure d name base c.
Proof.
  destruct d; simpl; try reflexivity.
  destruct (converter c), (converter base); reflexivity.
Qed.

Lemma configure_root_idempotent (d : decoration) (name : string)
  (c : ConfigObject) :
  configure d name (configure d name c c) (configure d name c c) =
  configure d name c c.
Proof.
  destruct d; simpl; try reflexivity.
  destruct (converter c); reflexivity.
Qed.

(** What one decorator leaves of the prototype. *)
Lemma decorator_once (d : decoration) (p : Prototype) (name : string) :
  fst (decorator_of d p (KString name)) =
  match resolve p (KString name) with
  | Some Entry | None =>
      {| CONFIG := Some {| properties :=
           Some (assign (KString name)
                   (configure d name (fields (realm p)) (current p (KString name)))
                   (entries p)) |};
         realm := realm p |}
  | Some (Member _) =>
      {| CONFIG := Some {| properties := Some (entries p) |};
         realm := {| members :=
                       assoc_set String.eqb name
                         (configure d name (fields (realm p))
                            (member_fields p name))
                         (members (realm p));
                     fields := fields (realm p) |} |}
  | Some Root =>
      {| CONFIG := Some {| properties := Some (entries p) |};
         realm := {| members := members (realm p);
                     fields := configure d name (fields (realm p))
                                 (fields (realm p)) |} |}
  | Some Scalar | Some Foreign =>
      {| CONFIG := Some {| properties := Some (entries p) |}; realm := realm p |}
  end.
Proof.
  destruct (resolve p (KString name)) as [[]|] eqn:E.
  - rewrite decorator_entry by (unfold ordinary; rewrite E; reflexivity).
    reflexivity.
  - rewrite (@decorator_member d _ _ _ E). reflexivity.
  - rewrite (@decorator_root d _ _ E). reflexivity.
  - rewrite (@decorator_scalar d _ _ E). reflexivity.
  - rewrite (@decorator_foreign d _ _ E). reflexivity.
  - rewrite decorator_entry by (unfold ordinary; rewrite E; reflexivity).
    reflexivity.
Qed.

(** X7: a decorator applied twice to a property leaves what it leaves
    applied once, whatever the key evaluates to. [getPropertyConfig]
    asked twice creates nothing the second time, and the key then
    evaluates to what the first call handed out. The properties have no
    entry for a string key after [getPropertyConfig] exactly when they
    had none before and inherit something under the key: nothing is
    created for the name of a member of [Object.prototype]. *)
Theorem decorators_idempotent (d : decoration) (p : Prototype)
  (name : string) (k : PropertyKey) :
  fst (decorator_of d (fst (decorator_of d p (KString name))) (KString name)) =
    fst (decorator_of d p (KString name)) /\
  getPropertyConfig (fst (getPropertyConfig p k)) k = getPropertyConfig p k /\
  resolve (fst (getPropertyConfig p k)) k = Some (snd (getPropertyConfig p k)) /\
  (own (KString name) (entries (fst (getPropertyConfig p (KString name)))) = None
   <-> own (KString name) (entries p) = None /\
       inherited (realm p) name <> None).
Proof.
  split; [|split; [|split]].
  - rewrite decorator_twice, decorator_once.
    destruct (resolve p (KString name)) as [[]|];
      rewrite ?configure_idempotent, ?configure_root_idempotent; reflexivity.
  - destruct (resolve p k) as [r|] eqn:E.
    + rewrite (@getPropertyConfig_found _ _ _ E). cbn [fst].
      rewrite getPropertyConfig_found with (r := r)
        by (rewrite resolve_prepared; exact E).
      reflexivity.
    + rewrite (@getPropertyConfig_created _ _ E). cbn [fst].
      rewrite getPropertyConfig_found with (r := Entry)
        by apply resolve_after_entry.
      reflexivity.
  - destruct (resolve p k) as [r|] eqn:E.
    + rewrite (@getPropertyConfig_found _ _ _ E). cbn [fst snd].
      rewrite resolve_prepared. exact E.
    + rewrite (@getPropertyConfig_created _ _ E). cbn [fst snd].
      apply resolve_after_entry.
  - destruct (resolve p (KString name)) as [r|] eqn:E.
    + rewrite (@getPropertyConfig_found _ _ _ E).
      cbn [fst entries CONFIG properties]. unfold resolve in E.
      destruct (own (KString name) (entries p)) as [c|].
      * split; [discriminate|intros [H _]; discriminate H].
      * split; [|reflexivity]. intros _. split; [reflexivity|].
        rewrite E. discriminate.
    + rewrite (@getPropertyConfig_created _ _ E).
      cbn [fst entries CONFIG properties]. rewrite own_assign_same.
      unfold resolve in E.
      destruct (own (KString name) (entries p)) as [c|]; [discriminate E|].
      split; [discriminate|]. intros [_ H]. destruct (H E).
Qed.

End DecoratorExtra.


(* ================================================================== *)
(** * More about the instance *)

Module ComponentExtra.
Import Component SubscriptionFacts FeedFacts EffectFacts LifecycleFacts
  RenderFacts.

Section WithClass.
Context {rt : Runtime}.
Variable props : list (string * ConfigObject).
Variable rearm : bool.

(** ** Properties as cells *)

Lemma set_frame (name : string) (v : value) (this : RxWC) :
  assoc_has String.eqb name props = true ->
  triggers (fst (set props name v this)) =
    assoc_set String.eqb name v (triggers this) /\
  isAttached (fst (set props name v this)) = isAttached this /\
  streams (fst (set props name v this)) = streams this /\
  subscriptions (fst (set props name v this)) = subscriptions this.
Proof.
  intro H. unfold set. rewrite H.
  destruct (each _ (live this)) as [subs out]. simpl. auto.
Qed.

Lemma getValue_seed (names : list string) (x : string) :
  getValue (map (fun name => (name, VUndefined)) names) x = VUndefined.
Proof.
  unfold getValue. induction names as [|n t IH]; simpl; [reflexivity|].
  destruct (String.eqb x n); [reflexivity|exact IH].
Qed.

(** X8: a new instance reads [undefined] from every property. The setter
    of an observed property stores the value, whatever it is and whether
    the instance is attached or not: the getter then returns it and the
    other properties read as before. *)
Theorem property_read_write (name other : string) (v : value) (this : RxWC) :
  assoc_has String.eqb name props = true ->
  String.eqb other name = false ->
  getValue (triggers (fst (set props name v this))) name = v /\
  getValue (triggers (fst (set props name v this))) other =
    getValue (triggers this) other /\
  getValue (triggers (constructor props)) name = VUndefined.
Proof.
  intros Hn Ho. destruct (set_frame name v this Hn) as (E & _).
  rewrite E. split; [apply getValue_set|]. split.
  - unfold getValue. rewrite assoc_get_set_other by exact Ho. reflexivity.
  - apply getValue_seed.
Qed.

(** ** Lifecycle signals *)

Lemma subscribe_stream_own (cells : list (string * value)) (n : nat)
  (st : stream) :
  Forall (fun e => sub_of e = Some n) (snd (subscribe_stream props cells n st)).
Proof.
  unfold subscribe_stream.
  set (fresh := {| id := n; source := st; keys := []; throttled := false;
                   trailingValue := None; closed := false |}).
  pose proof (replay_local props cells (map fst props) fresh) as (_ & _ & R).
  destruct st; [| |constructor];
    destruct props; simpl; try exact R; repeat constructor.
Qed.

Lemma signals_open (st : stream) (this : RxWC) :
  signals (snd (open_subscription props st this)) = [].
Proof.
  unfold open_subscription.
  pose proof (subscribe_stream_own (triggers this) (next_id this) st) as H.
  destruct (subscribe_stream props (triggers this) (next_id this) st) as [s out].
  simpl in *. eapply AttributeFacts.signals_own. exact H.
Qed.

Lemma signals_subscribe_each (l : list stream) :
  forall this, signals (snd (subscribe_each props l this)) = [].
Proof.
  induction l as [|st rest IH]; intro this; simpl; [reflexivity|].
  pose proof (signals_open st this) as H.
  destruct (open_subscription props st this) as [this1 out1].
  specialize (IH this1).
  destruct (subscribe_each props rest this1) as [this2 out2]. simpl in *.
  rewrite AttributeFacts.signals_app, H, IH. reflexivity.
Qed.

Lemma signals_subscribe_missing (l : list stream) :
  forall this, signals (snd (subscribe_missing props l this)) = [].
Proof.
  induction l as [|st rest IH]; intro this; simpl; [reflexivity|].
  destruct (assoc_has stream_eqb st (subscriptions this)); [apply IH|].
  pose proof (signals_open st this) as H.
  destruct (open_subscription props st this) as [this1 out1].
  specialize (IH this1).
  destruct (subscribe_missing props rest this1) as [this2 out2]. simpl in *.
  rewrite AttributeFacts.signals_app, H, IH. reflexivity.
Qed.

Lemma signals_step (a : action) (this : RxWC) :
  signals (snd (step props rearm a this)) = signal_of a.
Proof.
  destruct a; cbn [step signal_of].
  - unfold connectedCallback.
    pose proof (signals_subscribe_each (streams this) (set_attached true this))
      as H.
    destruct (subscribe_each props (streams this) (set_attached true this))
      as [this1 out]. simpl in *.
    rewrite AttributeFacts.signals_app, H. reflexivity.
  - reflexivity.
  - unfold subscribe. destruct (isAttached (add_streams l this)); [|reflexivity].
    apply signals_subscribe_missing.
  - reflexivity.
  - apply AttributeFacts.signals_set.
  - unfold attributeChangedCallback.
    destruct (String.eqb oldValue newValue); [reflexivity|].
    destruct (assoc_get String.eqb (Utils.toCamelCase attr) props) as [c|];
      [|destruct (Object_prototype _) as [m|];
       [destruct (Codec.deserialize _ m)|]; reflexivity].
    destruct (Codec.deserialize newValue c) as [v|e]; [|reflexivity].
    pose proof (AttributeFacts.signals_set props (Utils.toCamelCase attr) v this)
      as H.
    destruct (set props (Utils.toCamelCase attr) v this) as [this1 out].
    simpl in *. rewrite H. reflexivity.
  - unfold tick.
    pose proof (AttributeFacts.signals_each (live this)
                  (clearThrottle_local rearm (triggers this))) as H.
    destruct (each _ (live this)) as [subs out]. exact H.
Qed.

(** X9: the lifecycle signals of a run are those of its actions, in
    order, whatever the state of the instance: [connected] for each
    attach, [disconnected] for each detach, even one without an attach
    before, [attributeChanged] for each change of an attribute to another
    value, and nothing for writes, registrations and runs of the
    scheduler. *)
Theorem signals_follow_actions (l : list action) (this : RxWC) :
  signals (snd (run props rearm l this)) = flat_map signal_of l.
Proof.
  revert this. induction l as [|a rest IH]; intro this; simpl; [reflexivity|].
  pose proof (signals_step a this) as H.
  destruct (step props rearm a this) as [this1 out1].
  specialize (IH this1).
  destruct (run props rearm rest this1) as [this2 out2]. simpl in *.
  rewrite AttributeFacts.signals_app, H, IH. reflexivity.
Qed.

(** ** How many subscriptions *)

Lemma count_zero (l : list subscription) (x : stream) :
  ~ In x (map source l) ->
  List.length (filter (fun s => stream_eqb (source s) x) l) = 0.
Proof.
  induction l as [|s t IH]; simpl; [reflexivity|].
  intro H. destruct (stream_eqb (source s) x) eqn:E.
  - apply stream_eqb_eq in E. tauto.
  - apply IH. tauto.
Qed.

Lemma handles_nil (l : list subscription) : map handle l = [] -> l = [].
Proof. destruct l; [reflexivity|discriminate]. Qed.

Lemma tracked_executions (this : RxWC) (x : stream) :
  tracked this ->
  executions this x =
  if isAttached this && set_has stream_eqb x (streams this) then 1 else 0.
Proof.
  intros [[Hm Hs Hf Hi] Hset Hatt]. unfold executions.
  destruct (isAttached this); cbn [andb].
  - rewrite Hm, handle_sources in *.
    destruct (set_has stream_eqb x (streams this)) eqn:E.
    + apply set_has_in in E. apply Hatt in E. apply count_one; assumption.
    + apply count_zero. intro H. apply Hatt in H. apply set_has_in in H.
      congruence.
  - rewrite Hatt in Hm. symmetry in Hm. apply handles_nil in Hm.
    rewrite Hm. reflexivity.
Qed.

(** X10: in every state that a lawful run reaches, a stream has one
    subscription when the instance is attached and the stream is
    registered, and none otherwise: never two, none for a stream that is
    not registered, none while the instance is not attached. *)
Theorem one_subscription_or_none (l : list action) (x : stream) :
  lawful false l = true ->
  executions (fst (run props rearm l (constructor props))) x =
  if isAttached (fst (run props rearm l (constructor props))) &&
     set_has stream_eqb x (streams (fst (run props rearm l (constructor props))))
  then 1 else 0.
Proof.
  intro H. apply tracked_executions.
  apply tracked_run; [apply tracked_constructor|exact H].
Qed.

Lemma close_all_streams (l : list stream) :
  forall this,
    streams (fold_left (fun acc st => close_subscription st acc) l this) =
    streams this.
Proof.
  induction l as [|st rest IH]; intro this; simpl; [reflexivity|].
  rewrite IH. unfold close_subscription.
  destruct (assoc_get stream_eqb st (subscriptions this)); reflexivity.
Qed.

Lemma unsubscribe_streams (l : list stream) (this : RxWC) (x : stream) :
  set_has stream_eqb x (streams (fst (unsubscribe l this))) =
  set_has stream_eqb x (streams this) && negb (set_has stream_eqb x l).
Proof.
  unfold unsubscribe. cbn [fst]. rewrite close_all_streams. cbn [streams].
  apply Bool.eq_iff_eq_true.
  rewrite andb_true_iff, negb_true_iff, !set_has_in, delete_all_in.
  split; intros [H1 H2]; split; auto.
  - destruct (set_has stream_eqb x l) eqn:E; [|reflexivity].
    apply set_has_in in E. contradiction.
  - intro H. apply set_has_in in H. congruence.
Qed.

(** X11: [unsubscribe] takes its streams out of the set and ends their
    subscriptions, whether the instance is attached or not, and leaves
    the other streams registered and subscribed as they were. *)
Theorem unsubscribe_removes (l : list action) (ls : list stream) (x : stream) :
  lawful false l = true ->
  let this := fst (run props rearm l (constructor props)) in
  let this1 := fst (unsubscribe ls this) in
  set_has stream_eqb x (streams this1) =
    set_has stream_eqb x (streams this) && negb (set_has stream_eqb x ls) /\
  executions this1 x =
    (if set_has stream_eqb x ls then 0 else executions this x) /\
  isAttached this1 = isAttached this /\
  snd (unsubscribe ls this) = [].
Proof.
  intros H this this1.
  assert (T : tracked this).
  { apply tracked_run; [apply tracked_constructor|exact H]. }
  destruct (tracked_unsubscribe ls T) as [T1 A1]. fold this1 in T1, A1.
  pose proof (unsubscribe_streams ls this x) as S. fold this1 in S.
  split; [exact S|]. split; [|split; [exact A1|reflexivity]].
  rewrite (tracked_executions x T1), (tracked_executions x T), A1, S.
  destruct (set_has stream_eqb x ls); cbn [negb];
    rewrite ?andb_false_r, ?andb_true_r; reflexivity.
Qed.

Lemma set_delete_absent (x : stream) (l : list stream) :
  ~ In x l -> set_delete stream_eqb x l = l.
Proof.
  induction l as [|k t IH]; simpl; [reflexivity|].
  intro H. destruct (stream_eqb x k) eqn:E.
  - apply stream_eqb_eq in E. subst. tauto.
  - f_equal. apply IH. tauto.
Qed.

Lemma tracked_keys (this : RxWC) (x : stream) :
  tracked this -> In x (map fst (subscriptions this)) -> In x (streams this).
Proof.
  intros [_ _ Hatt] H. destruct (isAttached this).
  - apply Hatt. exact H.
  - rewrite Hatt in H. destruct H.
Qed.

Lemma unsubscribe_absent (ls : list stream) :
  forall this,
    tracked this ->
    (forall x, In x ls -> ~ In x (streams this)) ->
    unsubscribe ls this = (this, []).
Proof.
  intros this T H. unfold unsubscribe. f_equal.
  assert (E : fold_left (fun acc st => set_delete stream_eqb st acc) ls
                (streams this) = streams this).
  { clear T. induction ls as [|x rest IH]; simpl; [reflexivity|].
    rewrite set_delete_absent by (apply H; left; reflexivity).
    apply IH. intros y Hy. apply H. right. exact Hy. }
  rewrite E.
  assert (R : {| triggers := triggers this; isAttached := isAttached this;
                 streams := streams this; subscriptions := subscriptions this;
                 live := live this; next_id := next_id this |} = this)
    by (destruct this; reflexivity).
  rewrite R. clear E R.
  induction ls as [|x rest IH]; simpl; [reflexivity|].
  assert (C : close_subscription x this = this).
  { unfold close_subscription.
    destruct (assoc_get stream_eqb x (subscriptions this)) as [n|] eqn:G;
      [|reflexivity].
    apply get_some in G. apply (in_map fst) in G. simpl in G.
    destruct (H x (or_introl eq_refl) (@tracked_keys this x T G)). }
  rewrite C. apply IH. intros y Hy. apply H. right. exact Hy.
Qed.

(** X12: in a state that a lawful run has reached, [unsubscribe] of
    streams that are not registered changes nothing and emits nothing,
    and [disconnectedCallback] on an instance that is not attached
    changes nothing either and emits its signal. *)
Theorem idle_calls_change_nothing (l : list action) (ls : list stream) :
  lawful false l = true ->
  let this := fst (run props rearm l (constructor props)) in
  ((forall x, In x ls -> ~ In x (streams this)) ->
   unsubscribe ls this = (this, [])) /\
  (isAttached this = false ->
   disconnectedCallback this = (this, [Signal Disconnected])).
Proof.
  intros H this.
  assert (T : tracked this).
  { apply tracked_run; [apply tracked_constructor|exact H]. }
  split.
  - apply unsubscribe_absent. exact T.
  - intro Hd. destruct T as [[Hm _ _ _] _ Hatt]. rewrite Hd in Hatt.
    rewrite Hatt in Hm. symmetry in Hm. apply handles_nil in Hm.
    unfold disconnectedCallback. rewrite Hatt, Hm. simpl.
    destruct this; simpl in *. subst. reflexivity.
Qed.

(** ** Bursts *)

Lemma deliver_closed (cells : list (string * value)) (name : string)
  (v : value) (s : subscription) :
  closed s = true -> deliver props cells name v s = (s, []).
Proof.
  intro H. unfold deliver. rewrite H. destruct (source s); reflexivity.
Qed.

Lemma clear_closed (cells : list (string * value)) (s : subscription) :
  closed s = true -> clearThrottle rearm cells s = (s, []).
Proof.
  intro H. unfold clearThrottle. rewrite H. destruct (source s); reflexivity.
Qed.

(** One value in one subscription: the renderer is called once at most,
    and after a call the timer runs. *)
Lemma deliver_once (cells : list (string * value)) (name : string)
  (v : value) (s : subscription) :
  rendered (snd (deliver props cells name v s)) = [] \/
  (rendered (snd (deliver props cells name v s)) = [cells] /\
   quiet (fst (deliver props cells name v s)) = true).
Proof.
  destruct s as [n src ks th tr cl].
  unfold deliver, distinct, throttle_next, set_key, close, quiet.
  cbn [id source keys throttled trailingValue closed].
  destruct src; cbn [fst snd throttled closed]; auto;
    (destruct cl; cbn [fst snd throttled closed]; auto;
     destruct (assoc_get String.eqb name props) as [c|];
     cbn [fst snd throttled closed]; auto;
     destruct (PropertyEffects.run v c) as [calls [e|]];
     cbn [fst snd throttled closed];
     [ rewrite rendered_app, rendered_effects; left; auto
     | destruct (match assoc_get String.eqb name ks with
                 | Some key => negb (strict_equal key v)
                 | None => true
                 end); cbn [fst snd throttled closed];
       [|rewrite rendered_effects; auto] ]).
  - destruct th; cbn [fst snd throttled closed];
      rewrite rendered_app, rendered_effects; [left|right]; auto.
  - rewrite rendered_app, rendered_effects. left. auto.
Qed.

Lemma set_sources (name : string) (v : value) (this : RxWC) :
  NoDup (map source (live this)) ->
  NoDup (map source (live (fst (set props name v this)))).
Proof.
  intro Hnd. destruct (assoc_has String.eqb name props) eqn:Hhas.
  - destruct (set_render props name v this Hhas Hnd) as (_ & _ & A3 & _).
    rewrite A3. exact Hnd.
  - unfold set. rewrite Hhas. exact Hnd.
Qed.

Lemma set_quiet (name : string) (v : value) (this : RxWC) :
  NoDup (map source (live this)) ->
  (forall s, render_sub this = Some s -> quiet s = true) ->
  rendered (snd (set props name v this)) = [] /\
  forall s, render_sub (fst (set props name v this)) = Some s -> quiet s = true.
Proof.
  intros Hnd Hq. destruct (assoc_has String.eqb name props) eqn:Hhas.
  - destruct (set_render props name v this Hhas Hnd) as (A1 & A2 & _).
    rewrite A1, A2.
    destruct (render_sub this) as [s|]; [|split; [reflexivity|discriminate]].
    destruct (deliver_quiet props
                (assoc_set String.eqb name v (triggers this)) name v s
                (Hq s eq_refl)) as [D1 D2].
    split; [exact D1|]. intros s' E. simpl in E. injection E as <-. exact D2.
  - unfold set. rewrite Hhas. split; [reflexivity|exact Hq].
Qed.

Lemma set_once (name : string) (v : value) (this : RxWC) :
  NoDup (map source (live this)) ->
  rendered (snd (set props name v this)) = [] \/
  (List.length (rendered (snd (set props name v this))) = 1 /\
   forall s, render_sub (fst (set props name v this)) = Some s ->
             quiet s = true).
Proof.
  intros Hnd. destruct (assoc_has String.eqb name props) eqn:Hhas.
  - destruct (set_render props name v this Hhas Hnd) as (A1 & A2 & _).
    rewrite A1, A2.
    destruct (render_sub this) as [s|]; [|left; reflexivity].
    destruct (deliver_once (assoc_set String.eqb name v (triggers this)) name v s)
      as [D1|[D1 D2]]; [left; exact D1|].
    right. split; [rewrite D1; reflexivity|].
    intros s' E. simpl in E. injection E as <-. exact D2.
  - unfold set. rewrite Hhas. left. reflexivity.
Qed.

(** A write is a call of the setter, after a signal when it comes from
    an attribute, or nothing but events that are no call of the
    renderer. *)
Lemma write_is_set (a : action) (this : RxWC) :
  is_write a = true ->
  (exists name v,
     fst (step props rearm a this) = fst (set props name v this) /\
     rendered (snd (step props rearm a this)) =
       rendered (snd (set props name v this))) \/
  (fst (step props rearm a this) = this /\
   rendered (snd (step props rearm a this)) = []).
Proof.
  intro Ha. destruct a; try discriminate Ha; cbn [step].
  - left. exists name, v. auto.
  - unfold attributeChangedCallback.
    destruct (String.eqb oldValue newValue); [right; auto|].
    destruct (assoc_get String.eqb (Utils.toCamelCase attr) props) as [c|];
      [|destruct (Object_prototype _) as [m|];
       [destruct (Codec.deserialize _ m)|]; right; auto].
    destruct (Codec.deserialize newValue c) as [v|e]; [|right; auto].
    left. exists (Utils.toCamelCase attr), v.
    destruct (set props (Utils.toCamelCase attr) v this) as [this1 out].
    auto.
Qed.

Lemma burst_quiet (acts : list action) :
  forallb is_write acts = true ->
  forall this,
    NoDup (map source (live this)) ->
    (forall s, render_sub this = Some s -> quiet s = true) ->
    rendered (snd (run props rearm acts this)) = [].
Proof.
  induction acts as [|a rest IH]; intros Hw this Hnd Hq; [reflexivity|].
  simpl in Hw. apply andb_prop in Hw. destruct Hw as [Ha Hr].
  cbn [run].
  destruct (write_is_set a this Ha) as [(name & v & E1 & E2)|[E1 E2]];
    destruct (step props rearm a this) as [this1 out1]; cbn [fst snd] in *;
    subst this1.
  - destruct (set_quiet name v this Hnd Hq) as [Q1 Q2].
    pose proof (IH Hr _ (set_sources name v this Hnd) Q2) as I.
    destruct (run props rearm rest (fst (set props name v this)))
      as [this2 out2]. cbn [fst snd] in *.
    rewrite rendered_app, E2, Q1, I. reflexivity.
  - pose proof (IH Hr this Hnd Hq) as I.
    destruct (run props rearm rest this) as [this2 out2]. cbn [fst snd] in *.
    rewrite rendered_app, E2, I. reflexivity.
Qed.

Lemma burst_once (acts : list action) :
  forallb is_write acts = true ->
  forall this,
    NoDup (map source (live this)) ->
    List.length (rendered (snd (run props rearm acts this))) <= 1.
Proof.
  induction acts as [|a rest IH]; intros Hw this Hnd; [simpl; lia|].
  simpl in Hw. apply andb_prop in Hw. destruct Hw as [Ha Hr].
  cbn [run].
  destruct (write_is_set a this Ha) as [(name & v & E1 & E2)|[E1 E2]];
    destruct (step props rearm a this) as [this1 out1]; cbn [fst snd] in *;
    subst this1.
  - pose proof (set_sources name v this Hnd) as Hnd1.
    pose proof (IH Hr _ Hnd1) as I.
    pose proof (burst_quiet rest Hr (fst (set props name v this)) Hnd1) as Q.
    destruct (run props rearm rest (fst (set props name v this)))
      as [this2 out2]. cbn [fst snd] in *.
    rewrite rendered_app, length_app, E2.
    destruct (set_once name v this Hnd) as [S1|[S1 S2]].
    + rewrite S1. simpl. exact I.
    + rewrite S1, (Q S2). simpl. lia.
  - pose proof (IH Hr this Hnd) as I.
    destruct (run props rearm rest this) as [this2 out2]. cbn [fst snd] in *.
    rewrite rendered_app, E2. simpl. exact I.
Qed.

Lemma tick_once (this : RxWC) :
  NoDup (map source (live this)) ->
  List.length (rendered (snd (tick rearm this))) <= 1.
Proof.
  intro Hnd. destruct (tick_render rearm this Hnd) as (T1 & _). rewrite T1.
  destruct (render_sub this) as [s|]; [|simpl; lia].
  destruct s as [n src ks th tr cl]. unfold clearThrottle.
  cbn [id source keys throttled trailingValue closed].
  destruct src, cl, th, tr; simpl; lia.
Qed.

(** X13: in a state that a lawful run has reached, writes that follow
    each other before the scheduler runs, however many, to whatever
    properties, by the setters or by attribute changes, call the renderer
    once at most, and a run of the scheduler calls it once at most. *)
Theorem one_render_per_burst (l acts : list action) :
  lawful false l = true ->
  forallb is_write acts = true ->
  let this := fst (run props rearm l (constructor props)) in
  List.length (rendered (snd (run props rearm acts this))) <= 1 /\
  List.length (rendered (snd (tick rearm this))) <= 1.
Proof.
  intros Hl Hw this.
  assert (Hnd : NoDup (map source (live this))).
  { apply tracked_sources. apply tracked_run; [apply tracked_constructor|exact Hl]. }
  split; [apply burst_once; assumption|apply tick_once; exact Hnd].
Qed.

(** ** An exception in an effect handler *)

Lemma deliver_failed (cells : list (string * value)) (name : string)
  (c : ConfigObject) (v : value) (e : error) (s : subscription) :
  receiving s = true ->
  assoc_get String.eqb name props = Some c ->
  snd (PropertyEffects.run v c) = Some e ->
  closed (fst (deliver props cells name v s)) = true /\
  In (Unhandled (id s) e) (snd (deliver props cells name v s)) /\
  changes (snd (deliver props cells name v s)) = [] /\
  rendered (snd (deliver props cells name v s)) = [].
Proof.
  destruct s as [n src ks th tr cl].
  unfold receiving, deliver, close.
  cbn [id source keys throttled trailingValue closed].
  intros Hr Hc He. rewrite Hc.
  destruct (PropertyEffects.run v c) as [calls failure]. simpl in He. subst.
  destruct cl; [discriminate Hr|].
  destruct src; try discriminate Hr; cbn [fst snd closed];
    rewrite changes_app, rendered_app, changes_effects, rendered_effects;
    (split; [reflexivity|]; split; [|split; reflexivity]);
    apply in_or_app; right; left; reflexivity.
Qed.

Lemma from_sub_signal (n : nat) (e : event) (out : list event) :
  sub_of e = None ->
  filter (from_sub n) (e :: out) = filter (from_sub n) out.
Proof. intro H. simpl. unfold from_sub at 1. rewrite H. reflexivity. Qed.

Lemma closed_step (a : action) (this : RxWC) (n : nat) (s : subscription) :
  passive a = true ->
  NoDup (map id (live this)) ->
  lookup_sub n (live this) = Some s ->
  closed s = true ->
  filter (from_sub n) (snd (step props rearm a this)) = [] /\
  lookup_sub n (live (fst (step props rearm a this))) = Some s /\
  NoDup (map id (live (fst (step props rearm a this)))).
Proof.
  intros Ha Hnd Hs Hc.
  assert (S : forall name v,
            filter (from_sub n) (snd (set props name v this)) = [] /\
            lookup_sub n (live (fst (set props name v this))) = Some s /\
            NoDup (map id (live (fst (set props name v this))))).
  { intros name v. destruct (assoc_has String.eqb name props) eqn:Hhas.
    - destruct (set_only props name v this n Hhas Hnd Hs) as (A1 & A2 & A3).
      rewrite deliver_closed in A1, A2 by exact Hc.
      rewrite A3. auto.
    - unfold set. rewrite Hhas. auto. }
  destruct a; try discriminate Ha; cbn [step].
  - apply S.
  - unfold attributeChangedCallback.
    destruct (String.eqb oldValue newValue); [auto|].
    destruct (assoc_get String.eqb (Utils.toCamelCase attr) props) as [c|];
      [|destruct (Object_prototype _) as [m|];
       [destruct (Codec.deserialize _ m)|]; auto].
    destruct (Codec.deserialize newValue c) as [v|e]; [|auto].
    destruct (S (Utils.toCamelCase attr) v) as (S1 & S2 & S3).
    destruct (set props (Utils.toCamelCase attr) v this) as [this1 out].
    cbn [fst snd] in *. rewrite from_sub_signal by reflexivity. auto.
  - unfold tick.
    pose proof (each_only (clearThrottle_local rearm (triggers this)) n
                  (live this) Hnd Hs) as A1.
    pose proof (each_lookup (clearThrottle_local rearm (triggers this)) n
                  (live this)) as A2.
    pose proof (each_ids (clearThrottle_local rearm (triggers this))
                  (live this)) as A3.
    destruct (each _ (live this)) as [subs out]. cbn [fst snd live] in *.
    rewrite Hs in A2. cbn [option_map] in A2.
    rewrite clear_closed in A1, A2 by exact Hc.
    rewrite A3. auto.
Qed.

Lemma closed_run (acts : list action) (n : nat) (s : subscription) :
  forallb passive acts = true ->
  closed s = true ->
  forall this,
    NoDup (map id (live this)) ->
    lookup_sub n (live this) = Some s ->
    filter (from_sub n) (snd (run props rearm acts this)) = [].
Proof.
  intros Hp Hc. induction acts as [|a rest IH]; intros this Hnd Hs;
    [reflexivity|].
  simpl in Hp. apply andb_prop in Hp. destruct Hp as [Ha Hr]. cbn [run].
  destruct (closed_step a this n Ha Hnd Hs Hc) as (C1 & C2 & C3).
  destruct (step props rearm a this) as [this1 out1]. cbn [fst snd] in *.
  specialize (IH Hr this1 C3 C2).
  destruct (run props rearm rest this1) as [this2 out2]. cbn [fst snd] in *.
  rewrite filter_app, C1, IH. reflexivity.
Qed.

(** X14: when an effect handler throws on a written value, in a
    subscription that the property sends values to, the exception is
    reported for that subscription, the value goes no further in it, and
    the subscription is over: whatever is written afterwards and however
    often the scheduler runs, nothing happens in it any more, neither an
    effect nor a change event nor a call of the renderer. *)
Theorem effect_error_ends_subscription (this : RxWC) (n : nat)
  (s : subscription) (name : string) (c : ConfigObject) (v : value)
  (e : error) (acts : list action) :
  NoDup (map id (live this)) ->
  lookup_sub n (live this) = Some s ->
  receiving s = true ->
  assoc_get String.eqb name props = Some c ->
  snd (PropertyEffects.run v c) = Some e ->
  forallb passive acts = true ->
  In (Unhandled n e) (snd (set props name v this)) /\
  changed_in n (snd (set props name v this)) = [] /\
  filter (from_sub n)
    (snd (run props rearm acts (fst (set props name v this)))) = [].
Proof.
  intros Hnd Hs Hr Hc He Hp.
  destruct (set_only props name v this n (assoc_has_get _ _ Hc) Hnd Hs)
    as (A1 & A2 & A3).
  destruct (deliver_failed (assoc_set String.eqb name v (triggers this))
              name v s Hr Hc He) as (D1 & D2 & D3 & _).
  assert (Hid : id s = n).
  { destruct (find_some _ _ Hs) as [_ E]. apply Nat.eqb_eq in E. exact E. }
  rewrite Hid in D2. split; [|split].
  - assert (I : In (Unhandled n e)
                  (filter (from_sub n) (snd (set props name v this)))).
    { rewrite A1. exact D2. }
    apply filter_In in I. apply I.
  - unfold changed_in. rewrite A1. exact D3.
  - apply (closed_run acts n Hp D1).
    + rewrite A3. exact Hnd.
    + exact A2.
Qed.

(** ** What [connectedCallback] starts *)

Lemma find_append (A : Type) (f : A -> bool) (a b : list A) :
  find f a = None -> find f (a ++ b) = find f b.
Proof.
  induction a as [|x t IH]; simpl; [reflexivity|].
  destruct (f x); [discriminate|exact IH].
Qed.

(** The subscriptions that [connectedCallback] makes, one for each
    registered stream, each with what making it lets the outside see. *)
Lemma subscribe_each_made (l : list stream) :
  forall this,
    exists rs : list (subscription * list event),
      live (fst (subscribe_each props l this)) = live this ++ map fst rs /\
      snd (subscribe_each props l this) = List.concat (map snd rs) /\
      triggers (fst (subscribe_each props l this)) = triggers this /\
      Forall2 (fun st r =>
                 exists n, r = subscribe_stream props (triggers this) n st) l rs.
Proof.
  induction l as [|st rest IH]; intro this.
  - exists []. simpl. rewrite app_nil_r. repeat split. constructor.
  - cbn [subscribe_each]. unfold open_subscription.
    destruct (subscribe_stream props (triggers this) (next_id this) st)
      as [s0 out0] eqn:E.
    set (this1 := {| triggers := triggers this; isAttached := isAttached this;
                     streams := streams this;
                     subscriptions := assoc_set stream_eqb st (next_id this)
                                        (subscriptions this);
                     live := live this ++ [s0];
                     next_id := S (next_id this) |}).
    destruct (IH this1) as (rs & R1 & R2 & R3 & R4).
    destruct (subscribe_each props rest this1) as [this2 out2].
    cbn [fst snd] in *. exists ((s0, out0) :: rs).
    cbn [map fst snd List.concat]. repeat split.
    + rewrite R1. unfold this1. cbn [live]. rewrite <- app_assoc. reflexivity.
    + rewrite R2. reflexivity.
    + rewrite R3. reflexivity.
    + constructor; [exists (next_id this); symmetry; exact E|exact R4].
Qed.

Lemma made_other (cells : list (string * value)) (l : list stream)
  (rs : list (subscription * list event)) :
  ~ In RenderStream l ->
  Forall2 (fun st r => exists n, r = subscribe_stream props cells n st) l rs ->
  rendered (List.concat (map snd rs)) = [] /\
  find (fun s => stream_eqb (source s) RenderStream) (map fst rs) = None.
Proof.
  intros Hn F. induction F as [|st r l' rs' [n Hr] F IH]; [split; reflexivity|].
  simpl in Hn. destruct IH as [I1 I2]; [tauto|].
  cbn [map List.concat find]. rewrite rendered_app, I1, Hr.
  assert (Hst : st <> RenderStream) by (intros ->; tauto).
  rewrite (subscribe_stream_other props cells n Hst).
  pose proof (subscribe_stream_handle props cells n st) as H.
  unfold handle in H. injection H as H _. rewrite H.
  apply stream_eqb_neq in Hst. rewrite Hst. split; [reflexivity|exact I2].
Qed.

Lemma made_render (cells : list (string * value)) (l : list stream)
  (rs : list (subscription * list event)) :
  NoDup l -> In RenderStream l ->
  Forall2 (fun st r => exists n, r = subscribe_stream props cells n st) l rs ->
  exists n,
    find (fun s => stream_eqb (source s) RenderStream) (map fst rs) =
      Some (fst (subscribe_stream props cells n RenderStream)) /\
    rendered (List.concat (map snd rs)) =
      rendered (snd (subscribe_stream props cells n RenderStream)) /\
    forall e, In e (snd (subscribe_stream props cells n RenderStream)) ->
              In e (List.concat (map snd rs)).
Proof.
  intros Hnd Hin F. induction F as [|st r l' rs' [n Hr] F IH]; [destruct Hin|].
  inversion Hnd as [|? ? H1 H2]. subst.
  pose proof (subscribe_stream_handle props cells n st) as H.
  unfold handle in H. injection H as H _.
  cbn [map List.concat find]. rewrite H.
  destruct (stream_eqb st RenderStream) eqn:E.
  - apply stream_eqb_eq in E. subst st. exists n.
    destruct (@made_other cells l' rs' H1 F) as [O1 _].
    rewrite rendered_app, O1, app_nil_r. repeat split.
    intros e He. apply in_or_app. left. exact He.
  - apply stream_eqb_neq in E. destruct Hin as [Hin|Hin]; [contradiction|].
    destruct (IH H2 Hin) as (m & I1 & I2 & I3). exists m.
    rewrite rendered_app, (subscribe_stream_other props cells n E). simpl.
    repeat split; auto. intros e He. apply in_or_app. right. apply I3. exact He.
Qed.

(** What [connectedCallback] does on an instance that is not attached
    and has the stream of the renderer registered. *)
Lemma attach_made (this : RxWC) :
  tracked this -> isAttached this = false ->
  In RenderStream (streams this) ->
  exists n,
    render_sub (fst (connectedCallback props this)) =
      Some (fst (subscribe_stream props (triggers this) n RenderStream)) /\
    rendered (snd (connectedCallback props this)) =
      rendered (snd (subscribe_stream props (triggers this) n RenderStream)) /\
    (forall e, In e (snd (subscribe_stream props (triggers this) n RenderStream)) ->
               In e (snd (connectedCallback props this))) /\
    triggers (fst (connectedCallback props this)) = triggers this /\
    NoDup (map source (live (fst (connectedCallback props this)))).
Proof.
  intros T Hd Hin.
  destruct (tracked_connected props T Hd) as (T1 & _).
  pose proof (tracked_sources T1) as Hnd.
  destruct T as [[Hm _ _ _] Hset Hatt]. rewrite Hd in Hatt.
  rewrite Hatt in Hm. symmetry in Hm. apply handles_nil in Hm.
  unfold connectedCallback in *.
  destruct (subscribe_each_made (streams this) (set_attached true this))
    as (rs & R1 & R2 & R3 & R4).
  change (streams (set_attached true this)) with (streams this) in *.
  change (triggers (set_attached true this)) with (triggers this) in *.
  change (live (set_attached true this)) with (live this) in *.
  destruct (subscribe_each props (streams this) (set_attached true this))
    as [this1 out]. cbn [fst snd] in *.
  destruct (@made_render _ _ rs Hset Hin R4) as (n & M1 & M2 & M3).
  exists n. unfold render_sub. rewrite R1, Hm, R2. cbn [app].
  rewrite R1, Hm in Hnd. cbn [app] in Hnd.
  rewrite rendered_app, app_nil_r. repeat split; auto.
  intros e He. apply in_or_app. left. apply M3. exact He.
Qed.

(** A subscription that is over stays as it is. *)
Lemma closed_render_step (a : action) (this : RxWC) (s : subscription) :
  passive a = true ->
  NoDup (map source (live this)) ->
  render_sub this = Some s -> closed s = true ->
  rendered (snd (step props rearm a this)) = [] /\
  render_sub (fst (step props rearm a this)) = Some s /\
  NoDup (map source (live (fst (step props rearm a this)))).
Proof.
  intros Ha Hnd Hs Hc.
  assert (S : forall name v,
            rendered (snd (set props name v this)) = [] /\
            render_sub (fst (set props name v this)) = Some s /\
            NoDup (map source (live (fst (set props name v this))))).
  { intros name v. split; [|split; [|apply set_sources; exact Hnd]];
      destruct (assoc_has String.eqb name props) eqn:Hhas;
      try (unfold set; rewrite Hhas; auto; fail);
      destruct (set_render props name v this Hhas Hnd) as (A1 & A2 & _);
      rewrite Hs in A1, A2; cbn [option_map] in A2;
      rewrite deliver_closed in A1, A2 by exact Hc; assumption. }
  destruct a; try discriminate Ha; cbn [step].
  - apply S.
  - unfold attributeChangedCallback.
    destruct (String.eqb oldValue newValue); [auto|].
    destruct (assoc_get String.eqb (Utils.toCamelCase attr) props) as [c|];
      [|destruct (Object_prototype _) as [m|];
       [destruct (Codec.deserialize _ m)|]; auto].
    destruct (Codec.deserialize newValue c) as [v|e]; [|auto].
    destruct (S (Utils.toCamelCase attr) v) as (S1 & S2 & S3).
    destruct (set props (Utils.toCamelCase attr) v this) as [this1 out].
    auto.
  - destruct (tick_render rearm this Hnd) as (A1 & A2 & A3 & _).
    rewrite Hs in A1, A2. cbn [option_map] in A2.
    rewrite clear_closed in A1, A2 by exact Hc.
    rewrite A3. auto.
Qed.

Lemma closed_render_run (acts : list action) (s : subscription) :
  forallb passive acts = true ->
  closed s = true ->
  forall this,
    NoDup (map source (live this)) ->
    render_sub this = Some s ->
    rendered (snd (run props rearm acts this)) = [].
Proof.
  intros Hp Hc. induction acts as [|a rest IH]; intros this Hnd Hs;
    [reflexivity|].
  simpl in Hp. apply andb_prop in Hp. destruct Hp as [Ha Hr]. cbn [run].
  destruct (closed_render_step a this Ha Hnd Hs Hc) as (C1 & C2 & C3).
  destruct (step props rearm a this) as [this1 out1]. cbn [fst snd] in *.
  specialize (IH Hr this1 C3 C2).
  destruct (run props rearm rest this1) as [this2 out2]. cbn [fst snd] in *.
  rewrite rendered_app, C1, IH. reflexivity.
Qed.

Lemma replay_closed (cells : list (string * value)) (names : list string)
  (s : subscription) :
  closed s = true -> replay props cells names s = (s, []).
Proof.
  intro H. induction names as [|name rest IH]; [reflexivity|].
  cbn [replay]. rewrite deliver_closed by exact H. rewrite IH. reflexivity.
Qed.

(** The stream of the renderer, subscribed when the effect handlers of
    the first property throw on the value it holds. *)
Lemma subscribe_render_failed (cells : list (string * value)) (n : nat)
  (name : string) (c : ConfigObject) (e : error) :
  hd_error props = Some (name, c) ->
  snd (PropertyEffects.run (getValue cells name) c) = Some e ->
  closed (fst (subscribe_stream props cells n RenderStream)) = true /\
  rendered (snd (subscribe_stream props cells n RenderStream)) = [].
Proof.
  intros Hh He. unfold subscribe_stream.
  destruct props as [|[name' c'] rest] eqn:E; [discriminate Hh|].
  injection Hh as -> ->.
  cbv beta iota zeta. cbn [map fst replay]. rewrite <- E.
  assert (Hc : assoc_get String.eqb name props = Some c).
  { rewrite E. simpl. rewrite String.eqb_refl. reflexivity. }
  set (fresh := {| id := n; source := RenderStream; keys := [];
                   throttled := false; trailingValue := None; closed := false |}).
  destruct (deliver_failed cells name (getValue cells name) fresh eq_refl Hc He)
    as (D1 & _ & _ & D4).
  destruct (deliver props cells name (getValue cells name) fresh) as [s1 out1].
  cbn [fst snd] in *. rewrite replay_closed by exact D1.
  cbn [fst snd]. rewrite app_nil_r. auto.
Qed.

(** X15: when an effect handler of the first declared property throws
    on the value that the property holds as the instance is attached,
    the stream of the renderer is over before its first value reaches
    the renderer: the renderer is called neither by [connectedCallback]
    nor by any write or run of the scheduler that follows. A property
    with [@reflect] and the URL converter that still holds [undefined]
    is such a property. *)
Theorem failing_effect_never_rendered (l acts : list action)
  (name : string) (c : ConfigObject) (e : error) :
  lawful false l = true ->
  isAttached (fst (run props rearm l (constructor props))) = false ->
  In RenderStream (streams (fst (run props rearm l (constructor props)))) ->
  hd_error props = Some (name, c) ->
  snd (PropertyEffects.run
         (getValue (triggers (fst (run props rearm l (constructor props)))) name)
         c) = Some e ->
  forallb passive acts = true ->
  rendered (snd (run props rearm (Attach :: acts)
                   (fst (run props rearm l (constructor props))))) = [].
Proof.
  intros Hl Hd Hin Hh He Hp.
  set (this := fst (run props rearm l (constructor props))) in *.
  assert (T : tracked this).
  { apply tracked_run; [apply tracked_constructor|exact Hl]. }
  destruct (attach_made T Hd Hin) as (n & A1 & A2 & _ & _ & A5).
  destruct (subscribe_render_failed (triggers this) n Hh He) as [F1 F2].
  cbn [run step].
  destruct (connectedCallback props this) as [this1 out1]. cbn [fst snd] in *.
  pose proof (closed_render_run acts Hp F1 this1 A5 A1) as C.
  destruct (run props rearm acts this1) as [this2 out2]. cbn [fst snd] in *.
  rewrite rendered_app, A2, F2, C. reflexivity.
Qed.

(** X16: a class without observed properties is rendered exactly once
    for each time its instance is attached, at once, and by nothing
    else: [startWith(null)] sends the one value, and the empty [merge]
    ends the stream. *)
Theorem no_properties_one_render (l acts : list action) :
  props = [] ->
  lawful false l = true ->
  isAttached (fst (run props rearm l (constructor props))) = false ->
  In RenderStream (streams (fst (run props rearm l (constructor props)))) ->
  forallb passive acts = true ->
  rendered (snd (run props rearm (Attach :: acts)
                   (fst (run props rearm l (constructor props))))) =
  [triggers (fst (run props rearm l (constructor props)))].
Proof.
  intros Hprops Hl Hd Hin Hp.
  set (this := fst (run props rearm l (constructor props))) in *.
  assert (T : tracked this).
  { apply tracked_run; [apply tracked_constructor|exact Hl]. }
  destruct (attach_made T Hd Hin) as (n & A1 & A2 & _ & _ & A5).
  assert (F : closed (fst (subscribe_stream props (triggers this) n RenderStream))
                = true /\
              rendered (snd (subscribe_stream props (triggers this) n RenderStream))
                = [triggers this]).
  { unfold subscribe_stream. rewrite Hprops. split; reflexivity. }
  destruct F as [F1 F2]. cbn [run step].
  destruct (connectedCallback props this) as [this1 out1]. cbn [fst snd] in *.
  pose proof (closed_render_run acts Hp F1 this1 A5 A1) as C.
  destruct (run props rearm acts this1) as [this2 out2]. cbn [fst snd] in *.
  rewrite rendered_app, A2, F2, C. reflexivity.
Qed.

(** ** The values that a new subscription is sent at once *)





(** ** The effect handlers of a new subscription *)

Lemma replay_effects (cells : list (string * value)) (names : list string) :
  NoDup names ->
  forall s,
    receiving s = true ->
    (forall x, In x names -> assoc_get String.eqb x (keys s) = None) ->
    (forall x, In x names ->
       exists c, assoc_get String.eqb x props = Some c /\ safe c (getValue cells x)) ->
    effects (snd (replay props cells names s)) =
    flat_map (fun x =>
                match assoc_get String.eqb x props with
                | Some c => map (pair (id s))
                              (fst (PropertyEffects.run (getValue cells x) c))
                | None => []
                end) names.
Proof.
  induction 1 as [|name rest Hname Hrest IH]; intros s Hr Hnone Hsafe;
    [reflexivity|].
  cbn [replay flat_map].
  destruct (Hsafe name (or_introl eq_refl)) as [c [Hc Hs]].
  destruct (deliver_first props cells name s Hr (Hnone name (or_introl eq_refl))
              Hc Hs) as (D1 & D2 & _).
  pose proof (deliver_effects props cells name (getValue cells name) s Hc) as De.
  destruct (deliver_local props cells name (getValue cells name) s) as (Dl & _).
  rewrite Hr in De. rewrite Hc.
  destruct (deliver props cells name (getValue cells name) s) as [s1 out1].
  cbn [fst snd] in *.
  assert (Hnone1 : forall x, In x rest -> assoc_get String.eqb x (keys s1) = None).
  { intros x Hx. rewrite D2. rewrite assoc_get_set_other.
    - apply Hnone. right. exact Hx.
    - apply String.eqb_neq. intros ->. contradiction. }
  specialize (IH s1 D1 Hnone1 (fun x Hx => Hsafe x (or_intror Hx))).
  assert (Hid : id s1 = id s).
  { unfold handle in Dl. congruence. }
  destruct (replay props cells rest s1) as [s2 out2]. cbn [fst snd] in *.
  rewrite effects_app, De, IH, Hid. reflexivity.
Qed.

Lemma flat_map_same (A B : Type) (f g : A -> list B) (l : list A) :
  (forall x, In x l -> f x = g x) -> flat_map f l = flat_map g l.
Proof.
  induction l as [|x t IH]; intro H; [reflexivity|].
  simpl. rewrite (H x (or_introl eq_refl)), IH; [reflexivity|].
  intros y Hy. apply H. right. exact Hy.
Qed.

(** Subscribing runs the effect handlers of every property, in the order
    of declaration, on the value that the property holds. *)
Lemma subscribed_effects (cells : list (string * value)) (n : nat)
  (st : stream) :
  NoDup (map fst props) -> seeds_safe props cells ->
  props <> [] -> (forall m, st <> Foreign m) ->
  effects (snd (subscribe_stream props cells n st)) =
  flat_map (fun p => map (pair n)
                       (fst (PropertyEffects.run (getValue cells (fst p)) (snd p))))
    props.
Proof.
  intros Hnd Hsafe Hne Hst.
  set (fresh := {| id := n; source := st; keys := []; throttled := false;
                   trailingValue := None; closed := false |}).
  assert (Hr : receiving fresh = true).
  { unfold receiving. simpl. destruct st; auto. destruct (Hst n0). reflexivity. }
  assert (Hs : forall x, In x (map fst props) ->
             exists c, assoc_get String.eqb x props = Some c /\
                       safe c (getValue cells x)).
  { intros x Hx. apply in_map_iff in Hx. destruct Hx as [[k c] [<- Hin]].
    exists c. split; [apply assoc_get_in; assumption|].
    apply (Hsafe k c Hin). }
  assert (E : subscribe_stream props cells n st =
              replay props cells (map fst props) fresh).
  { unfold subscribe_stream. fold fresh.
    destruct st; [| |destruct (Hst n0); reflexivity];
      destruct props; [contradiction|reflexivity|contradiction|reflexivity]. }
  rewrite E, (@replay_effects cells (map fst props) Hnd fresh Hr
                (fun x _ => eq_refl) Hs).
  cbn [id fresh]. rewrite flat_map_concat_map, map_map, <- flat_map_concat_map.
  apply flat_map_same. intros [k c] Hin. cbn [fst snd].
  rewrite (assoc_get_in k c props Hnd Hin). reflexivity.
Qed.

(** X18: take an attached instance of a class with an observed
    property, on which no effect handler throws on the value that its
    property holds. Registering a stream derived from [propertyChanged$]
    that is not registered yet subscribes it at once, under the next free
    identity. The new subscriber is sent the current value of every
    property, in the order of declaration, although none has changed,
    and the effect handlers of every property run once more on these
    values. *)
Theorem late_subscriber_replay (l : list action) (k : nat) :
  lawful false l = true ->
  isAttached (fst (run props rearm l (constructor props))) = true ->
  ~ In (PropertyChanged k)
       (streams (fst (run props rearm l (constructor props)))) ->
  NoDup (map fst props) ->
  seeds_safe props (triggers (fst (run props rearm l (constructor props)))) ->
  props <> [] ->
  let this := fst (run props rearm l (constructor props)) in
  let out := snd (subscribe props [PropertyChanged k] this) in
  changes out =
    map (fun x => (x, getValue (triggers this) x)) (map fst props) /\
  effects out =
    flat_map (fun p => map (pair (next_id this))
                         (fst (PropertyEffects.run
                                 (getValue (triggers this) (fst p)) (snd p))))
      props /\
  Forall (fun e => sub_of e = Some (next_id this)) out.
Proof.
  intros Hl Ha Hnew Hnd Hsafe Hne this out. subst out.
  fold this in Ha, Hnew, Hsafe.
  assert (T : tracked this).
  { apply tracked_run; [apply tracked_constructor|exact Hl]. }
  destruct T as [_ _ Hatt]. rewrite Ha in Hatt.
  assert (Hhas : assoc_has stream_eqb (PropertyChanged k) (subscriptions this)
                 = false).
  { unfold assoc_has.
    destruct (assoc_get stream_eqb (PropertyChanged k) (subscriptions this))
      as [m|] eqn:G; [|reflexivity].
    apply get_some in G. destruct Hnew. apply Hatt.
    apply (in_map fst) in G. exact G. }
  unfold subscribe.
  change (isAttached (add_streams [PropertyChanged k] this))
    with (isAttached this).
  rewrite Ha. cbn [subscribe_missing].
  change (subscriptions (add_streams [PropertyChanged k] this))
    with (subscriptions this).
  rewrite Hhas. unfold open_subscription.
  change (triggers (add_streams [PropertyChanged k] this)) with (triggers this).
  change (next_id (add_streams [PropertyChanged k] this)) with (next_id this).
  assert (Hst : forall m, PropertyChanged k <> Foreign m) by discriminate.
  destruct (subscribed_listening (next_id this) Hnd Hsafe Hne Hst) as [L1 _].
  pose proof (@subscribed_effects (triggers this) (next_id this)
                (PropertyChanged k) Hnd Hsafe Hne Hst) as L2.
  pose proof (subscribe_stream_own (triggers this) (next_id this)
                (PropertyChanged k)) as L3.
  destruct (subscribe_stream props (triggers this) (next_id this)
              (PropertyChanged k)) as [s0 out0].
  cbn [fst snd] in *. rewrite app_nil_r. auto.
Qed.

(** X19: when no effect handler throws on the value that its property
    holds, [connectedCallback] runs the effect handlers of every property
    on that value: the event of each property with [@notify] is
    dispatched and the attribute of each property with [@reflect] is
    written as the instance is attached, although no property has been
    written. *)
Theorem attach_runs_effects (l : list action) (name : string)
  (c : ConfigObject) (call : host_call) :
  lawful false l = true ->
  isAttached (fst (run props rearm l (constructor props))) = false ->
  In RenderStream (streams (fst (run props rearm l (constructor props)))) ->
  NoDup (map fst props) ->
  seeds_safe props (triggers (fst (run props rearm l (constructor props)))) ->
  In (name, c) props ->
  In call (fst (PropertyEffects.run
                  (getValue (triggers (fst (run props rearm l (constructor props))))
                     name) c)) ->
  In call (map snd (effects (snd (connectedCallback props
             (fst (run props rearm l (constructor props))))))).
Proof.
  intros Hl Hd Hin Hnd Hsafe Hp Hcall.
  set (this := fst (run props rearm l (constructor props))) in *.
  assert (T : tracked this).
  { apply tracked_run; [apply tracked_constructor|exact Hl]. }
  destruct (attach_made T Hd Hin) as (n & _ & _ & A3 & _).
  assert (Hne : props <> []) by (intros E; rewrite E in Hp; destruct Hp).
  assert (Hst : forall m, RenderStream <> Foreign m) by discriminate.
  pose proof (@subscribed_effects (triggers this) n RenderStream Hnd Hsafe Hne
                Hst) as L2.
  apply in_map_iff. exists (n, call). split; [reflexivity|].
  assert (He : In (n, call)
                 (effects (snd (subscribe_stream props (triggers this) n
                                  RenderStream)))).
  { rewrite L2. apply in_flat_map. exists (name, c). split; [exact Hp|].
    apply in_map. exact Hcall. }
  unfold effects in *. apply in_flat_map in He. destruct He as (e & E1 & E2).
  apply in_flat_map. exists e. split; [apply A3; exact E1|exact E2].
Qed.

End WithClass.

Lemma property_read_write_witness :
  getValue (triggers (fst (set (rt := sample_runtime) pair_props "first" one
                             (constructor pair_props)))) "first" = one /\
  getValue (triggers (fst (set (rt := sample_runtime) pair_props "first" one
                             (constructor pair_props)))) "second" = VUndefined.
Proof.
  destruct (@property_read_write sample_runtime pair_props "first" "second"
              one (constructor pair_props) eq_refl eq_refl) as (H1 & H2 & _).
  split; [exact H1|exact H2].
Defined.

Lemma one_subscription_or_none_witness :
  executions (fst (sample_run [Register [Foreign 1]; Attach; Attach]
                     sample_instance)) (Foreign 1) = 2 /\
  executions (fst (sample_run [Register [Foreign 1]; Attach; Detach; Attach]
                     sample_instance)) (Foreign 1) = 1.
Proof.
  split; [reflexivity|].
  apply (@one_subscription_or_none sample_runtime sample_props false
           [Register [Foreign 1]; Attach; Detach; Attach] (Foreign 1)).
  reflexivity.
Defined.

Lemma unsubscribe_removes_witness :
  executions
    (fst (unsubscribe [Foreign 1]
            (fst (sample_run [Register [Foreign 1; Foreign 2]; Attach]
                    sample_instance)))) (Foreign 1) = 0 /\
  executions
    (fst (unsubscribe [Foreign 1]
            (fst (sample_run [Register [Foreign 1; Foreign 2]; Attach]
                    sample_instance)))) (Foreign 2) = 1.
Proof.
  split.
  - destruct (@unsubscribe_removes sample_runtime sample_props false
                [Register [Foreign 1; Foreign 2]; Attach] [Foreign 1]
                (Foreign 1) eq_refl) as (_ & H & _). exact H.
  - destruct (@unsubscribe_removes sample_runtime sample_props false
                [Register [Foreign 1; Foreign 2]; Attach] [Foreign 1]
                (Foreign 2) eq_refl) as (_ & H & _). exact H.
Defined.

Lemma idle_calls_change_nothing_witness :
  unsubscribe [Foreign 5] sample_attached = (sample_attached, []) /\
  disconnectedCallback sample_instance =
    (sample_instance, [Signal Disconnected]).
Proof.
  split.
  - destruct (@idle_calls_change_nothing sample_runtime sample_props false
                [Attach] [Foreign 5] eq_refl) as [H _].
    apply H. vm_compute. intros x [<-|[]] [E|[]]. discriminate E.
  - destruct (@idle_calls_change_nothing sample_runtime sample_props false
                [] [] eq_refl) as [_ H].
    apply H. reflexivity.
Defined.

Lemma one_render_per_burst_witness :
  List.length (rendered (snd (sample_run
    [Write "prop" one; Write "prop" two; AttributeChange "prop" "2" "3";
     Write "prop" one]
    (fst (sample_run [Attach; Tick] sample_instance))))) <= 1.
Proof.
  apply (@one_render_per_burst sample_runtime sample_props false [Attach; Tick]
           [Write "prop" one; Write "prop" two; AttributeChange "prop" "2" "3";
            Write "prop" one]); reflexivity.
Defined.

(** The object without [toString] written to the property that reflects:
    [serialize] throws [EvalError], and the stream of the renderer is
    over. *)
Lemma effect_error_ends_subscription_witness :
  let this := fst (run (rt := sample_runtime) reflecting_props false
                     [Attach; Tick] (constructor reflecting_props)) in
  In (Unhandled 0 EvalError)
     (snd (set (rt := sample_runtime) reflecting_props "prop" bare this)) /\
  changed_in 0
     (snd (set (rt := sample_runtime) reflecting_props "prop" bare this)) = [] /\
  filter (from_sub 0)
    (snd (run (rt := sample_runtime) reflecting_props false
            [Write "prop" one; Tick; Write "prop" two; Tick]
            (fst (set (rt := sample_runtime) reflecting_props "prop" bare this))))
    = [].
Proof.
  intro this.
  apply (@effect_error_ends_subscription sample_runtime reflecting_props false
           this 0
           {| id := 0; source := RenderStream;
              keys := [("prop", VUndefined)]; throttled := false;
              trailingValue := None; closed := false |}
           "prop" (snd (hd (observed "prop") reflecting_props)) bare EvalError
           [Write "prop" one; Tick; Write "prop" two; Tick]);
    try reflexivity.
  vm_compute. repeat constructor. simpl. tauto.
Defined.

Lemma failing_effect_never_rendered_witness :
  rendered (snd (run (rt := sample_runtime) link_props false
    [Attach; Tick; Write "link" (VString "http://localhost/"); Tick]
    (constructor link_props))) = [].
Proof.
  apply (@failing_effect_never_rendered sample_runtime link_props false []
           [Tick; Write "link" (VString "http://localhost/"); Tick]
           "link" (snd (hd (observed "link") link_props)) TypeError);
    try reflexivity.
  left. reflexivity.
Defined.

Lemma no_properties_one_render_witness :
  rendered (snd (run (rt := sample_runtime) [] false
    [Attach; Tick; Write "prop" one; Tick] (constructor []))) = [[]].
Proof.
  apply (@no_properties_one_render sample_runtime [] false []
           [Tick; Write "prop" one; Tick]); try reflexivity.
  left. reflexivity.
Defined.


Lemma late_subscriber_replay_witness :
  changes (snd (subscribe (rt := sample_runtime) notifying_props
                  [PropertyChanged 0]
                  (fst (run (rt := sample_runtime) notifying_props false
                          [Attach; Write "prop" one]
                          (constructor notifying_props))))) =
  [("prop", one)].
Proof.
  destruct (@late_subscriber_replay sample_runtime notifying_props false
              [Attach; Write "prop" one] 0) as (H & _ & _).
  - reflexivity.
  - reflexivity.
  - simpl. intuition discriminate.
  - repeat constructor; simpl; intuition discriminate.
  - intros k c [E|[]]; injection E as <- <-; reflexivity.
  - discriminate.
  - exact H.
Defined.

Lemma attach_runs_effects_witness :
  In (DispatchEvent "prop-changed")
    (map snd (effects (snd (connectedCallback (rt := sample_runtime)
       notifying_props (constructor notifying_props))))).
Proof.
  apply (@attach_runs_effects sample_runtime notifying_props false []
           "prop" (snd (hd (observed "prop") notifying_props))
           (DispatchEvent "prop-changed")).
  - reflexivity.
  - reflexivity.
  - left. reflexivity.
  - repeat constructor; simpl; intuition discriminate.
  - intros k c [E|[]]; injection E as <- <-; reflexivity.
  - left. reflexivity.
  - left. reflexivity.
Defined.

End ComponentExtra.
